(** * bitcoin-boi: the transactions read API and its browser client

    A shallow embedding of
    - the versioned router (GET /api/transactions, /range, /by-time, /search),
    - the legacy point lookup GET /api/transaction/:hash,
    - the global error handler of the server, and
    - the client class [TransactionService],
    followed by the properties of the query-parameter translation layer,
    the pagination arithmetic, the response envelopes and the client's
    error normalisation.

    Conventions of the model.
    - A JavaScript number is [number]: NaN, the two infinities, or an exact
      rational.  Rounding of IEEE doubles and the sign of zero are not
      represented.  The model is the engine on the safe integers, those of
      magnitude at most [MAX_SAFE_INTEGER] = 2^53 - 1, every one of which is
      a double and prints as its digits, and on the floor and the ceiling of
      their quotients (section Doubles).  Beyond them the engine rounds what
      it reads, prints in exponent form from 10^21 on, and the store, which
      binds LIMIT and OFFSET to bigint, refuses values from 2^63 on; the
      model does none of this.  The statements about the routes that depend
      on the value of an integer of the request therefore bound it by
      [MAX_SAFE_INTEGER]; those about the component take its page counter,
      which a click moves by one, as exact.
    - [req.query] is a finite map from parameter names to strings (one value
      per name; repeated parameters and nested objects are not represented).
    - The data store is a table of transactions; every SQL text of the source
      is one constructor of [Query] and [pool_query] gives it its meaning.
      Timestamps are microseconds since the epoch, in UTC. *)

From Stdlib Require Import ZArith QArith Qround Qcanon Qabs Bool Ascii String List Lia Lqa.
From Stdlib Require Import Sorting.Sorted Sorting.Permutation.
From stdpp Require Import base option list sorting strings pretty gmap.

Local Open Scope string_scope.
Local Open Scope list_scope.
Local Open Scope Z_scope.

(** ** JavaScript values and numbers *)

Module JS.

Inductive number : Type :=
| NaN
| PosInf
| NegInf
| Fin (q : Q).

Definition int (z : Z) : number := Fin (inject_Z z).

(** [Number.MAX_SAFE_INTEGER]: up to it, in magnitude, every integer is a
    double, and the integers of the model are the numbers of the engine. *)
Definition MAX_SAFE_INTEGER : Z := 9007199254740991.

(** [a / b] on numbers. *)
Definition div (a b : number) : number :=
  match a, b with
  | Fin x, Fin y =>
      if Qeq_bool y 0 then
        (if Qeq_bool x 0 then NaN
         else if Qle_bool 0 x then PosInf else NegInf)
      else Fin (x / y)
  | Fin _, (PosInf | NegInf) => int 0
  | PosInf, Fin y => if Qle_bool 0 y then PosInf else NegInf
  | NegInf, Fin y => if Qle_bool 0 y then NegInf else PosInf
  | _, _ => NaN
  end.

(** [a + b] on numbers. *)
Definition add (a b : number) : number :=
  match a, b with
  | Fin x, Fin y => Fin (x + y)
  | NaN, _ | _, NaN => NaN
  | PosInf, NegInf | NegInf, PosInf => NaN
  | PosInf, _ | _, PosInf => PosInf
  | NegInf, _ | _, NegInf => NegInf
  end.

Definition Math_ceil (a : number) : number :=
  match a with
  | Fin x => int (Qceiling x)
  | other => other
  end.

Definition Math_floor (a : number) : number :=
  match a with
  | Fin x => int (Qfloor x)
  | other => other
  end.

(** [a === b] on numbers. *)
Definition strict_eq (a b : number) : bool :=
  match a, b with
  | Fin x, Fin y => Qeq_bool x y
  | PosInf, PosInf | NegInf, NegInf => true
  | _, _ => false
  end.

(** [a < b] on numbers: false as soon as one side is NaN. *)
Definition lt (a b : number) : bool :=
  match a, b with
  | NaN, _ | _, NaN => false
  | Fin x, Fin y => negb (Qle_bool y x)
  | NegInf, (Fin _ | PosInf) => true
  | Fin _, PosInf => true
  | _, _ => false
  end.

(** The values a field of [req.query] can hold: a string as parsed from the
    URL, or what a sanitizer put in its place. *)
Inductive value : Type :=
| VUndefined
| VStr (s : string)
| VNum (n : number).

Definition truthy (v : value) : bool :=
  match v with
  | VUndefined => false
  | VStr s => negb (String.eqb s EmptyString)
  | VNum (Fin q) => negb (Qeq_bool q 0)
  | VNum NaN => false
  | VNum _ => true
  end.

(** [a || b]. *)
Definition or (a b : value) : value := if truthy a then a else b.

(** *** Decimal digits *)

Definition digit_of (c : ascii) : option Z :=
  let n := Z.of_N (N_of_ascii c) in
  if (48 <=? n) && (n <=? 57) then Some (n - 48) else None.

Definition is_white (c : ascii) : bool :=
  let n := N_of_ascii c in
  (n =? 32)%N || ((9 <=? n) && (n <=? 13))%N.

Fixpoint skip_white (s : string) : string :=
  match s with
  | String c r => if is_white c then skip_white r else s
  | EmptyString => EmptyString
  end.

(** The value of the longest prefix of decimal digits, [None] when the
    string does not start with a digit. *)
Fixpoint digits_prefix (acc : option Z) (s : string) : option Z :=
  match s with
  | String c r =>
      match digit_of c with
      | Some d => digits_prefix (Some (10 * default 0 acc + d)) r
      | None => acc
      end
  | EmptyString => acc
  end.

Definition split_sign (s : string) : bool * string :=
  match s with
  | String "-" r => (true, r)
  | String "+" r => (false, r)
  | _ => (false, s)
  end.

Definition signed (neg : bool) (v : Z) : Z := if neg then - v else v.

(** [parseInt(s, 10)] on a string.  The value is the exact integer; the
    engine gives the nearest double, which is that integer as long as it is
    safe. *)
Definition parseInt_string (s : string) : number :=
  let '(neg, body) := split_sign (skip_white s) in
  match digits_prefix None body with
  | Some v => int (signed neg v)
  | None => NaN
  end.

(** [parseInt(v)]: a number is first printed, then read back, which keeps
    its integer part; infinities and NaN print as words and read as NaN.
    (From 10^21 on the engine prints in exponent form and reads back the
    digits before the dot; the model keeps the integer part there too.) *)
Definition parseInt (v : value) : number :=
  match v with
  | VUndefined => NaN
  | VStr s => parseInt_string s
  | VNum (Fin q) => int (Z.quot (Qnum q) (Z.pos (Qden q)))
  | VNum _ => NaN
  end.

(** *** Printing *)

Definition digit_char (d : Z) : ascii := ascii_of_N (Z.to_N (48 + d)).

(** The decimal expansion of [r / den] for [0 <= r < den], cut after [n]
    digits. *)
Fixpoint fraction_digits (n : nat) (r den : Z) : string :=
  match n with
  | O => EmptyString
  | S n' =>
      if r =? 0 then EmptyString
      else String (digit_char (10 * r / den)) (fraction_digits n' (10 * r mod den) den)
  end.

(** [String(n)].  An integer prints its decimal digits, as the engine
    prints a safe integer.  A fraction prints its integer part, a dot and
    its expansion cut after sixteen digits, which is what the engine prints
    for the short expansions (3.5, 0.25). *)
Definition number_to_string (n : number) : string :=
  match n with
  | NaN => "NaN"
  | PosInf => "Infinity"
  | NegInf => "-Infinity"
  | Fin q =>
      let num := Qnum (Qred q) in
      let den := Z.pos (Qden (Qred q)) in
      if den =? 1 then pretty num
      else
        (if num <? 0 then "-" else EmptyString)
        +:+ pretty (Z.abs num / den)
        +:+ "." +:+ fraction_digits 16 (Z.abs num mod den) den
  end.

(** [String(v)], as a template literal applies it. *)
Definition to_string (v : value) : string :=
  match v with
  | VUndefined => "undefined"
  | VStr s => s
  | VNum n => number_to_string n
  end.

(** [Number(v)].  Of the numeric literals a string can hold, the model
    reads the signed decimal integers. *)
Definition to_number (v : value) : number :=
  match v with
  | VUndefined => NaN
  | VNum n => n
  | VStr s =>
      let '(neg, body) := split_sign s in
      if String.eqb body EmptyString then (if String.eqb s EmptyString then int 0 else NaN)
      else
        (fix all (acc : Z) (b : string) : number :=
           match b with
           | String c r =>
               match digit_of c with
               | Some d => all (10 * acc + d) r
               | None => NaN
               end
           | EmptyString => int (signed neg acc)
           end) 0 body
  end.

(** *** Substrings *)

Fixpoint starts_with (p s : string) : bool :=
  match p, s with
  | EmptyString, _ => true
  | String a p', String b s' => Ascii.eqb a b && starts_with p' s'
  | String _ _, EmptyString => false
  end.

(** [hay.includes(needle)] *)
Fixpoint includes (needle hay : string) : bool :=
  starts_with needle hay
  || match hay with
     | String _ r => includes needle r
     | EmptyString => false
     end.

(** An exception: what [throw] carries and [catch] receives. *)
Record Error : Type := mkError {
  message : string;
  code : option string;
  status : option Z
}.

(** Reading a property of [undefined]. *)
Definition TypeError (msg : string) : Error := mkError msg None None.

End JS.

(** ** Calendar dates

    [new Date(s)] of the handler and the cast [$1::date] of the SQL texts
    both read a date parameter.  The model reads the form YYYY-MM-DD, which
    is the one the client documents and sends.  (The validator's default
    options also admit YYYY/MM/DD; what [new Date] makes of that form depends
    on the time zone of the host, and it is left out.) *)

Module Calendar.

Record Date : Type := mkDate { year : Z; month : Z; day : Z }.

Definition InLeapYear (y : Z) : bool :=
  (y mod 4 =? 0) && (negb (y mod 100 =? 0) || (y mod 400 =? 0)).

Definition DaysInMonth (y m : Z) : Z :=
  match m with
  | 1 | 3 | 5 | 7 | 8 | 10 | 12 => 31
  | 4 | 6 | 9 | 11 => 30
  | 2 => if InLeapYear y then 29 else 28
  | _ => 0
  end.

Definition valid (d : Date) : bool :=
  (1 <=? month d) && (month d <=? 12) &&
  (1 <=? day d) && (day d <=? DaysInMonth (year d) (month d)).

(** Day number of 1 January of year [y], counted from 1970-01-01. *)
Definition DayFromYear (y : Z) : Z :=
  365 * (y - 1970) + (y - 1969) / 4 - (y - 1901) / 100 + (y - 1601) / 400.

(** Days of year [y] that precede the first day of month [m]. *)
Definition DaysBeforeMonth (y m : Z) : Z :=
  let leap := if InLeapYear y then 1 else 0 in
  match m with
  | 1 => 0
  | 2 => 31
  | 3 => 59 + leap
  | 4 => 90 + leap
  | 5 => 120 + leap
  | 6 => 151 + leap
  | 7 => 181 + leap
  | 8 => 212 + leap
  | 9 => 243 + leap
  | 10 => 273 + leap
  | 11 => 304 + leap
  | _ => 334 + leap
  end.

Definition MakeDay (d : Date) : Z :=
  DayFromYear (year d) + DaysBeforeMonth (year d) (month d) + day d - 1.

(** Chronological order of calendar dates. *)
Definition before (a b : Date) : Prop :=
  year a < year b \/
  (year a = year b /\
   (month a < month b \/ (month a = month b /\ day a < day b))).

(** The value of a string made of decimal digits only. *)
Fixpoint digits_value (acc : Z) (s : string) : option Z :=
  match s with
  | String c r =>
      match JS.digit_of c with
      | Some d => digits_value (10 * acc + d) r
      | None => None
      end
  | EmptyString => Some acc
  end.

(** Reads YYYY-MM-DD. *)
Definition read (s : string) : option Date :=
  if (String.length s =? 10)%nat
     && bool_decide (String.get 4 s = Some "-"%char)
     && bool_decide (String.get 7 s = Some "-"%char)
  then
    y ← digits_value 0 (String.substring 0 4 s);
    m ← digits_value 0 (String.substring 5 2 s);
    d ← digits_value 0 (String.substring 8 2 s);
    Some (mkDate y m d)
  else None.

End Calendar.

(** ** The validators and sanitizers the router uses

    These are the functions of validator.js that the chains name, with the
    options the source passes. *)

Module Validator.

(** The test of [/^[-+]?[0-9]+$/]. *)
Definition int_regex (s : string) : bool :=
  let body := snd (JS.split_sign s) in
  negb (String.eqb body EmptyString) && bool_decide (is_Some (Calendar.digits_value 0 body)).

(** The number a string that passes [int_regex] denotes. *)
Definition int_value (s : string) : Z :=
  let '(neg, body) := JS.split_sign s in
  JS.signed neg (default 0 (Calendar.digits_value 0 body)).

Definition bound_ok (le : Z -> Z -> bool) (b : option Z) (v : Z) : bool :=
  match b with
  | Some x => le x v
  | None => true
  end.

(** [isInt(str, { min, max })]. *)
Definition isInt (min max : option Z) (s : string) : bool :=
  int_regex s
  && bound_ok Z.leb min (int_value s)
  && bound_ok (fun x v => v <=? x) max (int_value s).

(** [toInt(str)], which is [parseInt(str, 10)]: exact, as [parseInt_string]
    is. *)
Definition toInt (s : string) : JS.value := JS.VNum (JS.parseInt_string s).

(** [isLength(str, { min })]; the strings of the model are sequences of
    one-byte characters. *)
Definition isLength (min : nat) (s : string) : bool :=
  (min <=? String.length s)%nat.

(** [isIn(str, values)]. *)
Definition isIn (values : list string) (s : string) : bool :=
  bool_decide (s ∈ values).

(** [isDate(str)] on a string in the form YYYY-MM-DD: it denotes a day of
    the calendar.  (With its default options the validator admits the form
    YYYY/MM/DD as well, which the model does not read; the statements about
    the dates of a request keep to the form YYYY-MM-DD.) *)
Definition isDate (s : string) : bool :=
  match Calendar.read s with
  | Some d => Calendar.valid d
  | None => false
  end.

End Validator.

(** ** The data store *)

Module Db.

Record Transaction : Type := mkTransaction {
  hash : string;
  block_id : Z;
  time : Z;
  output_total : Q;
  output_total_usd : Q;
  fee : Q;
  size : Z
}.

Record Bucket : Type := mkBucket {
  bucket : Z;
  transaction_count : Z;
  total_volume : Q;
  avg_fee : Q;
  max_transaction : Q;
  min_transaction : Q
}.

(** A row of a result, as the driver hands it over: a transaction, the one
    column [total] of a count, or a bucket.  A count is a bigint, which the
    driver hands over as its decimal text. *)
Inductive Row : Type :=
| TxRow (t : Transaction)
| TotalRow (total : JS.value)
| BucketRow (b : Bucket).

(** An error of the store, as the driver throws it: a message and the
    five-character code of the condition.  It has no [status]. *)
Record DatabaseError : Type := mkDatabaseError {
  message : string;
  code : string
}.

Definition thrown (e : DatabaseError) : JS.Error :=
  JS.mkError (message e) (Some (code e)) None.

(** The SQL texts of the source, one constructor each. *)
Inductive SqlText : Type :=
| SELECT_PAGE
  (* SELECT * FROM transactions ORDER BY time DESC LIMIT $1 OFFSET $2 *)
| COUNT_ALL
  (* SELECT COUNT( * ) as total FROM transactions *)
| SELECT_RANGE
  (* SELECT * FROM transactions
     WHERE time >= $1::date AND time <= ($2::date + interval '1 day - 1 second')
     ORDER BY time DESC LIMIT $3 OFFSET $4 *)
| COUNT_RANGE
  (* SELECT COUNT( * ) as total FROM transactions
     WHERE time >= $1::date AND time <= ($2::date + interval '1 day - 1 second') *)
| SELECT_BUCKETS
  (* SELECT time_bucket($1, time) AS bucket, COUNT( * ), SUM(output_total),
     AVG(fee), MAX(output_total), MIN(output_total) FROM transactions
     GROUP BY bucket ORDER BY bucket DESC LIMIT $2 *)
| SELECT_SEARCH
  (* SELECT * FROM transactions WHERE hash ILIKE $1 ORDER BY time DESC LIMIT $2 *)
| COUNT_SEARCH
  (* SELECT COUNT( * ) as total FROM transactions WHERE hash ILIKE $1 *)
| SELECT_BY_HASH
  (* SELECT * FROM transactions WHERE hash = $1 *).

Record Query : Type := mkQuery { text : SqlText; values : list JS.value }.

Inductive Result : Type :=
| Failed (e : DatabaseError)
| Rows (rows : list Row).

(** The pool: the table, the aggregates the time-bucketing extension
    computes for an interval (a black box to this system), and the error
    every query meets while the store is unreachable. *)
Record Pool : Type := mkPool {
  table : list Transaction;
  time_bucket : string -> list Bucket;
  outage : option DatabaseError
}.

(** *** ORDER BY time DESC *)

Fixpoint insert_desc (t : Transaction) (l : list Transaction) : list Transaction :=
  match l with
  | [] => [t]
  | u :: r => if time u <=? time t then t :: u :: r else u :: insert_desc t r
  end.

Definition order_by_time_desc (l : list Transaction) : list Transaction :=
  foldr insert_desc [] l.

(** *** Parameters *)

(** A parameter bound to LIMIT or OFFSET: an integer that is not negative.
    (The store binds it to bigint and refuses an integer from 2^63 on; the
    model admits every integer, and the statements about a request keep to
    the safe ones.) *)
Definition as_count (v : JS.value) : option nat :=
  match v with
  | JS.VNum (JS.Fin q) =>
      if (Z.pos (Qden (Qred q)) =? 1) && (0 <=? Qnum q) then Some (Z.to_nat (Qnum (Qred q)))
      else None
  | JS.VStr s =>
      if Validator.int_regex s && (0 <=? Validator.int_value s)
      then Some (Z.to_nat (Validator.int_value s)) else None
  | _ => None
  end.

(** A parameter cast with [::date]: a day of the calendar, of a year the
    store has (it has no year zero). *)
Definition as_date (v : JS.value) : option Z :=
  match v with
  | JS.VStr s =>
      match Calendar.read s with
      | Some d =>
          if Calendar.valid d && (1 <=? Calendar.year d) then Some (Calendar.MakeDay d)
          else None
      | None => None
      end
  | _ => None
  end.

Definition as_text (v : JS.value) : option string :=
  match v with
  | JS.VStr s => Some s
  | _ => None
  end.

Definition microseconds_per_day : Z := 86400 * 1000000.

(** [time >= $1::date AND time <= ($2::date + interval '1 day - 1 second')] *)
Definition in_range (lo hi : Z) (t : Transaction) : bool :=
  (lo * microseconds_per_day <=? time t)
  && (time t <=? hi * microseconds_per_day + 86399 * 1000000).

(** *** ILIKE *)

Definition lower (c : ascii) : ascii :=
  let n := N_of_ascii c in
  if ((65 <=? n) && (n <=? 90))%N then ascii_of_N (n + 32) else c.

Fixpoint lower_string (s : string) : string :=
  match s with
  | String c r => String (lower c) (lower_string r)
  | EmptyString => EmptyString
  end.

(** [s LIKE p]: [%] stands for any run of characters, [_] for any one
    character, and a backslash takes the next character literally.  (A
    pattern that ends in a lone backslash is an error of the store; the
    handlers close every pattern with [%].) *)
Fixpoint like (p s : string) {struct p} : bool :=
  match p with
  | EmptyString => bool_decide (s = EmptyString)
  | String c p' =>
      if Ascii.eqb c "%" then
        (fix any (s : string) : bool :=
           like p' s
           || match s with
              | String _ s' => any s'
              | EmptyString => false
              end) s
      else if Ascii.eqb c "_" then
        match s with
        | String _ s' => like p' s'
        | EmptyString => false
        end
      else if Ascii.eqb c "\" then
        match p', s with
        | String e p'', String d s' => Ascii.eqb e d && like p'' s'
        | _, _ => false
        end
      else
        match s with
        | String d s' => Ascii.eqb c d && like p' s'
        | EmptyString => false
        end
  end.

Definition ilike (p s : string) : bool := like (lower_string p) (lower_string s).

(** *** The executor *)

Definition bad_parameter : DatabaseError :=
  mkDatabaseError "invalid input for a query parameter" "22P02".

Definition total_of (n : nat) : list Row := [TotalRow (JS.VStr (pretty (Z.of_nat n)))].

Definition run (p : Pool) (q : Query) : Result :=
  match text q, values q with
  | SELECT_PAGE, [limit; offset] =>
      match as_count limit, as_count offset with
      | Some l, Some o =>
          Rows (TxRow <$> take l (drop o (order_by_time_desc (table p))))
      | _, _ => Failed bad_parameter
      end
  | COUNT_ALL, [] => Rows (total_of (length (table p)))
  | SELECT_RANGE, [start; end_; limit; offset] =>
      match as_date start, as_date end_, as_count limit, as_count offset with
      | Some lo, Some hi, Some l, Some o =>
          Rows (TxRow <$> take l (drop o
                  (order_by_time_desc (filter (fun t => in_range lo hi t) (table p)))))
      | _, _, _, _ => Failed bad_parameter
      end
  | COUNT_RANGE, [start; end_] =>
      match as_date start, as_date end_ with
      | Some lo, Some hi =>
          Rows (total_of (length (filter (fun t => in_range lo hi t) (table p))))
      | _, _ => Failed bad_parameter
      end
  | SELECT_BUCKETS, [interval; limit] =>
      match as_text interval, as_count limit with
      | Some i, Some l => Rows (BucketRow <$> take l (time_bucket p i))
      | _, _ => Failed bad_parameter
      end
  | SELECT_SEARCH, [pattern; limit] =>
      match as_text pattern, as_count limit with
      | Some pat, Some l =>
          Rows (TxRow <$> take l
                  (order_by_time_desc (filter (fun t => ilike pat (hash t)) (table p))))
      | _, _ => Failed bad_parameter
      end
  | COUNT_SEARCH, [pattern] =>
      match as_text pattern with
      | Some pat =>
          Rows (total_of (length (filter (fun t => ilike pat (hash t)) (table p))))
      | None => Failed bad_parameter
      end
  | SELECT_BY_HASH, [h] =>
      match as_text h with
      | Some h => Rows (TxRow <$> filter (fun t => String.eqb (hash t) h) (table p))
      | None => Failed bad_parameter
      end
  | _, _ => Failed (mkDatabaseError "wrong number of parameters" "08P01")
  end.

(** [pool.query(q)] *)
Definition pool_query (p : Pool) (q : Query) : Result :=
  match outage p with
  | Some e => Failed e
  | None => run p q
  end.

End Db.

(** ** HTTP responses *)

Module Http.

(** One failure of a validation chain, as [errors.array()] lists it. *)
Record ValidationError : Type := mkValidationError {
  location : string;
  path : string;
  msg : string;
  value : JS.value
}.

(** A JSON body.  Rows stay rows; an object keeps its fields in the order
    the source writes them. *)
#[warnings="-register-all"]
Inductive Json : Type :=
| JVal (v : JS.value)
| JRows (rows : list Db.Row)
| JRow (row : Db.Row)
| JDetails (errors : list ValidationError)
| JObj (fields : list (string * Json)).

Definition JString (s : string) : Json := JVal (JS.VStr s).
Definition JNumber (n : JS.number) : Json := JVal (JS.VNum n).

(** [obj.name] *)
Definition field (name : string) (j : Json) : option Json :=
  match j with
  | JObj fields => snd <$> List.find (fun kv => String.eqb (fst kv) name) fields
  | _ => None
  end.

Definition keys (j : Json) : list string :=
  match j with
  | JObj fields => fst <$> fields
  | _ => []
  end.

Record Response : Type := mkResponse {
  status : Z;
  headers : gmap string JS.number;
  body : Json
}.

(** [res.status(code).json(body)] on a response without headers. *)
Definition json (code : Z) (b : Json) : Response := mkResponse code ∅ b.

(** What serving a request comes to: the response sent and the queries
    handed to the pool on the way, in order. *)
Record Outcome : Type := mkOutcome {
  response : Response;
  issued : list Db.Query
}.

(** The rows of a success body. *)
Definition rows_of (o : Outcome) : list Db.Row :=
  match field "rows" (body (response o)) with
  | Some (JRows rows) => rows
  | _ => []
  end.

End Http.

(** ** Validation chains (express-validator) *)

Module Express.

Import Http.

Inductive Item : Type :=
| Validate (test : JS.value -> bool) (message : string)
| Sanitize (f : JS.value -> JS.value).

Record Chain : Type := mkChain {
  field : string;
  is_optional : bool;
  items : list Item
}.

(** The string a standard validator is run on. *)
Definition toString (v : JS.value) : string :=
  match v with
  | JS.VUndefined => EmptyString
  | JS.VNum JS.NaN => EmptyString
  | other => JS.to_string other
  end.

Definition standard (f : string -> bool) : JS.value -> bool :=
  fun v => f (toString v).

Definition push (i : Item) (c : Chain) : Chain :=
  mkChain (field c) (is_optional c) (items c ++ [i]).

(** [query(name)] *)
Definition query (name : string) : Chain := mkChain name false [].

(** [.optional()] *)
Definition optional (c : Chain) : Chain := mkChain (field c) true (items c).

Definition isInt (min max : option Z) : Chain -> Chain :=
  push (Validate (standard (Validator.isInt min max)) "Invalid value").

Definition isDate : Chain -> Chain :=
  push (Validate (standard Validator.isDate) "Invalid value").

Definition isIn (values : list string) : Chain -> Chain :=
  push (Validate (standard (Validator.isIn values)) "Invalid value").

Definition isLength (min : nat) : Chain -> Chain :=
  push (Validate (standard (Validator.isLength min)) "Invalid value").

(** [.isString()]: [typeof value === 'string']. *)
Definition isString : Chain -> Chain :=
  push (Validate (fun v => match v with JS.VStr _ => true | _ => false end) "Invalid value").

Definition toInt : Chain -> Chain :=
  push (Sanitize (fun v => Validator.toInt (toString v))).

Fixpoint set_last_message (m : string) (l : list Item) : list Item :=
  match l with
  | [] => []
  | [Validate t _] => [Validate t m]
  | i :: r => i :: set_last_message m r
  end.

(** [.withMessage(m)]: the message of the validator just named. *)
Definition withMessage (m : string) (c : Chain) : Chain :=
  mkChain (field c) (is_optional c) (set_last_message m (items c)).

(** [req.query.name] *)
Definition get (q : gmap string JS.value) (name : string) : JS.value :=
  default JS.VUndefined (q !! name).

(** Runs the items in order on the value of the field: a failing check adds
    an error and the rest still runs; a sanitizer replaces the value. *)
Fixpoint run_items (name : string) (l : list Item) (v : JS.value)
  : list ValidationError * JS.value :=
  match l with
  | [] => ([], v)
  | Validate test m :: r =>
      let '(errs, v') := run_items name r v in
      if test v then (errs, v') else (mkValidationError "query" name m v :: errs, v')
  | Sanitize f :: r => run_items name r (f v)
  end.

Definition is_undefined (v : JS.value) : bool :=
  match v with
  | JS.VUndefined => true
  | _ => false
  end.

(** [.optional()] skips the chain when the field is [undefined]. *)
Definition skipped (c : Chain) (q : gmap string JS.value) : bool :=
  is_optional c && is_undefined (get q (field c)).

(** One chain as a middleware: its errors, and [req.query] afterwards. *)
Definition run_chain (c : Chain) (q : gmap string JS.value)
  : list ValidationError * gmap string JS.value :=
  if skipped c q then ([], q)
  else
    let '(errs, v) := run_items (field c) (items c) (get q (field c)) in
    (errs, <[field c := v]> q).

(** The chains of a route in order: all errors, and the final [req.query]. *)
Fixpoint run_chains (cs : list Chain) (q : gmap string JS.value)
  : list ValidationError * gmap string JS.value :=
  match cs with
  | [] => ([], q)
  | c :: r =>
      let '(errs, q') := run_chain c q in
      let '(errs', q'') := run_chains r q' in
      (errs ++ errs', q'')
  end.

End Express.

(** ** The server *)

Module Server.

Import Http.

Notation "c |> f" := (f c) (at level 45, left associativity, only parsing).

Definition num (z : Z) : JS.value := JS.VNum (JS.int z).

(** [new Date(v)] as the comparison operators see it: milliseconds since the
    epoch, NaN for an invalid date.  A string is read in the form
    YYYY-MM-DD, which the engine takes as a day in UTC; the form YYYY/MM/DD,
    which it takes as a day in the zone of the host, is not read. *)
Definition Date (v : JS.value) : JS.number :=
  match v with
  | JS.VStr s =>
      match Calendar.read s with
      | Some d =>
          if Calendar.valid d then JS.int (Calendar.MakeDay d * 86400000) else JS.NaN
      | None => JS.NaN
      end
  | JS.VNum n => n
  | JS.VUndefined => JS.NaN
  end.

(** The error-handling middleware of the application:
    [res.status(err.status || 500).json({ message: err.message || ..., code: err.code || ... })]. *)
Definition error_handler (err : JS.Error) : Response :=
  json
    (match JS.status err with
     | Some s => if s =? 0 then 500 else s
     | None => 500
     end)
    (JObj [("message",
            JString (if String.eqb (JS.message err) EmptyString
                     then "Internal Server Error" else JS.message err));
           ("code",
            JString (match JS.code err with
                     | Some c => if String.eqb c EmptyString then "unknown error" else c
                     | None => "unknown error"
                     end))]).

(** [next(error)] from a handler that has handed [qs] to the pool. *)
Definition next_error (err : JS.Error) (qs : list Db.Query) : Outcome :=
  mkOutcome (error_handler err) qs.

(** [countResult.rows[0].total]; reading [total] of a missing first row
    throws. *)
Definition first_total (rows : list Db.Row) : JS.Error + JS.value :=
  match rows with
  | [] => inl (JS.TypeError "Cannot read properties of undefined (reading 'total')")
  | Db.TotalRow total :: _ => inr total
  | _ :: _ => inr JS.VUndefined
  end.

(** [await Promise.all([pool.query(a), pool.query(b)])] *)
Definition both (pool : Db.Pool) (a b : Db.Query)
  : JS.Error + (list Db.Row * list Db.Row) :=
  match Db.pool_query pool a, Db.pool_query pool b with
  | Db.Rows ra, Db.Rows rb => inr (ra, rb)
  | Db.Failed e, _ => inl (Db.thrown e)
  | _, Db.Failed e => inl (Db.thrown e)
  end.

Record Route : Type := mkRoute {
  chains : list Express.Chain;
  handler : Db.Pool -> gmap string JS.value -> Outcome
}.

Module Router.

Import Express.

Definition validateRequest (errors : list ValidationError) (next : Outcome) : Outcome :=
  match errors with
  | [] => next
  | _ :: _ =>
      mkOutcome
        (json 400 (JObj [("error", JString "Validation failed"); ("details", JDetails errors)]))
        []
  end.

Definition VALID_TIME_INTERVALS : list string :=
  [ "1 minute"; "5 minutes"; "10 minutes"; "15 minutes"; "30 minutes";
    "1 hour"; "2 hours"; "6 hours"; "12 hours";
    "1 day"; "1 week"; "1 month" ].

(** *** GET /api/transactions *)

Definition list_chains : list Chain :=
  [ query "limit" |> optional |> isInt (Some 1) (Some 100) |> toInt;
    query "offset" |> optional |> isInt (Some 0) None |> toInt ].

Definition list_handler (pool : Db.Pool) (q : gmap string JS.value) : Outcome :=
  let limit := JS.parseInt (JS.or (get q "limit") (num 25)) in
  let offset := JS.parseInt (JS.or (get q "offset") (num 0)) in
  let transactionsQuery := Db.mkQuery Db.SELECT_PAGE [JS.VNum limit; JS.VNum offset] in
  let countQuery := Db.mkQuery Db.COUNT_ALL [] in
  let sent := [transactionsQuery; countQuery] in
  match both pool transactionsQuery countQuery with
  | inl error => next_error error sent
  | inr (transactionsResult, countResult) =>
      match first_total countResult with
      | inl error => next_error error sent
      | inr total =>
          let totalCount := JS.parseInt total in
          let totalPages := JS.Math_ceil (JS.div totalCount limit) in
          mkOutcome
            (mkResponse 200
               (<["X-Total-Count" := totalCount]>
                (<["X-Total-Pages" := totalPages]>
                 (<["X-Current-Page" := JS.add (JS.div offset limit) (JS.int 1)]>
                  (<["X-Per-Page" := limit]> ∅))))
               (JObj [("rows", JRows transactionsResult);
                      ("totalCount", JNumber totalCount);
                      ("pagination",
                       JObj [("limit", JNumber limit);
                             ("offset", JNumber offset);
                             ("currentPage",
                              JNumber (JS.add (JS.Math_floor (JS.div offset limit)) (JS.int 1)));
                             ("totalPages", JNumber totalPages)])]))
            sent
      end
  end.

Definition list_route : Route := mkRoute list_chains list_handler.

(** *** GET /api/transactions/range *)

Definition range_chains : list Chain :=
  [ query "start" |> isDate |> withMessage "Valid start date is required";
    query "end" |> isDate |> withMessage "Valid end date is required";
    query "limit" |> optional |> isInt (Some 1) (Some 100) |> toInt;
    query "offset" |> optional |> isInt (Some 0) None |> toInt ].

Definition range_handler (pool : Db.Pool) (q : gmap string JS.value) : Outcome :=
  let limit := JS.or (get q "limit") (num 25) in
  let offset := JS.or (get q "offset") (num 0) in
  let startDate := get q "start" in
  let endDate := get q "end" in
  if JS.lt (Date endDate) (Date startDate) then
    mkOutcome
      (json 400 (JObj [("error", JString "Invalid date range");
                       ("message", JString "End date cannot be before start date")]))
      []
  else
    let transactionsQuery :=
      Db.mkQuery Db.SELECT_RANGE [startDate; endDate; limit; offset] in
    let countQuery := Db.mkQuery Db.COUNT_RANGE [startDate; endDate] in
    let sent := [transactionsQuery; countQuery] in
    match both pool transactionsQuery countQuery with
    | inl error => next_error error sent
    | inr (transactionsResult, countResult) =>
        match first_total countResult with
        | inl error => next_error error sent
        | inr total =>
            let totalCount := JS.parseInt total in
            let totalPages := JS.Math_ceil (JS.div totalCount (JS.to_number limit)) in
            let currentPage :=
              JS.add (JS.Math_floor (JS.div (JS.to_number offset) (JS.to_number limit)))
                     (JS.int 1) in
            mkOutcome
              (mkResponse 200
                 (<["X-Total-Count" := totalCount]>
                  (<["X-Total-Pages" := totalPages]>
                   (<["X-Current-Page" := currentPage]> ∅)))
                 (JObj [("rows", JRows transactionsResult);
                        ("totalCount", JNumber totalCount);
                        ("pagination",
                         JObj [("limit", JVal limit);
                               ("offset", JVal offset);
                               ("currentPage", JNumber currentPage);
                               ("totalPages", JNumber totalPages)])]))
              sent
        end
    end.

Definition range_route : Route := mkRoute range_chains range_handler.

(** *** GET /api/transactions/by-time *)

Definition by_time_chains : list Chain :=
  [ query "interval"
      |> isIn VALID_TIME_INTERVALS
      |> withMessage ("Interval must be one of: " +:+ String.concat ", " VALID_TIME_INTERVALS);
    query "limit" |> optional |> isInt (Some 1) (Some 100) |> toInt ].

Definition by_time_handler (pool : Db.Pool) (q : gmap string JS.value) : Outcome :=
  let interval := get q "interval" in
  let limit := JS.or (get q "limit") (num 30) in
  let query := Db.mkQuery Db.SELECT_BUCKETS [interval; limit] in
  match Db.pool_query pool query with
  | Db.Failed error => next_error (Db.thrown error) [query]
  | Db.Rows rows => mkOutcome (json 200 (JRows rows)) [query]
  end.

Definition by_time_route : Route := mkRoute by_time_chains by_time_handler.

(** *** GET /api/transactions/search *)

Definition search_chains : list Chain :=
  [ query "term" |> isString |> isLength 3
      |> withMessage "Search term must be at least 3 characters";
    query "limit" |> optional |> isInt (Some 1) (Some 100) |> toInt ].

Definition search_handler (pool : Db.Pool) (q : gmap string JS.value) : Outcome :=
  let searchTerm := get q "term" in
  let limit := JS.or (get q "limit") (num 25) in
  let pattern := JS.VStr ("%" +:+ JS.to_string searchTerm +:+ "%") in
  let transactionsQuery := Db.mkQuery Db.SELECT_SEARCH [pattern; limit] in
  let countQuery := Db.mkQuery Db.COUNT_SEARCH [pattern] in
  let sent := [transactionsQuery; countQuery] in
  match both pool transactionsQuery countQuery with
  | inl error => next_error error sent
  | inr (transactionsResult, countResult) =>
      match first_total countResult with
      | inl error => next_error error sent
      | inr total =>
          mkOutcome
            (json 200 (JObj [("rows", JRows transactionsResult);
                             ("totalCount", JNumber (JS.parseInt total))]))
            sent
      end
  end.

Definition search_route : Route := mkRoute search_chains search_handler.

(** A request through a route: the chains, [validateRequest], the handler. *)
Definition serve (r : Route) (pool : Db.Pool) (raw : gmap string string) : Outcome :=
  let '(errors, q) := run_chains (chains r) (JS.VStr <$> raw) in
  validateRequest errors (handler r pool q).

End Router.

(** *** GET /api/transaction/:hash *)

Definition transaction_by_hash (pool : Db.Pool) (hash : string) : Outcome :=
  let query := Db.mkQuery Db.SELECT_BY_HASH [JS.VStr hash] in
  match Db.pool_query pool query with
  | Db.Rows [] =>
      mkOutcome (json 404 (JObj [("error", JString "Transaction not found")])) [query]
  | Db.Rows (row :: _) => mkOutcome (json 200 (JRow row)) [query]
  | Db.Failed error =>
      mkOutcome
        (json 500 (JObj [("error", JString "Transaction lookup error");
                         ("message", JString (JS.message (Db.thrown error)))]))
        [query]
  end.

End Server.

(** ** The client: class TransactionService *)

Module Client.

Import Http.

(** What [fetch] resolves with.  [payload] is what [response.json()] gives,
    [None] when the body is not JSON. *)
Record FetchResponse : Type := mkFetchResponse {
  code : Z;
  content_type : option string;
  payload : option Json
}.

(** [response.ok] *)
Definition ok (r : FetchResponse) : bool := (200 <=? code r) && (code r <=? 299).

(** The network: what [fetch(url)] does, a rejection or a response. *)
Definition Net : Type := string -> JS.Error + FetchResponse.

(** What a method call comes to: the value its promise resolves with or the
    error it rejects with, and the URLs it fetched. *)
Record Call : Type := mkCall {
  settled : JS.Error + Json;
  fetched : list string
}.

(** *** encodeURIComponent *)

Definition unreserved (c : ascii) : bool :=
  let n := N_of_ascii c in
  (((48 <=? n) && (n <=? 57)) || ((65 <=? n) && (n <=? 90)) || ((97 <=? n) && (n <=? 122)))%N
  || bool_decide (c ∈ ["-"; "_"; "."; "!"; "~"; "*"; "'"; "("; ")"]%char).

Definition hex_digit (n : N) : ascii :=
  if (n <? 10)%N then ascii_of_N (48 + n) else ascii_of_N (55 + n).

Fixpoint encodeURIComponent (s : string) : string :=
  match s with
  | EmptyString => EmptyString
  | String c r =>
      if unreserved c then String c (encodeURIComponent r)
      else
        let n := N_of_ascii c in
        String "%" (String (hex_digit (n / 16)) (String (hex_digit (n mod 16))
          (encodeURIComponent r)))
  end.

(** *** Values of a JSON body in conditions and messages *)

Definition truthy (j : Json) : bool :=
  match j with
  | JVal v => JS.truthy v
  | _ => true
  end.

Definition object_text : string := "[object Object]".

(** [String(j)], which is what [new Error(j)] keeps as its message. *)
Definition text_of (j : Json) : string :=
  match j with
  | JVal v => JS.to_string v
  | JRows rows => String.concat "," ((fun _ => object_text) <$> rows)
  | JDetails errors => String.concat "," ((fun _ => object_text) <$> errors)
  | JRow _ | JObj _ => object_text
  end.

(** [new Error(j)] *)
Definition Error (j : Json) : JS.Error := JS.mkError (text_of j) None None.

(** [obj.name]; a name the object lacks reads as [undefined]. *)
Definition prop (name : string) (j : Json) : Json :=
  default (JVal JS.VUndefined) (field name j).

(** [a || b] *)
Definition or (a b : Json) : Json := if truthy a then a else b.

(** *** The methods *)

Definition api_error (response : FetchResponse) : Json :=
  JString ("API error: " +:+ pretty (code response)).

Definition handleErrorResponse (response : FetchResponse) : Json :=
  match content_type response with
  | Some contentType =>
      if negb (String.eqb contentType EmptyString)
         && JS.includes "application/json" contentType
      then
        match payload response with
        | Some errorData =>
            or (prop "message" errorData) (or (prop "error" errorData) (api_error response))
        | None => api_error response
        end
      else api_error response
  | None => api_error response
  end.

(** [this.name(response)]: the class has one method that takes a response;
    calling a name it does not define throws. *)
Definition this_call (name : string) (response : FetchResponse) : JS.Error + Json :=
  if String.eqb name "handleErrorResponse" then inr (handleErrorResponse response)
  else inl (JS.TypeError ("this." +:+ name +:+ " is not a function")).

(** [fetch(url)], then [if (!response.ok) throw new Error(await this.helper(response))],
    then [return await response.json()]; the [catch] logs and rethrows. *)
Definition request (net : Net) (helper url : string) : Call :=
  match net url with
  | inl error => mkCall (inl error) [url]
  | inr response =>
      if negb (ok response) then
        match this_call helper response with
        | inl error => mkCall (inl error) [url]
        | inr message => mkCall (inl (Error message)) [url]
        end
      else
        match payload response with
        | Some data => mkCall (inr data) [url]
        | None => mkCall (inl (JS.mkError "Unexpected token in JSON" None None)) [url]
        end
  end.

(** A parameter with a default value. *)
Definition arg (v : JS.value) (d : Z) : JS.value :=
  match v with
  | JS.VUndefined => Server.num d
  | other => other
  end.

Definition getTransactions (net : Net) (limit offset : JS.value) : Call :=
  let limit := arg limit 25 in
  let offset := arg offset 0 in
  request net "handleResponseError"
    ("/api/transactions?limit=" +:+ JS.to_string limit
     +:+ "&offset=" +:+ JS.to_string offset).

Definition getTransactionsByDateRange (net : Net) (startDate endDate limit offset : JS.value)
  : Call :=
  let limit := arg limit 25 in
  let offset := arg offset 0 in
  request net "handleResponseError"
    ("/api/transactions-range?start=" +:+ encodeURIComponent (JS.to_string startDate)
     +:+ "&end=" +:+ encodeURIComponent (JS.to_string endDate)
     +:+ "&limit=" +:+ JS.to_string limit
     +:+ "&offset=" +:+ JS.to_string offset).

Definition searchTransactions (net : Net) (term limit offset : JS.value) : Call :=
  let limit := arg limit 25 in
  let offset := arg offset 0 in
  request net "handleErrorResponse"
    ("/api/transactions/search?term=" +:+ encodeURIComponent (JS.to_string term)
     +:+ "&limit=" +:+ JS.to_string limit).

Definition getTransactionsByTime (net : Net) (interval limit : JS.value) : Call :=
  let interval :=
    match interval with
    | JS.VUndefined => JS.VStr "1 day"
    | other => other
    end in
  let limit := arg limit 50 in
  request net "handleErrorResponse"
    ("/api/transactions/by-time?interval=" +:+ encodeURIComponent (JS.to_string interval)
     +:+ "&limit=" +:+ JS.to_string limit).

End Client.

(** ** Vocabulary of the properties *)

Module Terms.

(** *** Parameters of a request *)

(** The request gives the parameter [name] the integer [n]: it carries a
    signed decimal integer under that name, or nothing and [n] is the
    default of the route. *)
Definition reads_int (raw : gmap string string) (name : string) (dflt n : Z) : Prop :=
  match raw !! name with
  | Some s => Validator.int_regex s = true /\ Validator.int_value s = n
  | None => n = dflt
  end.

Definition within (min max : option Z) (n : Z) : Prop :=
  (forall lo, min = Some lo -> lo <= n) /\ (forall hi, max = Some hi -> n <= hi).

(** The request names the day [d] under [name]. *)
Definition reads_date (raw : gmap string string) (name : string) (d : Calendar.Date) : Prop :=
  match raw !! name with
  | Some s => Calendar.read s = Some d /\ Calendar.valid d = true
  | None => False
  end.

(** *** Validation *)

(** The routes guarded by [validateRequest]. *)
Definition validated_routes : list Server.Route :=
  [Server.Router.list_route; Server.Router.range_route;
   Server.Router.by_time_route; Server.Router.search_route].

(** The parameter a chain is about fails validation on a request: the
    chain, run on the request, reports at least one error. *)
Definition fails (c : Express.Chain) (raw : gmap string string) : Prop :=
  (Express.run_chain c (JS.VStr <$> raw)).1 <> [].

(** The body [validateRequest] sends. *)
Definition validation_failed (details : list Http.ValidationError) : Http.Json :=
  Http.JObj [("error", Http.JString "Validation failed"); ("details", Http.JDetails details)].

(** The chain of the by-time route for [interval]. *)
Definition interval_chain : Express.Chain :=
  Express.withMessage
    ("Interval must be one of: " +:+ String.concat ", " Server.Router.VALID_TIME_INTERVALS)
    (Express.isIn Server.Router.VALID_TIME_INTERVALS (Express.query "interval")).

(** The message of that chain, written out. *)
Definition interval_message : string :=
  "Interval must be one of: 1 minute, 5 minutes, 10 minutes, 15 minutes, 30 minutes, 1 hour, 2 hours, 6 hours, 12 hours, 1 day, 1 week, 1 month".

(** The chain of the search route for [term]. *)
Definition term_chain : Express.Chain :=
  Express.withMessage "Search term must be at least 3 characters"
    (Express.isLength 3 (Express.isString (Express.query "term"))).

(** *** Rows and their order *)

(** [a] is listed before [b] only if it is not older. *)
Definition newest_first (a b : Db.Transaction) : Prop := Db.time b <= Db.time a.

(** The page of the table a request for [limit] rows from [offset] gets. *)
Definition page (limit offset : Z) (l : list Db.Transaction) : list Db.Row :=
  Db.TxRow <$> take (Z.to_nat limit) (drop (Z.to_nat offset) (Db.order_by_time_desc l)).



(** The transactions of the table whose time lies between 00:00:00 of the
    day [ds] and 23:59:59 of the day [de], both included. *)
Definition in_days (ds de : Calendar.Date) (l : list Db.Transaction) : list Db.Transaction :=
  filter (fun t => Db.in_range (Calendar.MakeDay ds) (Calendar.MakeDay de) t) l.

(** The rows a search for [term] gets: the newest [limit] of the
    transactions whose hash the pattern [%term%] matches. *)
Definition search_page (term : string) (limit : Z) (l : list Db.Transaction) : list Db.Row :=
  Db.TxRow <$> take (Z.to_nat limit)
    (Db.order_by_time_desc
       (filter (fun t => Db.ilike ("%" +:+ term +:+ "%") (Db.hash t)) l)).

(** A character that stands for itself in a LIKE pattern. *)
Definition plain (c : ascii) : bool :=
  negb (Ascii.eqb c "%") && negb (Ascii.eqb c "_") && negb (Ascii.eqb c "\").

Fixpoint all_plain (s : string) : bool :=
  match s with
  | String c r => plain c && all_plain r
  | EmptyString => true
  end.

(** *** Bodies *)

(** The envelope [{ rows, totalCount, pagination: { limit, offset,
    currentPage, totalPages } }]. *)
Definition has_envelope (j : Http.Json) : Prop :=
  Http.keys j = ["rows"; "totalCount"; "pagination"]
  /\ (exists rows, Http.field "rows" j = Some (Http.JRows rows))
  /\ (exists n, Http.field "totalCount" j = Some (Http.JVal n))
  /\ exists p, Http.field "pagination" j = Some p
               /\ Http.keys p = ["limit"; "offset"; "currentPage"; "totalPages"].

(** The body [{ rows, totalCount }]. *)
Definition has_rows_and_count (j : Http.Json) : Prop :=
  Http.keys j = ["rows"; "totalCount"]
  /\ (exists rows, Http.field "rows" j = Some (Http.JRows rows))
  /\ (exists n, Http.field "totalCount" j = Some (Http.JVal n)).

(** The body of the 404 of the point lookup. *)
Definition not_found : Http.Json :=
  Http.JObj [("error", Http.JString "Transaction not found")].

(** *** The calendar *)

Definition leap_days (y : Z) : Z := if Calendar.InLeapYear y then 1 else 0.

End Terms.

Import Terms.

(** ** Sample data *)

Module Sample.

Definition tx (h : string) (t : Z) : Db.Transaction :=
  Db.mkTransaction h 840000 t (5 # 2) 150000 (1 # 10000) 250.

(** 1970-01-01 00:00:01, 1970-01-01 12:00:00, 1970-01-02 23:59:59,
    1970-01-03 00:00:00 and 1970-01-05 00:00:00. *)
Definition t1 : Db.Transaction := tx "00abc1f4" 1000000.
Definition t2 : Db.Transaction := tx "7a_c09e2" 43200000000.
Definition t3 : Db.Transaction := tx "ffABCD10" 172799000000.
Definition t4 : Db.Transaction := tx "deadbeef" 172800000000.
Definition t5 : Db.Transaction := tx "0badcafe" 345600000000.

Definition table : list Db.Transaction := [t3; t1; t5; t2; t4].

Definition store : Db.Pool := Db.mkPool table (fun _ => []) None.

Definition request (l : list (string * string)) : gmap string string := list_to_map l.

(** A server that answers every request with status 500 and the JSON body
    [{ message: "boom" }]. *)
Definition failing_net : Client.Net :=
  fun _ =>
    inr (Client.mkFetchResponse 500 (Some "application/json; charset=utf-8")
           (Some (Http.JObj [("message", Http.JString "boom");
                             ("code", Http.JString "unknown error")]))).

End Sample.

(** ** The flat routes of the first server

    GET /api/transactions, /api/transactions-range and
    /api/search-transactions read [req.query] as it comes, with no
    validation chain in front, and answer their own errors. *)

Module Legacy.

Import Http.

(** *** parseInt without a radix *)

Definition hex_value (c : ascii) : option Z :=
  let n := Z.of_N (N_of_ascii c) in
  if (48 <=? n) && (n <=? 57) then Some (n - 48)
  else if (97 <=? n) && (n <=? 102) then Some (n - 87)
  else if (65 <=? n) && (n <=? 70) then Some (n - 55)
  else None.

(** The value of the longest prefix of hexadecimal digits. *)
Fixpoint hex_prefix (acc : option Z) (s : string) : option Z :=
  match s with
  | String c r =>
      match hex_value c with
      | Some d => hex_prefix (Some (16 * default 0 acc + d)) r
      | None => acc
      end
  | EmptyString => acc
  end.

(** What follows a leading [0x] or [0X]. *)
Definition strip_hex (s : string) : option string :=
  match s with
  | String z (String x r) =>
      if Ascii.eqb z "0" && (Ascii.eqb x "x" || Ascii.eqb x "X") then Some r else None
  | _ => None
  end.

(** [parseInt(s)] on a string, exact as [JS.parseInt_string] is: white
    space, a sign, then hexadecimal digits
    after [0x] and decimal digits otherwise, as far as they go. *)
Definition parseInt_string (s : string) : JS.number :=
  let '(neg, body) := JS.split_sign (JS.skip_white s) in
  match strip_hex body with
  | Some digits =>
      match hex_prefix None digits with
      | Some v => JS.int (JS.signed neg v)
      | None => JS.NaN
      end
  | None =>
      match JS.digits_prefix None body with
      | Some v => JS.int (JS.signed neg v)
      | None => JS.NaN
      end
  end.

(** [parseInt(v)] *)
Definition parseInt (v : JS.value) : JS.number :=
  match v with
  | JS.VStr s => parseInt_string s
  | other => JS.parseInt other
  end.

(** *** The handlers *)

(** [res.status(500).json({ error: label, message: error.message })] *)
Definition failure (label : string) (error : JS.Error) : Response :=
  json 500 (JObj [("error", JString label); ("message", JString (JS.message error))]).

(** [req.query] of a request that no chain has touched. *)
Definition query_of (raw : gmap string string) : gmap string JS.value := JS.VStr <$> raw.

(** GET /api/transactions *)
Definition transactions (pool : Db.Pool) (raw : gmap string string) : Outcome :=
  let q := query_of raw in
  let limit := parseInt (JS.or (Express.get q "limit") (Server.num 25)) in
  let offset := parseInt (JS.or (Express.get q "offset") (Server.num 0)) in
  let transactionsQuery := Db.mkQuery Db.SELECT_PAGE [JS.VNum limit; JS.VNum offset] in
  let countQuery := Db.mkQuery Db.COUNT_ALL [] in
  let sent := [transactionsQuery; countQuery] in
  match Server.both pool transactionsQuery countQuery with
  | inl error => mkOutcome (failure "Error fetching from the database" error) sent
  | inr (transactionsResult, countResult) =>
      match Server.first_total countResult with
      | inl error => mkOutcome (failure "Error fetching from the database" error) sent
      | inr total =>
          mkOutcome
            (json 200 (JObj [("rows", JRows transactionsResult);
                             ("totalCount", JNumber (parseInt total))]))
            sent
      end
  end.

(** GET /api/search-transactions *)
Definition search_transactions (pool : Db.Pool) (raw : gmap string string) : Outcome :=
  let q := query_of raw in
  let limit := parseInt (JS.or (Express.get q "limit") (Server.num 25)) in
  let searchTerm := Express.get q "term" in
  if negb (JS.truthy searchTerm) then
    mkOutcome
      (json 400 (JObj [("error", JString "Missing required parameter");
                       ("message", JString "Search term is required")]))
      []
  else
    let pattern := JS.VStr ("%" +:+ JS.to_string searchTerm +:+ "%") in
    let transactionsQuery := Db.mkQuery Db.SELECT_SEARCH [pattern; JS.VNum limit] in
    let countQuery := Db.mkQuery Db.COUNT_SEARCH [pattern] in
    let sent := [transactionsQuery; countQuery] in
    match Server.both pool transactionsQuery countQuery with
    | inl error => mkOutcome (failure "Error searching transactions" error) sent
    | inr (transactionsResult, countResult) =>
        match Server.first_total countResult with
        | inl error => mkOutcome (failure "Error searching transactions" error) sent
        | inr total =>
            mkOutcome
              (json 200 (JObj [("rows", JRows transactionsResult);
                               ("totalCount", JNumber (parseInt total))]))
              sent
        end
    end.

(** *** The range route and its two SQL texts *)

Inductive SqlText : Type :=
| SELECT_BETWEEN
  (* SELECT * FROM transactions
     WHERE time BETWEEN $1 AND ($2 || ' 23:59:59')::timestamp
     ORDER BY time DESC LIMIT $3 OFFSET $4 *)
| COUNT_BETWEEN
  (* SELECT COUNT( * ) as total FROM transactions
     WHERE time BETWEEN $1 AND ($2 || ' 23:59:59')::timestamp *).

Record Query : Type := mkQuery { text : SqlText; values : list JS.value }.

(** The two parameters are read as days in the form YYYY-MM-DD, which is
    what the date inputs of the page send: [$1] stands for the first instant
    of its day, [$2 || ' 23:59:59'] for the last second of its day. *)
Definition run (p : Db.Pool) (q : Query) : Db.Result :=
  match text q, values q with
  | SELECT_BETWEEN, [start; end_; limit; offset] =>
      match Db.as_date start, Db.as_date end_, Db.as_count limit, Db.as_count offset with
      | Some lo, Some hi, Some l, Some o =>
          Db.Rows (Db.TxRow <$> take l (drop o
                     (Db.order_by_time_desc
                        (filter (fun t => Db.in_range lo hi t) (Db.table p)))))
      | _, _, _, _ => Db.Failed Db.bad_parameter
      end
  | COUNT_BETWEEN, [start; end_] =>
      match Db.as_date start, Db.as_date end_ with
      | Some lo, Some hi =>
          Db.Rows (Db.total_of (length (filter (fun t => Db.in_range lo hi t) (Db.table p))))
      | _, _ => Db.Failed Db.bad_parameter
      end
  | _, _ => Db.Failed (Db.mkDatabaseError "wrong number of parameters" "08P01")
  end.

Definition pool_query (p : Db.Pool) (q : Query) : Db.Result :=
  match Db.outage p with
  | Some e => Db.Failed e
  | None => run p q
  end.

(** [await Promise.all([pool.query(a), pool.query(b)])] *)
Definition both (pool : Db.Pool) (a b : Query)
  : JS.Error + (list Db.Row * list Db.Row) :=
  match pool_query pool a, pool_query pool b with
  | Db.Rows ra, Db.Rows rb => inr (ra, rb)
  | Db.Failed e, _ => inl (Db.thrown e)
  | _, Db.Failed e => inl (Db.thrown e)
  end.

Record RangeOutcome : Type := mkRangeOutcome {
  answer : Response;
  sent : list Query
}.

(** GET /api/transactions-range *)
Definition transactions_range (pool : Db.Pool) (raw : gmap string string) : RangeOutcome :=
  let q := query_of raw in
  let limit := parseInt (JS.or (Express.get q "limit") (Server.num 25)) in
  let offset := parseInt (JS.or (Express.get q "offset") (Server.num 0)) in
  let startDate := Express.get q "start" in
  let endDate := Express.get q "end" in
  if negb (JS.truthy startDate) || negb (JS.truthy endDate) then
    mkRangeOutcome
      (json 400 (JObj [("error", JString "Missing required parameters");
                       ("message", JString "Both start and end dates are required")]))
      []
  else
    let transactionsQuery :=
      mkQuery SELECT_BETWEEN [startDate; endDate; JS.VNum limit; JS.VNum offset] in
    let countQuery := mkQuery COUNT_BETWEEN [startDate; endDate] in
    let issued := [transactionsQuery; countQuery] in
    match both pool transactionsQuery countQuery with
    | inl error =>
        mkRangeOutcome (failure "Error fetching date range transactions" error) issued
    | inr (transactionsResult, countResult) =>
        match Server.first_total countResult with
        | inl error =>
            mkRangeOutcome (failure "Error fetching date range transactions" error) issued
        | inr total =>
            mkRangeOutcome
              (json 200 (JObj [("rows", JRows transactionsResult);
                               ("totalCount", JNumber (parseInt total))]))
              issued
        end
    end.

End Legacy.

(** ** The page: the component that lists transactions

    The state of the component is its variables; an event handler is a
    function from the state to the next state and the URLs it fetched.  A
    handler is run to its end before the next starts.  The clock is an
    input: [fetchTimeSeriesData] takes from it the two dates it computes
    from [new Date()]. *)

Module Page.

Import Http.

Record State : Type := mkState {
  transactions : Json;
  totalCount : Json;
  isLoading : bool;
  error : option string;
  timeSeriesData : Json;
  timeSeriesLoading : bool;
  timeSeriesError : option string;
  viewMode : string;
  currentPage : Z;
  pageSize : JS.number;
  searchTerm : string;
  startTime : string;
  endTime : string;
  timeInterval : string;
  selectedTimeRange : string
}.

Definition initial : State :=
  mkState (JRows []) (JNumber (JS.int 0)) true None
          (JRows []) false None
          "table" 0 (JS.int 25) EmptyString EmptyString EmptyString "1 day" "7d".

(** Assignments to groups of variables. *)
Definition set_list (st : State) (rows count : Json) (loading : bool) (err : option string)
  : State :=
  mkState rows count loading err
          (timeSeriesData st) (timeSeriesLoading st) (timeSeriesError st)
          (viewMode st) (currentPage st) (pageSize st) (searchTerm st)
          (startTime st) (endTime st) (timeInterval st) (selectedTimeRange st).

Definition set_series (st : State) (data : Json) (loading : bool) (err : option string)
  : State :=
  mkState (transactions st) (totalCount st) (isLoading st) (error st)
          data loading err
          (viewMode st) (currentPage st) (pageSize st) (searchTerm st)
          (startTime st) (endTime st) (timeInterval st) (selectedTimeRange st).

Definition set_paging (st : State) (page : Z) (size : JS.number) : State :=
  mkState (transactions st) (totalCount st) (isLoading st) (error st)
          (timeSeriesData st) (timeSeriesLoading st) (timeSeriesError st)
          (viewMode st) page size (searchTerm st)
          (startTime st) (endTime st) (timeInterval st) (selectedTimeRange st).

Definition set_filters (st : State) (mode term start end_ interval range : string) : State :=
  mkState (transactions st) (totalCount st) (isLoading st) (error st)
          (timeSeriesData st) (timeSeriesLoading st) (timeSeriesError st)
          mode (currentPage st) (pageSize st) term start end_ interval range.

(** [k * n] for an integer [k]. *)
Definition times (k : Z) (n : JS.number) : JS.number :=
  match n with
  | JS.Fin q => JS.Fin (inject_Z k * q)
  | JS.NaN => JS.NaN
  | JS.PosInf => if k =? 0 then JS.NaN else if 0 <? k then JS.PosInf else JS.NegInf
  | JS.NegInf => if k =? 0 then JS.NaN else if 0 <? k then JS.NegInf else JS.PosInf
  end.

Definition nonempty (s : string) : bool := negb (String.eqb s EmptyString).

(** The call [fetchTransactions] makes: a search when there is a term, else
    a date range when both dates are set, else the plain list. *)
Definition list_call (net : Client.Net) (st : State) : Client.Call :=
  let offset := times (currentPage st) (pageSize st) in
  if nonempty (searchTerm st) then
    Client.searchTransactions net (JS.VStr (searchTerm st))
      (JS.VNum (pageSize st)) (JS.VNum offset)
  else if nonempty (startTime st) && nonempty (endTime st) then
    Client.getTransactionsByDateRange net (JS.VStr (startTime st)) (JS.VStr (endTime st))
      (JS.VNum (pageSize st)) (JS.VNum offset)
  else
    Client.getTransactions net (JS.VNum (pageSize st)) (JS.VNum offset).

Definition fetchTransactions (net : Client.Net) (st : State) : State * list string :=
  let call := list_call net st in
  match Client.settled call with
  | inr (JVal JS.VUndefined) =>
      (set_list st (JRows []) (totalCount st) false
         (Some "Cannot read properties of undefined (reading 'rows')"),
       Client.fetched call)
  | inr data =>
      (set_list st
         (Client.or (Client.prop "rows" data) (JRows []))
         (Client.or (Client.prop "totalCount" data) (JNumber (JS.int 0)))
         false None,
       Client.fetched call)
  | inl err =>
      (set_list st (JRows []) (totalCount st) false (Some (JS.message err)),
       Client.fetched call)
  end.

(** The [switch] of [fetchTimeSeriesData]. *)
Definition interval_for (range : string) : string :=
  if String.eqb range "1h" then "5 minutes"
  else if String.eqb range "24h" then "1 hour"
  else if String.eqb range "7d" then "1 day"
  else if String.eqb range "30d" then "1 day"
  else if String.eqb range "90d" then "1 week"
  else "1 day".

(** What the clock gives for a range: [startIso.substring(0, 10)] and
    [endIso.substring(0, 10)]. *)
Definition Clock : Type := string -> string * string.

Definition fetchTimeSeriesData (net : Client.Net) (clock : Clock) (st : State)
  : State * list string :=
  let interval := interval_for (selectedTimeRange st) in
  let '(start, end_) := clock (selectedTimeRange st) in
  let st := set_filters st (viewMode st) (searchTerm st) start end_ interval
              (selectedTimeRange st) in
  let call := Client.getTransactionsByTime net (JS.VStr interval) (Server.num 50) in
  match Client.settled call with
  | inr data => (set_series st data false None, Client.fetched call)
  | inl err => (set_series st (JRows []) false (Some (JS.message err)), Client.fetched call)
  end.

(** [timeSeriesData.length === 0].  No row has a column of that name.  On
    [undefined] the read throws and the handler ends there, with nothing
    fetched, as it does when the test is false. *)
Definition has_length_0 (j : Json) : bool :=
  match j with
  | JRows [] | JDetails [] => true
  | JVal (JS.VStr s) => String.eqb s EmptyString
  | JObj _ =>
      match Client.prop "length" j with
      | JVal (JS.VNum n) => JS.strict_eq n (JS.int 0)
      | _ => false
      end
  | _ => false
  end.

Definition goToPreviousPage (net : Client.Net) (st : State) : State * list string :=
  if 0 <? currentPage st then
    fetchTransactions net (set_paging st (currentPage st - 1) (pageSize st))
  else (st, []).

Definition goToNextPage (net : Client.Net) (st : State) : State * list string :=
  fetchTransactions net (set_paging st (currentPage st + 1) (pageSize st)).

Definition handleSearch (net : Client.Net) (st : State) : State * list string :=
  fetchTransactions net (set_paging st 0 (pageSize st)).

Definition handlePageSizeChange (net : Client.Net) (value : string) (st : State)
  : State * list string :=
  fetchTransactions net (set_paging st 0 (Legacy.parseInt_string value)).

Definition handleTimeRangeSubmit (net : Client.Net) (st : State) : State * list string :=
  fetchTransactions net (set_paging st 0 (pageSize st)).

Definition handleTimeRangeChange (net : Client.Net) (clock : Clock) (st : State)
  : State * list string :=
  let '(st1, urls1) := fetchTimeSeriesData net clock st in
  if String.eqb (viewMode st1) "table" && nonempty (startTime st1) && nonempty (endTime st1)
  then
    let '(st2, urls2) := fetchTransactions net (set_paging st1 0 (pageSize st1)) in
    (st2, urls1 ++ urls2)
  else (st1, urls1).

Definition setViewMode (net : Client.Net) (clock : Clock) (mode : string) (st : State)
  : State * list string :=
  let st := set_filters st mode (searchTerm st) (startTime st) (endTime st)
              (timeInterval st) (selectedTimeRange st) in
  if String.eqb mode "timeSeries" && has_length_0 (timeSeriesData st)
  then fetchTimeSeriesData net clock st
  else (st, []).

(** What the user and the browser do to the component. *)
Inductive Event : Type :=
| Mount
| ClickPrevious
| ClickNext
| ClickSearch
| SubmitDates
| ChangePageSize (value : string)
| ChangeTimeRange (range : string)
| ClickView (mode : string)
| TypeSearchTerm (term : string)
| PickStartTime (date : string)
| PickEndTime (date : string).

Definition step (net : Client.Net) (clock : Clock) (ev : Event) (st : State)
  : State * list string :=
  match ev with
  | Mount => fetchTransactions net st
  | ClickPrevious => goToPreviousPage net st
  | ClickNext => goToNextPage net st
  | ClickSearch => handleSearch net st
  | SubmitDates => handleTimeRangeSubmit net st
  | ChangePageSize value => handlePageSizeChange net value st
  | ChangeTimeRange range =>
      handleTimeRangeChange net clock
        (set_filters st (viewMode st) (searchTerm st) (startTime st) (endTime st)
           (timeInterval st) range)
  | ClickView mode => setViewMode net clock mode st
  | TypeSearchTerm term =>
      (set_filters st (viewMode st) term (startTime st) (endTime st)
         (timeInterval st) (selectedTimeRange st), [])
  | PickStartTime date =>
      (set_filters st (viewMode st) (searchTerm st) date (endTime st)
         (timeInterval st) (selectedTimeRange st), [])
  | PickEndTime date =>
      (set_filters st (viewMode st) (searchTerm st) (startTime st) date
         (timeInterval st) (selectedTimeRange st), [])
  end.

(** A run of events, oldest first: the last state and every URL fetched. *)
Fixpoint run (net : Client.Net) (clock : Clock) (events : list Event) (st : State)
  : State * list string :=
  match events with
  | [] => (st, [])
  | ev :: rest =>
      let '(st1, urls1) := step net clock ev st in
      let '(st2, urls2) := run net clock rest st1 in
      (st2, urls1 ++ urls2)
  end.

(** [a >= b] on numbers: false as soon as one side is NaN. *)
Definition ge (a b : JS.number) : bool :=
  match a, b with
  | JS.NaN, _ | _, JS.NaN => false
  | _, _ => negb (JS.lt a b)
  end.

(** [disabled={currentPage === 0}] of the Previous button. *)
Definition previous_disabled (st : State) : bool := currentPage st =? 0.

(** [disabled={(currentPage + 1) * pageSize >= totalCount}] of the Next
    button, for a count that is a number; any other count is converted
    first, which is left out. *)
Definition next_disabled (st : State) : option bool :=
  match totalCount st with
  | JVal (JS.VNum n) => Some (ge (times (currentPage st + 1) (pageSize st)) n)
  | _ => None
  end.

End Page.

(** ** More vocabulary: requests as the client writes them *)

Module Notions.

(** The query of [/api/transactions?limit=${limit}&offset=${offset}] for two
    integers, each written in decimal digits. *)
Definition list_request (limit offset : Z) : gmap string string :=
  <["limit" := pretty limit]> (<["offset" := pretty offset]> ∅).

(** The rows a client collects that asks the list route for the pages
    0, 1, ..., [pages - 1] of [limit] rows, one after the other. *)
Definition walk (pool : Db.Pool) (limit : Z) (pages : nat) : list Db.Row :=
  flat_map
    (fun k => Http.rows_of
                (Server.Router.serve Server.Router.list_route pool
                   (list_request limit (Z.of_nat k * limit))))
    (seq 0 pages).

(** [a] is listed before [b] only if it is newer. *)
Definition newer_first (a b : Db.Transaction) : Prop := Db.time b < Db.time a.

(** [rows] are [limit] rows from row [offset] on of a listing of the
    transactions [l] in descending order of time; which listing, when
    several transactions have the same time, is the store's choice. *)
Definition page_of (limit offset : Z) (l : list Db.Transaction) (rows : list Db.Row) : Prop :=
  exists listing,
    listing ≡ₚ l
    /\ StronglySorted newest_first listing
    /\ rows = Db.TxRow <$> take (Z.to_nat limit) (drop (Z.to_nat offset) listing).

(** The request carries no parameter [name], or one the integer validator
    with the bounds [min] and [max] admits. *)
Definition accepts_int (raw : gmap string string) (name : string) (min max : option Z) : Prop :=
  match raw !! name with
  | Some s => Validator.int_regex s = true /\ within min max (Validator.int_value s)
  | None => True
  end.

(** The request carries no parameter [name], or one of the form YYYY-MM-DD
    that names no day of the calendar (a thirtieth of February). *)
Definition not_a_day (raw : gmap string string) (name : string) : Prop :=
  raw !! name = None
  \/ exists s d, raw !! name = Some s /\ Calendar.read s = Some d /\ Calendar.valid d = false.

(** The body the error-handling middleware sends for an error of the store. *)
Definition store_error_body (e : Db.DatabaseError) : Http.Json :=
  Http.JObj
    [("message", Http.JString (if String.eqb (Db.message e) EmptyString
                               then "Internal Server Error" else Db.message e));
     ("code", Http.JString (if String.eqb (Db.code e) EmptyString
                            then "unknown error" else Db.code e))].

(** The transactions whose hash contains [term], letter case aside. *)
Definition containing (term : string) (l : list Db.Transaction) : list Db.Transaction :=
  filter (fun t => JS.includes (Db.lower_string term) (Db.lower_string (Db.hash t))) l.

(** The URLs the two methods that call [handleErrorResponse] fetch. *)
Definition search_url (term limit : JS.value) : string :=
  "/api/transactions/search?term=" +:+ Client.encodeURIComponent (JS.to_string term)
  +:+ "&limit=" +:+ JS.to_string (Client.arg limit 25).

Definition by_time_url (interval limit : JS.value) : string :=
  "/api/transactions/by-time?interval="
  +:+ Client.encodeURIComponent
        (JS.to_string (match interval with
                       | JS.VUndefined => JS.VStr "1 day"
                       | other => other
                       end))
  +:+ "&limit=" +:+ JS.to_string (Client.arg limit 50).

(** The URL [getTransactions] fetches for two integers. *)
Definition list_url (limit offset : Z) : string :=
  "/api/transactions?limit=" +:+ pretty limit +:+ "&offset=" +:+ pretty offset.

(** The query of [/api/transactions/by-time?interval=${interval}&limit=${limit}]. *)
Definition by_time_request (interval : string) (limit : Z) : gmap string string :=
  <["interval" := interval]> (<["limit" := pretty limit]> ∅).

(** A response of the server as [fetch] hands it over: [res.json] sends
    the body as JSON. *)
Definition relayed (r : Http.Response) : Client.FetchResponse :=
  Client.mkFetchResponse (Http.status r) (Some "application/json; charset=utf-8")
    (Some (Http.body r)).

(** The first of [message] and [error] of a JSON error body that is truthy,
    else the generic message of the response. *)
Definition preferred_message (r : Client.FetchResponse) (errorData : Http.Json) : Http.Json :=
  if Client.truthy (Client.prop "message" errorData) then Client.prop "message" errorData
  else if Client.truthy (Client.prop "error" errorData) then Client.prop "error" errorData
  else Client.api_error r.

(** Every character of [s] passes the test [p]. *)
Fixpoint all_chars (p : ascii -> bool) (s : string) : bool :=
  match s with
  | String c r => p c && all_chars p r
  | EmptyString => true
  end.

End Notions.

Import Notions.

(** ** More sample data *)

Module Cases.

(** The sample table behind a store that is out of reach. *)
Definition down : Db.Pool :=
  Db.mkPool Sample.table (fun _ => [])
    (Some (Db.mkDatabaseError "connect ECONNREFUSED 127.0.0.1:5432" "ECONNREFUSED")).

(** A store whose time buckets are two days, whatever the interval. *)
Definition bucketed : Db.Pool :=
  Db.mkPool Sample.table
    (fun _ => [Db.mkBucket 172800000000 1 (5 # 2) (1 # 10000) (5 # 2) (5 # 2);
               Db.mkBucket 86400000000 1 (5 # 2) (1 # 10000) (5 # 2) (5 # 2)])
    None.

(** A gateway that answers every request with status 502 and an HTML page. *)
Definition gateway_net : Client.Net :=
  fun _ => inr (Client.mkFetchResponse 502 (Some "text/html") None).

(** A network that hands over what the list route of the sample server
    answers to a request for the first two rows. *)
Definition list_net : Client.Net :=
  fun _ =>
    inr (Notions.relayed
           (Http.response
              (Server.Router.serve Server.Router.list_route Sample.store
                 (Notions.list_request 2 0)))).

(** The component with the term abc typed in. *)
Definition searching : Page.State :=
  Page.set_filters Page.initial "table" "abc" EmptyString EmptyString "1 day" "7d".

(** The component with a page size of 2. *)
Definition two_rows : Page.State := Page.set_paging Page.initial 0 (JS.int 2).

End Cases.

(** * Properties *)

(** ** Reading integers *)

Section Integers.

Import JS Validator.

Lemma digit_not_white c d : digit_of c = Some d -> is_white c = false.
Proof.
  destruct c as [[] [] [] [] [] [] [] []]; vm_compute; congruence.
Qed.

Lemma split_sign_cases s :
  (exists r, s = String "-" r /\ split_sign s = (true, r)) \/
  (exists r, s = String "+" r /\ split_sign s = (false, r)) \/
  (split_sign s = (false, s) /\
   match s with
   | String c _ => c <> "-"%char /\ c <> "+"%char
   | EmptyString => True
   end).
Proof.
  destruct s as [|c r]; [right; right; split; [reflexivity | exact I]|].
  destruct (Ascii.eqb_spec c "-") as [->|Hm]; [left; eexists; split; reflexivity|].
  destruct (Ascii.eqb_spec c "+") as [->|Hp]; [right; left; eexists; split; reflexivity|].
  right; right. split; [|split; assumption].
  destruct c as [[] [] [] [] [] [] [] []]; try reflexivity; congruence.
Qed.

Lemma digits_value_prefix s : forall acc v,
  Calendar.digits_value acc s = Some v -> digits_prefix (Some acc) s = Some v.
Proof.
  induction s as [|c r IH]; simpl; intros acc v H; [assumption|].
  destruct (digit_of c) as [d|]; [|discriminate].
  apply IH. exact H.
Qed.

Lemma digits_value_prefix_none s v :
  s <> EmptyString ->
  Calendar.digits_value 0 s = Some v -> digits_prefix None s = Some v.
Proof.
  destruct s as [|c r]; [congruence|]. intros _. simpl.
  destruct (digit_of c) as [d|]; [|discriminate].
  apply digits_value_prefix.
Qed.

Lemma int_regex_value s :
  int_regex s = true ->
  exists v, Calendar.digits_value 0 (snd (split_sign s)) = Some v
            /\ snd (split_sign s) <> EmptyString
            /\ int_value s = signed (fst (split_sign s)) v.
Proof.
  unfold int_regex, int_value. intros H.
  apply andb_true_iff in H as [Hne Hd].
  apply bool_decide_eq_true in Hd as [v Hv].
  exists v. destruct (split_sign s) as [neg body]; simpl in *.
  rewrite Hv. split; [reflexivity|]. split; [|reflexivity].
  intros ->. discriminate.
Qed.

Lemma skip_white_digits s v :
  s <> EmptyString -> Calendar.digits_value 0 s = Some v -> skip_white s = s.
Proof.
  destruct s as [|c r]; [congruence|]. intros _. simpl.
  destruct (digit_of c) as [d|] eqn:Hd; [|discriminate].
  intros _. now rewrite (digit_not_white c d).
Qed.

(** On a string the integer pattern admits, [parseInt] reads the integer
    the string denotes. *)
Lemma parseInt_int_regex s :
  int_regex s = true -> parseInt_string s = int (int_value s).
Proof.
  intros H. destruct (int_regex_value s H) as (v & Hv & Hne & Hval).
  rewrite Hval. unfold parseInt_string.
  destruct (split_sign_cases s) as [(r & -> & Hs) | [(r & -> & Hs) | (Hs & _)]].
  - rewrite Hs in *. simpl in Hv, Hne.
    change (skip_white (String "-" r)) with (String "-" r). rewrite Hs.
    now rewrite (digits_value_prefix_none r v Hne Hv).
  - rewrite Hs in *. simpl in Hv, Hne.
    change (skip_white (String "+" r)) with (String "+" r). rewrite Hs.
    now rewrite (digits_value_prefix_none r v Hne Hv).
  - rewrite Hs in *. simpl in Hv, Hne.
    rewrite (skip_white_digits s v Hne Hv), Hs.
    now rewrite (digits_value_prefix_none s v Hne Hv).
Qed.

Lemma isInt_spec min max s :
  isInt min max s = true <->
  int_regex s = true
  /\ (forall lo, min = Some lo -> lo <= int_value s)
  /\ (forall hi, max = Some hi -> int_value s <= hi).
Proof.
  unfold isInt, bound_ok. rewrite !andb_true_iff. split.
  - intros [[Hr Hlo] Hhi]. split; [assumption|]. split.
    + intros lo ->. lia.
    + intros hi ->. lia.
  - intros (Hr & Hlo & Hhi). repeat split; [assumption | |].
    + destruct min as [lo|]; [|reflexivity]. specialize (Hlo lo eq_refl). lia.
    + destruct max as [hi|]; [|reflexivity]. specialize (Hhi hi eq_refl). lia.
Qed.

Lemma digit_of_pretty_char d :
  (d < 10)%N -> JS.digit_of (pretty_N_char d) = Some (Z.of_N d).
Proof.
  intros H.
  assert (d = 0 \/ d = 1 \/ d = 2 \/ d = 3 \/ d = 4 \/ d = 5 \/ d = 6 \/ d = 7 \/ d = 8 \/ d = 9)%N
    as C by lia.
  repeat (destruct C as [->|C]; [reflexivity|]). now subst.
Qed.

Lemma digits_pretty_N_go x : forall s,
  exists m, forall acc,
    Calendar.digits_value acc (pretty_N_go x s) = Calendar.digits_value (acc * m + Z.of_N x) s.
Proof.
  induction (N.lt_wf_0 x) as [x _ IH]; intros s.
  destruct (N.eq_dec x 0%N) as [->|Hx].
  - exists 1. intros acc. rewrite pretty_N_go_0. f_equal. lia.
  - rewrite pretty_N_go_step by lia.
    destruct (IH (x / 10)%N ltac:(apply N.div_lt; lia)
                (String (pretty_N_char (x mod 10)) s)) as [m Hm].
    exists (m * 10). intros acc. rewrite Hm. simpl.
    rewrite digit_of_pretty_char by (apply N.mod_lt; lia).
    f_equal. rewrite N2Z.inj_div, N2Z.inj_mod.
    pose proof (Z.div_mod (Z.of_N x) 10 ltac:(lia)). lia.
Qed.

Lemma pretty_N_go_nonempty x : forall s, s <> EmptyString -> pretty_N_go x s <> EmptyString.
Proof.
  induction (N.lt_wf_0 x) as [x _ IH]; intros s Hs.
  destruct (N.eq_dec x 0%N) as [->|Hx]; [now rewrite pretty_N_go_0|].
  rewrite pretty_N_go_step by lia. apply IH; [apply N.div_lt; lia | discriminate].
Qed.

(** The decimal text of a natural number reads back as that number. *)
Lemma digits_pretty n :
  0 <= n -> pretty n <> EmptyString /\ Calendar.digits_value 0 (pretty n) = Some n.
Proof.
  intros Hn. destruct n as [|p|p]; [split; [discriminate | reflexivity] | | lia].
  unfold pretty, pretty_Z, pretty, pretty_positive, pretty, pretty_N.
  destruct (decide (N.pos p = 0%N)) as [E|_]; [discriminate|].
  split.
  - rewrite pretty_N_go_step by lia. apply pretty_N_go_nonempty. discriminate.
  - destruct (digits_pretty_N_go (N.pos p) EmptyString) as [m Hm]. rewrite Hm. reflexivity.
Qed.

(** [parseInt] of the decimal text of a count is the count. *)
Lemma parseInt_pretty n : 0 <= n -> parseInt (VStr (pretty n)) = int n.
Proof.
  intros Hn. destruct (digits_pretty n Hn) as [Hne Hd].
  unfold parseInt, parseInt_string.
  rewrite (skip_white_digits _ _ Hne Hd).
  destruct (split_sign_cases (pretty n)) as [(r & E & _) | [(r & E & _) | (Hs & _)]].
  - rewrite E in Hd. discriminate.
  - rewrite E in Hd. discriminate.
  - rewrite Hs. now rewrite (digits_value_prefix_none _ _ Hne Hd).
Qed.

(** Every integer from 0 on is the value of a parameter of some request:
    the one that carries its decimal digits. *)
Lemma reads_int_pretty (raw : gmap string string) name dflt n :
  0 <= n -> raw !! name = Some (pretty n) -> reads_int raw name dflt n.
Proof.
  intros Hn E. unfold reads_int. rewrite E.
  destruct (digits_pretty n Hn) as [Hne Hd].
  unfold int_regex, int_value.
  destruct (split_sign_cases (pretty n)) as [(r & Er & _) | [(r & Er & _) | (Hs & _)]].
  - rewrite Er in Hd. discriminate.
  - rewrite Er in Hd. discriminate.
  - rewrite Hs. simpl. rewrite Hd. split; [|reflexivity].
    apply andb_true_iff. split.
    + destruct (pretty n); [congruence | reflexivity].
    + apply bool_decide_eq_true. eauto.
Qed.

End Integers.

(** ** Arithmetic of numbers that are integers *)

Section Numbers.

Import JS.

Lemma add_int a b : add (int a) (int b) = int (a + b).
Proof.
  unfold add, int, inject_Z, Qplus. simpl. f_equal. f_equal. lia.
Qed.

Lemma div_int a b : b <> 0 -> div (int a) (int b) = Fin (inject_Z a / inject_Z b).
Proof.
  intros Hb. unfold div, int.
  destruct (Qeq_bool (inject_Z b) 0) eqn:E; [|reflexivity].
  apply Qeq_bool_eq in E. unfold Qeq in E. simpl in E. lia.
Qed.

Lemma floor_div_int a b : 0 < b -> Math_floor (div (int a) (int b)) = int (a / b).
Proof.
  intros Hb. rewrite div_int by lia. unfold Math_floor. now rewrite <- Zdiv_Qdiv.
Qed.

Lemma Qceiling_div a b : 0 < b -> Qceiling (inject_Z a / inject_Z b) = - ((- a) / b).
Proof.
  intros Hb. unfold Qceiling. f_equal.
  rewrite (Zdiv_Qdiv (- a) b). apply Qfloor_comp.
  rewrite inject_Z_opp. field.
  intros E. unfold Qeq in E. simpl in E. lia.
Qed.

Lemma ceil_div_int a b : 0 < b -> Math_ceil (div (int a) (int b)) = int (- ((- a) / b)).
Proof.
  intros Hb. rewrite div_int by lia. unfold Math_ceil. now rewrite Qceiling_div.
Qed.

Lemma parseInt_int n : parseInt (VNum (int n)) = int n.
Proof.
  unfold parseInt, int. simpl. now rewrite Z.quot_1_r.
Qed.

Lemma truthy_int n : truthy (VNum (int n)) = negb (n =? 0).
Proof.
  unfold truthy, int, Qeq_bool. simpl. now rewrite Z.mul_1_r.
Qed.

Lemma to_number_int n : to_number (VNum (int n)) = int n.
Proof. reflexivity. Qed.

Lemma Qred_int n : Qred (inject_Z n) = inject_Z n.
Proof.
  apply Qred_identity. simpl. apply Z.gcd_1_r.
Qed.

Lemma as_count_int n : 0 <= n -> Db.as_count (VNum (int n)) = Some (Z.to_nat n).
Proof.
  intros Hn. unfold Db.as_count, int. rewrite Qred_int. simpl.
  destruct (0 <=? n) eqn:E; [reflexivity | lia].
Qed.

(** The quotient rounded up is the least number of pages that hold [a]
    items, [b] to a page. *)
Lemma ceiling_pages a b :
  0 < b -> let p := - ((- a) / b) in (p - 1) * b < a <= p * b.
Proof.
  intros Hb p. subst p.
  pose proof (Z.div_mod (- a) b ltac:(lia)) as E.
  pose proof (Z.mod_pos_bound (- a) b Hb) as B.
  nia.
Qed.


End Numbers.

(** ** Doubles

    The numbers of the engine are doubles, and what an operation gives is
    its exact result rounded to the nearest double.  The model computes the
    exact results.  For the arithmetic of the handlers, on safe integers,
    that makes no difference; this section shows it for any rounding [rnd]
    that has the three properties of rounding to nearest which the argument
    uses: it is monotone, it leaves the integers up to 2^53 as they are, and
    it moves a number between a hundredth and 2^53 by at most the 2^53-th
    part of it. *)

Section Doubles.

Import JS.

Variable rnd : Q -> Q.
Hypothesis rnd_monotone : forall x y, (x <= y)%Q -> (rnd x <= rnd y)%Q.
Hypothesis rnd_integer : forall n, Z.abs n <= 2 ^ 53 -> (rnd (inject_Z n) == inject_Z n)%Q.
Hypothesis rnd_error :
  forall x, (1 # 100 <= x)%Q -> (x <= inject_Z (2 ^ 53))%Q ->
            (Qabs (rnd x - x) <= x * (1 # 9007199254740992))%Q.

Lemma rnd_compat x y : (x == y)%Q -> (rnd x == rnd y)%Q.
Proof.
  intros E. apply Qle_antisym; apply rnd_monotone; rewrite E; apply Qle_refl.
Qed.

Lemma quotient_parts a b :
  0 < b ->
  (inject_Z a / inject_Z b == inject_Z (a / b) + inject_Z (a mod b) / inject_Z b)%Q.
Proof.
  intros Hb. rewrite (Z.div_mod a b) at 1 by lia.
  rewrite inject_Z_plus, inject_Z_mult. field.
  intros E. apply (inject_Z_injective b 0) in E. lia.
Qed.

(** The rounded quotient of a safe integer by a limit lies where the exact
    quotient lies: on the whole number when the division is exact, and
    strictly between two whole numbers otherwise. *)
Lemma rounded_quotient a b :
  0 <= a <= MAX_SAFE_INTEGER -> 1 <= b <= 100 ->
  let q := (inject_Z a / inject_Z b)%Q in
  (a mod b = 0 -> (rnd q == inject_Z (a / b))%Q)
  /\ (a mod b <> 0 -> (inject_Z (a / b) < rnd q)%Q /\ (rnd q < inject_Z (a / b + 1))%Q).
Proof.
  intros Ha Hb q. unfold MAX_SAFE_INTEGER in Ha.
  pose proof (quotient_parts a b ltac:(lia)) as P. fold q in P.
  pose proof (Z.mod_pos_bound a b ltac:(lia)) as R.
  pose proof (Z.div_pos a b ltac:(lia) ltac:(lia)) as K0.
  assert (a / b <= a) as Ka by (apply Z.div_le_upper_bound; nia).
  assert (0 < inject_Z b)%Q as Bpos by (change 0%Q with (inject_Z 0); rewrite <- Zlt_Qlt; lia).
  split.
  - intros E. rewrite E in P.
    rewrite (rnd_compat q (inject_Z (a / b))).
    + apply rnd_integer. lia.
    + rewrite P. field. intros Z0. apply (inject_Z_injective b 0) in Z0. lia.
  - intros N.
    set (k := a / b) in *. set (r := a mod b) in *.
    assert (inject_Z 1 <= inject_Z r)%Q as R1 by (rewrite <- Zle_Qle; lia).
    assert (inject_Z r + inject_Z 1 <= inject_Z b)%Q as R2.
    { rewrite <- inject_Z_plus, <- Zle_Qle. lia. }
    assert (q * inject_Z b == inject_Z a)%Q as QB.
    { unfold q. field. intros Z0. apply (inject_Z_injective b 0) in Z0. lia. }
    assert (inject_Z a <= inject_Z 9007199254740991)%Q as A1 by (rewrite <- Zle_Qle; lia).
    assert (inject_Z 1 <= inject_Z a)%Q as A0.
    { rewrite <- Zle_Qle. subst r. 
      destruct (Z.eq_dec a 0) as [->|]; [rewrite Z.mod_0_l in N by lia; congruence | lia]. }
    assert (inject_Z b <= inject_Z 100)%Q as B100 by (rewrite <- Zle_Qle; lia).
    assert (inject_Z 1 <= inject_Z b)%Q as B1 by (rewrite <- Zle_Qle; lia).
    assert (inject_Z 0 <= inject_Z k)%Q as K0' by (rewrite <- Zle_Qle; lia).
    (* q lies between 1/100 and 2^53 *)
    assert (1 # 100 <= q)%Q as Qlo.
    { apply (Qmult_le_r _ _ (inject_Z b) Bpos). rewrite QB.
      change (inject_Z 1) with 1%Q in *. change (inject_Z 100) with 100%Q in *. lra. }
    assert (q <= inject_Z (2 ^ 53))%Q as Qhi.
    { apply (Qmult_le_r _ _ (inject_Z b) Bpos). rewrite QB.
      change (inject_Z (2 ^ 53)) with 9007199254740992%Q.
      change (inject_Z 9007199254740991) with 9007199254740991%Q in *.
      change (inject_Z 1) with 1%Q in *. nra. }
    pose proof (rnd_error q Qlo Qhi) as Err.
    apply Qabs_Qle_condition in Err as [Elo Ehi].
    (* the error, times b, is below 1 *)
    assert (q * (1 # 9007199254740992) * inject_Z b < 1)%Q as Small.
    { assert (q * (1 # 9007199254740992) * inject_Z b
              == inject_Z a * (1 # 9007199254740992))%Q as E by (rewrite <- QB; ring).
      rewrite E.
      change (inject_Z 9007199254740991) with 9007199254740991%Q in *. lra. }
    assert (inject_Z k * inject_Z b + inject_Z r == q * inject_Z b)%Q as D.
    { rewrite QB. subst k r. rewrite <- inject_Z_mult, <- inject_Z_plus.
      apply inject_Z_injective. rewrite (Z.div_mod a b) at 3 by lia. ring. }
    change (inject_Z 1) with 1%Q in *.
    split.
    + apply (Qmult_lt_r _ _ (inject_Z b) Bpos).
      assert ((rnd q - q) * inject_Z b >= - (q * (1 # 9007199254740992)) * inject_Z b)%Q.
      { apply Qmult_le_compat_r; [exact Elo | lra]. }
      nra.
    + apply (Qmult_lt_r _ _ (inject_Z b) Bpos).
      rewrite inject_Z_plus. change (inject_Z 1) with 1%Q.
      assert ((rnd q - q) * inject_Z b <= q * (1 # 9007199254740992) * inject_Z b)%Q.
      { apply Qmult_le_compat_r; [exact Ehi | lra]. }
      nra.
Qed.

Lemma Qfloor_between x k : (inject_Z k <= x)%Q -> (x < inject_Z (k + 1))%Q -> Qfloor x = k.
Proof.
  intros L U. apply Z.le_antisymm.
  - assert (Qfloor x < k + 1); [|lia].
    rewrite Zlt_Qlt. eapply Qle_lt_trans; [apply Qfloor_le | exact U].
  - rewrite <- (Qfloor_Z k). now apply Qfloor_resp_le.
Qed.

Lemma Qceiling_between x k : (inject_Z k < x)%Q -> (x <= inject_Z (k + 1))%Q -> Qceiling x = k + 1.
Proof.
  intros L U. apply Z.le_antisymm.
  - rewrite <- (Qceiling_Z (k + 1)). now apply Qceiling_resp_le.
  - assert (k < Qceiling x); [|lia].
    rewrite Zlt_Qlt. eapply Qlt_le_trans; [exact L | apply Qle_ceiling].
Qed.

(** [Math.floor(offset / limit)], computed with rounding, is what the model
    computes without. *)
Lemma floor_rounded a b :
  0 <= a <= MAX_SAFE_INTEGER -> 1 <= b <= 100 ->
  Math_floor (Fin (rnd (inject_Z a / inject_Z b))) = Math_floor (div (int a) (int b)).
Proof.
  intros Ha Hb. rewrite floor_div_int by lia. unfold Math_floor. f_equal.
  destruct (rounded_quotient a b Ha Hb) as [E N].
  destruct (Z.eq_dec (a mod b) 0) as [Z0|NZ].
  - rewrite (Qfloor_comp _ _ (E Z0)). apply Qfloor_Z.
  - destruct (N NZ) as [L U]. apply Qfloor_between; [now apply Qlt_le_weak | exact U].
Qed.

(** [Math.ceil(totalCount / limit)] likewise. *)
Lemma ceil_rounded a b :
  0 <= a <= MAX_SAFE_INTEGER -> 1 <= b <= 100 ->
  Math_ceil (Fin (rnd (inject_Z a / inject_Z b))) = Math_ceil (div (int a) (int b)).
Proof.
  intros Ha Hb. rewrite ceil_div_int by lia. unfold Math_ceil. f_equal.
  destruct (rounded_quotient a b Ha Hb) as [E N].
  destruct (Z.eq_dec (a mod b) 0) as [Z0|NZ].
  - rewrite (Qceiling_comp _ _ (E Z0)), Qceiling_Z.
    pose proof (Z.div_mod a b ltac:(lia)) as D. rewrite Z0 in D.
    replace (- a) with ((- (a / b)) * b) by lia. rewrite Z.div_mul by lia. lia.
  - destruct (N NZ) as [L U].
    rewrite (Qceiling_between _ (a / b) L (Qlt_le_weak _ _ U)).
    pose proof (Z.div_mod a b ltac:(lia)) as D.
    pose proof (Z.mod_pos_bound a b ltac:(lia)) as R.
    assert ((- a) / b = - (a / b) - 1); [|lia].
    symmetry. apply (Z.div_unique _ _ _ (b - a mod b)); lia.
Qed.

(** The header [offset / limit + 1] of the list route: with an offset up to
    2^45 the two roundings leave it a whole number exactly when the model
    says so. *)
Lemma header_rounded a b :
  0 <= a <= 2 ^ 45 -> 1 <= b <= 100 ->
  strict_eq (Fin (rnd (rnd (inject_Z a / inject_Z b) + inject_Z 1))) (int (a / b + 1))
  = strict_eq (Fin (inject_Z a / inject_Z b + inject_Z 1)) (int (a / b + 1)).
Proof.
  intros Ha Hb.
  assert (0 <= a <= MAX_SAFE_INTEGER) as Ha' by (unfold MAX_SAFE_INTEGER; lia).
  destruct (rounded_quotient a b Ha' Hb) as [E N].
  pose proof (quotient_parts a b ltac:(lia)) as P.
  pose proof (Z.mod_pos_bound a b ltac:(lia)) as R.
  pose proof (Z.div_pos a b ltac:(lia) ltac:(lia)) as K0.
  assert (a / b <= a) as Ka by (apply Z.div_le_upper_bound; nia).
  set (q := (inject_Z a / inject_Z b)%Q) in *.
  set (k := a / b) in *. set (r := a mod b) in *.
  unfold strict_eq, int.
  destruct (Z.eq_dec r 0) as [Z0|NZ].
  - specialize (E Z0).
    assert (rnd (rnd q + inject_Z 1) == inject_Z (k + 1))%Q as L.
    { rewrite (rnd_compat _ (inject_Z (k + 1))).
      - apply rnd_integer. lia.
      - rewrite E, inject_Z_plus. reflexivity. }
    assert (q + inject_Z 1 == inject_Z (k + 1))%Q as M.
    { rewrite P, Z0, inject_Z_plus. field.
      intros B0. apply (inject_Z_injective b 0) in B0. lia. }
    apply Qeq_bool_iff in L, M. now rewrite L, M.
  - destruct (N NZ) as [Lq Uq]. clear E N.
    assert (0 < inject_Z b)%Q as Bpos
      by (change 0%Q with (inject_Z 0); rewrite <- Zlt_Qlt; lia).
    assert (q * inject_Z b == inject_Z a)%Q as QB.
    { unfold q. field. intros Z0. apply (inject_Z_injective b 0) in Z0. lia. }
    assert (inject_Z k * inject_Z b + inject_Z r == q * inject_Z b)%Q as D.
    { rewrite QB. subst k r. rewrite <- inject_Z_mult, <- inject_Z_plus.
      apply inject_Z_injective. rewrite (Z.div_mod a b) at 3 by lia. ring. }
    assert (1 <= inject_Z r)%Q as R1
      by (change 1%Q with (inject_Z 1); rewrite <- Zle_Qle; lia).
    assert (1 <= inject_Z b)%Q as B1
      by (change 1%Q with (inject_Z 1); rewrite <- Zle_Qle; lia).
    assert (inject_Z b <= 100)%Q as B100
      by (change 100%Q with (inject_Z 100); rewrite <- Zle_Qle; lia).
    assert (0 <= inject_Z k)%Q as Kq
      by (change 0%Q with (inject_Z 0); rewrite <- Zle_Qle; lia).
    assert (inject_Z a <= 35184372088832)%Q as A1
      by (change 35184372088832%Q with (inject_Z (2 ^ 45)); rewrite <- Zle_Qle; lia).
    assert (inject_Z k <= 35184372088832)%Q as K1
      by (change 35184372088832%Q with (inject_Z (2 ^ 45)); rewrite <- Zle_Qle; lia).
    (* the fraction of the quotient is a hundredth at least *)
    assert (1 # 100 <= q - inject_Z k)%Q as Frac by nra.
    assert (1 # 100 <= q)%Q as Qlo by lra.
    assert (q <= inject_Z (2 ^ 53))%Q as Qhi.
    { change (inject_Z (2 ^ 53)) with 9007199254740992%Q. nra. }
    pose proof (rnd_error q Qlo Qhi) as Eq.
    apply Qabs_Qle_condition in Eq as [Eq _].
    rewrite inject_Z_plus in Uq. change (inject_Z 1) with 1%Q in *.
    assert (q <= 35184372088832)%Q as Q1 by nra.
    assert (1 # 100 <= rnd q + 1)%Q as Xlo by lra.
    assert (rnd q + 1 <= inject_Z (2 ^ 53))%Q as Xhi.
    { change (inject_Z (2 ^ 53)) with 9007199254740992%Q. lra. }
    pose proof (rnd_error _ Xlo Xhi) as Ex.
    apply Qabs_Qle_condition in Ex as [Ex _].
    assert (inject_Z (k + 1) < rnd (rnd q + 1))%Q as Above.
    { rewrite inject_Z_plus. change (inject_Z 1) with 1%Q. lra. }
    assert (inject_Z (k + 1) < q + 1)%Q as Exact.
    { rewrite inject_Z_plus. change (inject_Z 1) with 1%Q. lra. }
    destruct (Qeq_bool (rnd (rnd q + 1)) (inject_Z (k + 1))) eqn:B1'.
    { apply Qeq_bool_iff in B1'. rewrite B1' in Above. now apply Qlt_irrefl in Above. }
    destruct (Qeq_bool (q + 1) (inject_Z (k + 1))) eqn:B2'; [|reflexivity].
    apply Qeq_bool_iff in B2'. rewrite B2' in Exact. now apply Qlt_irrefl in Exact.
Qed.

End Doubles.

(** ** Validation chains *)

Section Chains.

Import JS Http Express.

Implicit Types (q : gmap string JS.value) (c : Chain) (cs : list Chain).

Lemma get_raw (raw : gmap string string) name :
  get (VStr <$> raw) name =
  match raw !! name with
  | Some s => VStr s
  | None => VUndefined
  end.
Proof.
  unfold get. rewrite lookup_fmap. now destruct (raw !! name).
Qed.

Lemma get_insert q k v : get (<[k := v]> q) k = v.
Proof. unfold get. now rewrite lookup_insert_eq. Qed.

Lemma get_insert_ne q k k' v : k <> k' -> get (<[k := v]> q) k' = get q k'.
Proof. intros H. unfold get. now rewrite lookup_insert_ne. Qed.

(** A chain reads one field of the request and nothing else. *)
Lemma run_chain_errors_ext c q q' :
  get q (field c) = get q' (field c) -> (run_chain c q).1 = (run_chain c q').1.
Proof.
  intros E. unfold run_chain, skipped. rewrite <- E.
  destruct (is_optional c && is_undefined (get q (field c))); [reflexivity|].
  now destruct (run_items (field c) (items c) (get q (field c))).
Qed.

(** It writes that field and nothing else. *)
Lemma run_chain_get_ne c q name :
  name <> field c -> get (run_chain c q).2 name = get q name.
Proof.
  intros H. unfold run_chain.
  destruct (skipped c q); [reflexivity|].
  destruct (run_items (field c) (items c) (get q (field c))) as [errs v]. simpl.
  apply get_insert_ne. congruence.
Qed.

Lemma run_items_path name l : forall v e,
  e ∈ (run_items name l v).1 -> path e = name.
Proof.
  induction l as [|[test m|f] r IH]; simpl; intros v e He.
  - inversion He.
  - destruct (run_items name r v) as [errs v'] eqn:E.
    specialize (IH v e). rewrite E in IH. simpl in IH.
    destruct (test v); simpl in He; [auto|].
    apply elem_of_cons in He as [->|He]; [reflexivity | auto].
  - eauto.
Qed.

(** Every error of a chain carries the name of its field. *)
Lemma run_chain_path c q e : e ∈ (run_chain c q).1 -> path e = field c.
Proof.
  unfold run_chain. destruct (skipped c q); [intros H; inversion H|].
  pose proof (run_items_path (field c) (items c) (get q (field c)) e) as P.
  destruct (run_items (field c) (items c) (get q (field c))) as [errs v]. exact P.
Qed.

Lemma run_chains_get_other cs : forall q name,
  name ∉ field <$> cs -> get (run_chains cs q).2 name = get q name.
Proof.
  induction cs as [|c r IH]; intros q name H; [reflexivity|].
  simpl. destruct (run_chain c q) as [errs q'] eqn:E1.
  destruct (run_chains r q') as [errs' q''] eqn:E2. simpl.
  rewrite fmap_cons in H. apply not_elem_of_cons in H as [Hc Hr].
  specialize (IH q' name Hr). rewrite E2 in IH. simpl in IH. rewrite IH.
  pose proof (run_chain_get_ne c q name Hc) as G. now rewrite E1 in G.
Qed.

Lemma flat_map_agree {A B} (f g : A -> list B) (l : list A) :
  (forall a, In a l -> f a = g a) -> flat_map f l = flat_map g l.
Proof.
  induction l as [|a l IH]; intros H; [reflexivity|].
  simpl. rewrite (H a (or_introl eq_refl)). f_equal.
  apply IH. intros b Hb. apply H. now right.
Qed.

(** The errors of a route are the errors of its chains, each run on the
    request as it came in, in the order of the chains. *)
Lemma run_chains_errors cs : forall q,
  NoDup (field <$> cs) ->
  (run_chains cs q).1 = flat_map (fun c => (run_chain c q).1) cs.
Proof.
  induction cs as [|c r IH]; intros q ND; [reflexivity|].
  rewrite fmap_cons in ND. apply NoDup_cons in ND as [Hc ND].
  simpl. destruct (run_chain c q) as [errs q'] eqn:E1.
  destruct (run_chains r q') as [errs' q''] eqn:E2. simpl.
  f_equal. specialize (IH q' ND). rewrite E2 in IH. simpl in IH. rewrite IH.
  apply flat_map_agree. intros d Hd.
  apply run_chain_errors_ext.
  pose proof (run_chain_get_ne c q (field d)) as G. rewrite E1 in G. apply G.
  intros E. apply Hc. rewrite <- E. apply list_elem_of_fmap. exists d. split; [reflexivity|].
  now apply list_elem_of_In.
Qed.

(** After the chains, a field holds what its own chain left in it. *)
Lemma run_chains_get cs : forall q c,
  NoDup (field <$> cs) -> c ∈ cs ->
  get (run_chains cs q).2 (field c) = get (run_chain c q).2 (field c).
Proof.
  induction cs as [|d r IH]; intros q c ND Hc; [inversion Hc|].
  rewrite fmap_cons in ND. apply NoDup_cons in ND as [Hd ND].
  simpl. destruct (run_chain d q) as [errs q'] eqn:E1.
  destruct (run_chains r q') as [errs' q''] eqn:E2. simpl.
  apply elem_of_cons in Hc as [->|Hc].
  - pose proof (run_chains_get_other r q' (field d) Hd) as G.
    rewrite E2 in G. simpl in G. rewrite G. now rewrite E1.
  - specialize (IH q' c ND Hc). rewrite E2 in IH. simpl in IH. rewrite IH.
    assert (field c <> field d) as Hne.
    { intros E. apply Hd. rewrite <- E. apply list_elem_of_fmap. now exists c. }
    pose proof (run_chain_get_ne d q (field c) Hne) as G. rewrite E1 in G. simpl in G.
    unfold run_chain, skipped. rewrite G.
    destruct (is_optional c && is_undefined (get q (field c))); [exact G|].
    destruct (run_items (field c) (items c) (get q (field c))) as [es v]. simpl.
    now rewrite !get_insert.
Qed.

End Chains.

(** ** Integer parameters of a request *)

Section IntegerParameters.

Import JS Http Express.

Lemma or_num n d : n <> 0 \/ n = d -> JS.or (Server.num n) (Server.num d) = Server.num n.
Proof.
  intros H. unfold JS.or, Server.num. rewrite truthy_int.
  destruct (n =? 0) eqn:E; simpl; [|reflexivity].
  apply Z.eqb_eq in E. destruct H as [H| ->]; [lia | reflexivity].
Qed.

(** An optional integer parameter that is in range passes its chain, and
    the handler then reads its value, or the default when it is absent. *)
Lemma int_chain_ok raw name min max d n :
  reads_int raw name d n -> within min max n -> n <> 0 \/ n = d ->
  let r := run_chain (toInt (isInt min max (optional (query name)))) (VStr <$> raw) in
  r.1 = [] /\ JS.or (get r.2 name) (Server.num d) = Server.num n.
Proof.
  intros R [Hlo Hhi] Hn. unfold reads_int in R.
  unfold run_chain, skipped. simpl. rewrite get_raw.
  destruct (raw !! name) as [s|] eqn:E.
  - destruct R as [Hr Hv]. simpl.
    assert (Validator.isInt min max s = true) as Hi.
    { apply isInt_spec. rewrite Hv. auto. }
    unfold standard. simpl. rewrite Hi. simpl. split; [reflexivity|].
    rewrite get_insert. unfold Validator.toInt.
    rewrite (parseInt_int_regex s Hr), Hv. now apply or_num.
  - simpl. split; [reflexivity|]. rewrite get_raw, E. subst n. reflexivity.
Qed.


End IntegerParameters.

(** ** ORDER BY time DESC, LIMIT and OFFSET *)

Section Ordering.

Import Db.

Lemma insert_desc_perm t l : insert_desc t l ≡ₚ t :: l.
Proof.
  induction l as [|u r IH]; simpl; [reflexivity|].
  destruct (time u <=? time t); [reflexivity|].
  rewrite IH. apply Permutation_swap.
Qed.

Lemma order_by_time_desc_perm l : order_by_time_desc l ≡ₚ l.
Proof.
  induction l as [|t r IH]; simpl; [reflexivity|].
  unfold order_by_time_desc in *. simpl. now rewrite insert_desc_perm, IH.
Qed.

Lemma insert_desc_sorted t l :
  StronglySorted newest_first l -> StronglySorted newest_first (insert_desc t l).
Proof.
  induction l as [|u r IH]; simpl; intros S.
  - repeat constructor.
  - apply StronglySorted_inv in S as [Sr Fu].
    destruct (time u <=? time t) eqn:E.
    + constructor; [now constructor|].
      constructor; [unfold newest_first; lia|].
      eapply Forall_impl; [exact Fu|]. unfold newest_first. intros x Hx. lia.
    + constructor; [auto|].
      rewrite insert_desc_perm. constructor; [unfold newest_first; lia | assumption].
Qed.

Lemma order_by_time_desc_sorted l : StronglySorted newest_first (order_by_time_desc l).
Proof.
  induction l as [|t r IH]; [constructor|].
  apply insert_desc_sorted, IH.
Qed.



(** What the store returns for ORDER BY time DESC LIMIT OFFSET is a page of
    a listing in descending order of time. *)
Lemma page_page_of limit offset l : page_of limit offset l (page limit offset l).
Proof.
  exists (Db.order_by_time_desc l).
  split; [apply order_by_time_desc_perm|].
  split; [apply order_by_time_desc_sorted | reflexivity].
Qed.

End Ordering.

(** ** GET /api/transactions *)

Section ListEndpoint.

Import JS Http Express Server Server.Router.

Lemma parseInt_num n : parseInt (num n) = int n.
Proof. apply parseInt_int. Qed.

Lemma first_total_of n : first_total (Db.total_of n) = inr (VStr (pretty (Z.of_nat n))).
Proof. reflexivity. Qed.

Lemma list_handler_ok pool q limit offset :
  Db.outage pool = None ->
  JS.or (get q "limit") (num 25) = num limit ->
  JS.or (get q "offset") (num 0) = num offset ->
  1 <= limit -> 0 <= offset ->
  let total := Z.of_nat (length (Db.table pool)) in
  list_handler pool q =
  mkOutcome
    (mkResponse 200
       (<["X-Total-Count" := int total]>
        (<["X-Total-Pages" := int (- ((- total) / limit))]>
         (<["X-Current-Page" := Fin (inject_Z offset / inject_Z limit + inject_Z 1)]>
          (<["X-Per-Page" := int limit]> ∅))))
       (JObj [("rows", JRows (page limit offset (Db.table pool)));
              ("totalCount", JNumber (int total));
              ("pagination",
               JObj [("limit", JNumber (int limit));
                     ("offset", JNumber (int offset));
                     ("currentPage", JNumber (int (offset / limit + 1)));
                     ("totalPages", JNumber (int (- ((- total) / limit))))])]))
    [Db.mkQuery Db.SELECT_PAGE [num limit; num offset]; Db.mkQuery Db.COUNT_ALL []].
Proof.
  intros Hup Hl Ho Hlimit Hoffset total.
  unfold list_handler. rewrite Hl, Ho, !parseInt_num.
  unfold both, Db.pool_query. rewrite Hup.
  unfold Db.run. cbn [Db.text Db.values].
  rewrite !as_count_int by lia.
  rewrite first_total_of, parseInt_pretty by lia.
  rewrite ceil_div_int, floor_div_int, add_int by lia.
  rewrite div_int by lia.
  reflexivity.
Qed.

Lemma list_fields_distinct : NoDup (field <$> list_chains).
Proof. compute_done. Qed.

(** A request whose [limit] and [offset] are in range passes validation and
    is answered with the page and its metadata. *)
Lemma serve_list_ok pool raw limit offset :
  Db.outage pool = None ->
  reads_int raw "limit" 25 limit -> 1 <= limit <= 100 ->
  reads_int raw "offset" 0 offset -> 0 <= offset ->
  exists q,
    run_chains list_chains (VStr <$> raw) = ([], q)
    /\ parseInt (JS.or (get q "limit") (num 25)) = int limit
    /\ serve list_route pool raw = list_handler pool q
    /\ JS.or (get q "limit") (num 25) = num limit
    /\ JS.or (get q "offset") (num 0) = num offset.
Proof.
  intros Hup Rl Hl Ro Ho.
  destruct (int_chain_ok raw "limit" (Some 1) (Some 100) 25 limit Rl) as [El Vl].
  { split; intros ? [= <-]; lia. }
  { left. lia. }
  destruct (int_chain_ok raw "offset" (Some 0) None 0 offset Ro) as [Eo Vo].
  { split; [intros ? [= <-]; lia | intros ? [=]]. }
  { lia. }
  pose proof (run_chains_errors list_chains (VStr <$> raw) list_fields_distinct) as E.
  pose proof (run_chains_get list_chains (VStr <$> raw)) as G.
  unfold serve. simpl chains. simpl handler.
  destruct (run_chains list_chains (VStr <$> raw)) as [errors q] eqn:R.
  simpl in E. rewrite El, Eo in E. simpl in E. subst errors.
  exists q. split; [reflexivity|].
  assert (JS.or (get q "limit") (num 25) = num limit) as Ql.
  { rewrite <- Vl. f_equal.
    apply (G (toInt (isInt (Some 1) (Some 100) (optional (query "limit")))) list_fields_distinct).
    rewrite list_elem_of_In. simpl. auto. }
  assert (JS.or (get q "offset") (num 0) = num offset) as Qo.
  { rewrite <- Vo. f_equal.
    apply (G (toInt (isInt (Some 0) None (optional (query "offset")))) list_fields_distinct).
    rewrite list_elem_of_In. simpl. auto. }
  split; [rewrite Ql; apply parseInt_num|]. split; [reflexivity|]. split; assumption.
Qed.



(** The header [X-Current-Page] of the list route is the quotient itself,
    which is the page of the body only when [limit] divides [offset]. *)
Lemma quotient_is_page offset limit :
  0 < limit ->
  (strict_eq (Fin (inject_Z offset / inject_Z limit + inject_Z 1)) (int (offset / limit + 1))
   = true <-> offset mod limit = 0).
Proof.
  intros Hl. unfold strict_eq, int. rewrite Qeq_bool_iff.
  destruct limit as [|p|p]; try lia.
  unfold Qeq, Qdiv, Qmult, Qinv, Qplus, inject_Z. simpl.
  pose proof (Z.div_mod offset (Z.pos p) ltac:(lia)) as D.
  pose proof (Z.mod_pos_bound offset (Z.pos p) ltac:(lia)) as B.
  rewrite !Z.mul_1_r, !Pos.mul_1_r. split; intros H; nia.
Qed.

Lemma list_headers pool raw limit offset :
  Db.outage pool = None ->
  reads_int raw "limit" 25 limit -> 1 <= limit <= 100 ->
  reads_int raw "offset" 0 offset -> 0 <= offset ->
  let total := Z.of_nat (length (Db.table pool)) in
  let h := headers (response (serve list_route pool raw)) in
  h !! "X-Total-Count" = Some (int total)
  /\ h !! "X-Total-Pages" = Some (int (- ((- total) / limit)))
  /\ h !! "X-Current-Page" = Some (Fin (inject_Z offset / inject_Z limit + inject_Z 1))
  /\ h !! "X-Per-Page" = Some (int limit).
Proof.
  intros Hup Rl Hl Ro Ho total h. subst h.
  destruct (serve_list_ok pool raw limit offset Hup Rl Hl Ro Ho)
    as (q & _ & _ & -> & Ql & Qo).
  rewrite (list_handler_ok pool q limit offset Hup Ql Qo) by lia.
  cbn [response headers]. repeat split; simplify_map_eq; reflexivity.
Qed.

(** C2 at limit 2 and offset 5.  The headers [X-Total-Count] and
    [X-Total-Pages] carry the values of the body; the header
    [X-Current-Page] carries 7/2 where the body has currentPage 3. *)
Theorem list_current_page_header :
  let out := serve list_route Sample.store
               (Sample.request [("limit", "2"); ("offset", "5")]) in
  status (response out) = 200
  /\ headers (response out) !! "X-Total-Count" = Some (int 5)
  /\ Http.field "totalCount" (body (response out)) = Some (JNumber (int 5))
  /\ headers (response out) !! "X-Total-Pages" = Some (int 3)
  /\ headers (response out) !! "X-Current-Page" = Some (Fin (7 # 2))
  /\ Http.field "pagination" (body (response out)) =
     Some (JObj [("limit", JNumber (int 2)); ("offset", JNumber (int 5));
                 ("currentPage", JNumber (int 3)); ("totalPages", JNumber (int 3))])
  /\ strict_eq (Fin (7 # 2)) (int 3) = false.
Proof.
  repeat split; vm_compute; reflexivity.
Qed.

End ListEndpoint.

(** ** The calendar: day numbers follow the order of dates *)

Section CalendarOrder.

Import Calendar.

Lemma DayFromYear_next y : DayFromYear (y + 1) = DayFromYear y + 365 + leap_days y.
Proof.
  unfold DayFromYear, leap_days, InLeapYear.
  replace (y + 1 - 1970) with (y - 1969) by lia.
  replace (y + 1 - 1969) with (y - 1968) by lia.
  replace (y + 1 - 1901) with (y - 1900) by lia.
  replace (y + 1 - 1601) with (y - 1600) by lia.
  destruct (Z.eqb_spec (y mod 4) 0), (Z.eqb_spec (y mod 100) 0), (Z.eqb_spec (y mod 400) 0);
    cbn [negb andb orb]; Z.to_euclidean_division_equations; lia.
Qed.

Lemma DayFromYear_mono y y' : y <= y' -> DayFromYear y <= DayFromYear y'.
Proof.
  intros H. unfold DayFromYear. Z.to_euclidean_division_equations. lia.
Qed.

Lemma valid_spec d :
  valid d = true <-> 1 <= month d <= 12 /\ 1 <= day d <= DaysInMonth (year d) (month d).
Proof.
  unfold valid. rewrite !andb_true_iff, !Z.leb_le. lia.
Qed.

Ltac month_cases m :=
  let H := fresh in
  assert (m = 1 \/ m = 2 \/ m = 3 \/ m = 4 \/ m = 5 \/ m = 6 \/
          m = 7 \/ m = 8 \/ m = 9 \/ m = 10 \/ m = 11 \/ m = 12) as H by lia;
  repeat (destruct H as [H|H]; [subst m|]); [..|subst m].

Lemma day_of_year_bound y m d :
  1 <= m <= 12 -> 1 <= d <= DaysInMonth y m ->
  0 <= DaysBeforeMonth y m + d - 1 <= 364 + leap_days y.
Proof.
  intros Hm Hd. unfold leap_days.
  month_cases m; unfold DaysBeforeMonth, DaysInMonth in *;
    destruct (InLeapYear y); lia.
Qed.

Lemma month_mono y m m' d :
  1 <= m -> m < m' -> m' <= 12 -> d <= DaysInMonth y m ->
  DaysBeforeMonth y m + d <= DaysBeforeMonth y m'.
Proof.
  intros H1 H2 H3 Hd.
  month_cases m; month_cases m'; try lia;
    unfold DaysBeforeMonth, DaysInMonth in *; destruct (InLeapYear y); lia.
Qed.

Lemma MakeDay_before a b :
  valid a = true -> valid b = true -> before a b -> MakeDay a < MakeDay b.
Proof.
  intros Va Vb H. apply valid_spec in Va as [Ma Da], Vb as [Mb Db].
  unfold MakeDay.
  destruct H as [Hy | [Ey [Hm | [Em Hd]]]].
  - pose proof (day_of_year_bound _ _ _ Ma Da).
    pose proof (day_of_year_bound _ _ _ Mb Db).
    pose proof (DayFromYear_next (year a)).
    pose proof (DayFromYear_mono (year a + 1) (year b) ltac:(lia)).
    lia.
  - rewrite Ey in *.
    pose proof (month_mono (year b) (month a) (month b) (day a)). lia.
  - rewrite Ey, Em. lia.
Qed.

(** Two valid dates are in chronological order, or the same day, or in the
    opposite order; the day numbers tell which. *)
Lemma MakeDay_not_before a b :
  valid a = true -> valid b = true -> ~ before a b -> MakeDay b <= MakeDay a.
Proof.
  intros Va Vb H.
  destruct (Z.lt_trichotomy (year a) (year b)) as [Hy | [Ey | Hy]].
  - exfalso. apply H. now left.
  - destruct (Z.lt_trichotomy (month a) (month b)) as [Hm | [Em | Hm]].
    + exfalso. apply H. right. auto.
    + destruct (Z.lt_trichotomy (day a) (day b)) as [Hd | [Ed | Hd]].
      * exfalso. apply H. right. auto.
      * unfold MakeDay. rewrite Ey, Em, Ed. lia.
      * apply Z.lt_le_incl, MakeDay_before; [assumption..|]. right. auto.
    + apply Z.lt_le_incl, MakeDay_before; [assumption..|]. right. auto.
  - apply Z.lt_le_incl, MakeDay_before; [assumption..|]. now left.
Qed.

End CalendarOrder.

(** ** GET /api/transactions/range *)

Section RangeEndpoint.

Import JS Http Express Server Server.Router.

Lemma lt_int a b : JS.lt (int a) (int b) = (a <? b).
Proof.
  unfold JS.lt, int, Qle_bool. simpl. rewrite !Z.mul_1_r.
  destruct (Z.leb_spec b a), (Z.ltb_spec a b); simpl; auto; lia.
Qed.

Lemma range_fields_distinct : NoDup (field <$> range_chains).
Proof. compute_done. Qed.

(** A date parameter that names a day of the calendar passes its chain and
    is left as it came. *)
Lemma date_chain_ok raw name m s :
  raw !! name = Some s -> Validator.isDate s = true ->
  let r := run_chain (withMessage m (isDate (query name))) (VStr <$> raw) in
  r.1 = [] /\ get r.2 name = VStr s.
Proof.
  intros E V. unfold run_chain, skipped. simpl. rewrite get_raw, E. simpl.
  unfold standard. simpl. rewrite V. simpl. split; [reflexivity|]. apply get_insert.
Qed.

Lemma isDate_read s d :
  Calendar.read s = Some d -> Calendar.valid d = true -> Validator.isDate s = true.
Proof. intros R V. unfold Validator.isDate. now rewrite R. Qed.

Lemma Date_read s d :
  Calendar.read s = Some d -> Calendar.valid d = true ->
  Date (VStr s) = int (Calendar.MakeDay d * 86400000).
Proof. intros R V. unfold Date. now rewrite R, V. Qed.

Lemma as_date_read s d :
  Calendar.read s = Some d -> Calendar.valid d = true -> 1 <= Calendar.year d ->
  Db.as_date (VStr s) = Some (Calendar.MakeDay d).
Proof.
  intros R V Y. unfold Db.as_date. rewrite R, V.
  destruct (Z.leb_spec 1 (Calendar.year d)); [reflexivity | lia].
Qed.

Lemma serve_range_ok pool raw ds de limit offset :
  reads_date raw "start" ds -> reads_date raw "end" de ->
  reads_int raw "limit" 25 limit -> 1 <= limit <= 100 ->
  reads_int raw "offset" 0 offset -> 0 <= offset ->
  exists q ss se,
    serve range_route pool raw = range_handler pool q
    /\ get q "start" = VStr ss /\ Calendar.read ss = Some ds
    /\ get q "end" = VStr se /\ Calendar.read se = Some de
    /\ JS.or (get q "limit") (num 25) = num limit
    /\ JS.or (get q "offset") (num 0) = num offset.
Proof.
  intros Rs Re Rl Hl Ro Ho. unfold reads_date in Rs, Re.
  destruct (raw !! "start") as [ss|] eqn:Es; [|contradiction].
  destruct (raw !! "end") as [se|] eqn:Ee; [|contradiction].
  destruct Rs as [Rs Vs], Re as [Re Ve].
  destruct (date_chain_ok raw "start" "Valid start date is required" ss Es
              (isDate_read ss ds Rs Vs)) as [E1 V1].
  destruct (date_chain_ok raw "end" "Valid end date is required" se Ee
              (isDate_read se de Re Ve)) as [E2 V2].
  destruct (int_chain_ok raw "limit" (Some 1) (Some 100) 25 limit Rl) as [E3 V3].
  { split; intros ? [= <-]; lia. }
  { left. lia. }
  destruct (int_chain_ok raw "offset" (Some 0) None 0 offset Ro) as [E4 V4].
  { split; [intros ? [= <-]; lia | intros ? [=]]. }
  { lia. }
  pose proof (run_chains_errors range_chains (VStr <$> raw) range_fields_distinct) as E.
  pose proof (fun c => run_chains_get range_chains (VStr <$> raw) c range_fields_distinct) as G.
  unfold serve. simpl chains. simpl handler.
  destruct (run_chains range_chains (VStr <$> raw)) as [errors q] eqn:R.
  simpl in E. rewrite E1, E2, E3, E4 in E. simpl in E. subst errors.
  exists q, ss, se. simpl in G.
  split; [reflexivity|].
  split; [rewrite <- V1; apply (G (withMessage _ (isDate (query "start"))));
          rewrite list_elem_of_In; simpl; auto|].
  split; [assumption|].
  split; [rewrite <- V2; apply (G (withMessage _ (isDate (query "end"))));
          rewrite list_elem_of_In; simpl; auto|].
  split; [assumption|].
  split.
  - rewrite <- V3. f_equal.
    apply (G (toInt (isInt (Some 1) (Some 100) (optional (query "limit"))))).
    rewrite list_elem_of_In; simpl; auto.
  - rewrite <- V4. f_equal.
    apply (G (toInt (isInt (Some 0) None (optional (query "offset"))))).
    rewrite list_elem_of_In; simpl; auto.
Qed.


Lemma range_handler_rejects pool q ss se ds de :
  get q "start" = VStr ss -> Calendar.read ss = Some ds -> Calendar.valid ds = true ->
  get q "end" = VStr se -> Calendar.read se = Some de -> Calendar.valid de = true ->
  Calendar.before de ds ->
  range_handler pool q =
  mkOutcome
    (json 400 (JObj [("error", JString "Invalid date range");
                     ("message", JString "End date cannot be before start date")]))
    [].
Proof.
  intros Gs Rs Vs Ge Re Ve B. unfold range_handler.
  rewrite Gs, Ge, (Date_read ss ds Rs Vs), (Date_read se de Re Ve), lt_int.
  pose proof (MakeDay_before de ds Ve Vs B).
  destruct (Z.ltb_spec (Calendar.MakeDay de * 86400000) (Calendar.MakeDay ds * 86400000));
    [reflexivity | lia].
Qed.

Lemma range_handler_ok pool q ss se ds de limit offset :
  get q "start" = VStr ss -> Calendar.read ss = Some ds -> Calendar.valid ds = true ->
  get q "end" = VStr se -> Calendar.read se = Some de -> Calendar.valid de = true ->
  JS.or (get q "limit") (num 25) = num limit ->
  JS.or (get q "offset") (num 0) = num offset ->
  1 <= limit -> 0 <= offset ->
  ~ Calendar.before de ds -> 1 <= Calendar.year ds -> Db.outage pool = None ->
  let matching := in_days ds de (Db.table pool) in
  let total := Z.of_nat (length matching) in
  range_handler pool q =
  mkOutcome
    (mkResponse 200
       (<["X-Total-Count" := int total]>
        (<["X-Total-Pages" := int (- ((- total) / limit))]>
         (<["X-Current-Page" := int (offset / limit + 1)]> ∅)))
       (JObj [("rows", JRows (page limit offset matching));
              ("totalCount", JNumber (int total));
              ("pagination",
               JObj [("limit", JVal (num limit));
                     ("offset", JVal (num offset));
                     ("currentPage", JNumber (int (offset / limit + 1)));
                     ("totalPages", JNumber (int (- ((- total) / limit))))])]))
    [Db.mkQuery Db.SELECT_RANGE [VStr ss; VStr se; num limit; num offset];
     Db.mkQuery Db.COUNT_RANGE [VStr ss; VStr se]].
Proof.
  intros Gs Rs Vs Ge Re Ve Ql Qo Hl Ho B Y Hup matching total. unfold range_handler.
  rewrite Gs, Ge, Ql, Qo, (Date_read ss ds Rs Vs), (Date_read se de Re Ve), lt_int.
  pose proof (MakeDay_not_before de ds Ve Vs B).
  destruct (Z.ltb_spec (Calendar.MakeDay de * 86400000) (Calendar.MakeDay ds * 86400000));
    [lia|].
  assert (1 <= Calendar.year de) as Y'.
  { destruct (Z.lt_ge_cases (Calendar.year de) (Calendar.year ds)); [|lia].
    exfalso. apply B. now left. }
  unfold both, Db.pool_query. rewrite Hup.
  unfold Db.run. cbn [Db.text Db.values].
  rewrite (as_date_read ss ds Rs Vs Y), (as_date_read se de Re Ve Y').
  unfold num. rewrite !as_count_int by lia.
  rewrite first_total_of, parseInt_pretty, !to_number_int by lia.
  rewrite ceil_div_int, floor_div_int, add_int by lia.
  reflexivity.
Qed.


End RangeEndpoint.

(** ** Validation comes first and reports in one batch *)

Section ValidationPolicy.

Import JS Http Express Server Server.Router.

Lemma serve_rejects r pool raw :
  (run_chains (chains r) (VStr <$> raw)).1 <> [] ->
  serve r pool raw =
  mkOutcome (json 400 (validation_failed (run_chains (chains r) (VStr <$> raw)).1)) [].
Proof.
  unfold serve. destruct (run_chains (chains r) (VStr <$> raw)) as [errors q].
  simpl. destruct errors; [congruence | reflexivity].
Qed.

Lemma validated_fields_distinct r :
  r ∈ validated_routes -> NoDup (field <$> chains r).
Proof.
  unfold validated_routes. rewrite !elem_of_cons, elem_of_nil.
  intros [-> | [-> | [-> | [-> | []]]]]; compute_done.
Qed.

Lemma failing_chain_reported cs raw c :
  NoDup (field <$> cs) -> c ∈ cs -> fails c raw ->
  exists e, e ∈ (run_chains cs (VStr <$> raw)).1 /\ path e = field c.
Proof.
  intros ND Hc F. rewrite (run_chains_errors cs _ ND). unfold fails in F.
  destruct (run_chain c (VStr <$> raw)).1 as [|e es] eqn:E; [congruence|].
  exists e. split.
  - apply list_elem_of_In, in_flat_map. exists c.
    split; [now apply list_elem_of_In|]. rewrite E. now left.
  - apply (run_chain_path c (VStr <$> raw)). rewrite E. now left.
Qed.

(** C9.  On each of the four validated routes, a request with a parameter
    that fails validation is answered with one response of status 400 whose
    details name every failing parameter, and no query is issued. *)
Theorem validation_batch (r : Route) (pool : Db.Pool) (raw : gmap string string) :
  r ∈ validated_routes ->
  (exists c, c ∈ chains r /\ fails c raw) ->
  issued (serve r pool raw) = []
  /\ status (response (serve r pool raw)) = 400
  /\ exists details,
       body (response (serve r pool raw)) = validation_failed details
       /\ forall c, c ∈ chains r -> fails c raw ->
            exists e, e ∈ details /\ path e = field c.
Proof.
  intros Hr (c0 & Hc0 & F0).
  pose proof (validated_fields_distinct r Hr) as ND.
  destruct (failing_chain_reported (chains r) raw c0 ND Hc0 F0) as (e0 & He0 & _).
  rewrite serve_rejects by (intros E; rewrite E in He0; inversion He0).
  split; [reflexivity|]. split; [reflexivity|].
  eexists. split; [reflexivity|].
  intros c Hc F. now apply failing_chain_reported.
Qed.

End ValidationPolicy.

(** ** GET /api/transactions/by-time *)

Section ByTimeEndpoint.

Import JS Http Express Server Server.Router.

Lemma interval_message_names_all :
  forall v, v ∈ VALID_TIME_INTERVALS -> JS.includes v interval_message = true.
Proof.
  apply Forall_forall. compute_done.
Qed.

Lemma interval_chain_fails raw :
  (forall v, raw !! "interval" = Some v -> v ∉ VALID_TIME_INTERVALS) ->
  (run_chain interval_chain (VStr <$> raw)).1 =
  [mkValidationError "query" "interval" interval_message (get (VStr <$> raw) "interval")].
Proof.
  intros H. unfold run_chain, skipped. simpl. rewrite get_raw.
  unfold standard, Validator.isIn.
  destruct (raw !! "interval") as [v|] eqn:E; simpl.
  - rewrite bool_decide_eq_false_2 by auto. reflexivity.
  - reflexivity.
Qed.

(** C5.  GET /api/transactions/by-time: when [interval] is missing or is not
    one of the twelve values of [VALID_TIME_INTERVALS], the answer has
    status 400, its details hold an error for [interval] whose message names
    each of the twelve values, and no query is issued. *)
Theorem by_time_interval_rejected (pool : Db.Pool) (raw : gmap string string) :
  (forall v, raw !! "interval" = Some v -> v ∉ VALID_TIME_INTERVALS) ->
  length VALID_TIME_INTERVALS = 12%nat
  /\ status (response (serve by_time_route pool raw)) = 400
  /\ issued (serve by_time_route pool raw) = []
  /\ exists details e,
       body (response (serve by_time_route pool raw)) = validation_failed details
       /\ e ∈ details
       /\ path e = "interval"
       /\ msg e = interval_message
       /\ forall v, v ∈ VALID_TIME_INTERVALS -> JS.includes v (msg e) = true.
Proof.
  intros H. split; [reflexivity|].
  pose proof (interval_chain_fails raw H) as F.
  assert ((run_chains (chains by_time_route) (VStr <$> raw)).1 =
          mkValidationError "query" "interval" interval_message
            (get (VStr <$> raw) "interval")
          :: (run_chain (toInt (isInt (Some 1) (Some 100) (optional (query "limit"))))
                (VStr <$> raw)).1) as E.
  { rewrite run_chains_errors by compute_done.
    change (chains by_time_route)
      with [interval_chain; toInt (isInt (Some 1) (Some 100) (optional (query "limit")))].
    cbn [flat_map]. rewrite F, app_nil_r. reflexivity. }
  rewrite serve_rejects by (rewrite E; discriminate).
  split; [reflexivity|]. split; [reflexivity|].
  eexists. eexists. split; [reflexivity|].
  split; [rewrite E; left|].
  split; [reflexivity|]. split; [reflexivity|].
  apply interval_message_names_all.
Qed.

End ByTimeEndpoint.

(** ** Response envelopes *)

Section Envelopes.

Import JS Http Express Server Server.Router.

Lemma both_error_status pool a b e : both pool a b = inl e -> JS.status e = None.
Proof.
  unfold both.
  destruct (Db.pool_query pool a), (Db.pool_query pool b); intros [= <-]; reflexivity.
Qed.

Lemma first_total_error_status rows e : first_total rows = inl e -> JS.status e = None.
Proof.
  destruct rows as [|[] ?]; intros [= <-]; reflexivity.
Qed.

Lemma next_error_status e qs :
  JS.status e = None -> status (response (next_error e qs)) = 500.
Proof. intros H. unfold next_error, error_handler. now rewrite H. Qed.

Lemma validateRequest_success errors next :
  status (response (validateRequest errors next)) = 200 ->
  validateRequest errors next = next.
Proof. destruct errors; [reflexivity | discriminate]. Qed.

(** C3, as amended.  The success bodies of List and Range are the envelope
    with its pagination block.  The success body of Search holds [rows] and
    [totalCount] and no pagination block. *)
Theorem success_bodies (pool : Db.Pool) (raw : gmap string string) :
  (status (response (serve list_route pool raw)) = 200 ->
   has_envelope (body (response (serve list_route pool raw))))
  /\ (status (response (serve range_route pool raw)) = 200 ->
      has_envelope (body (response (serve range_route pool raw))))
  /\ (status (response (serve search_route pool raw)) = 200 ->
      has_rows_and_count (body (response (serve search_route pool raw)))
      /\ Http.field "pagination" (body (response (serve search_route pool raw))) = None).
Proof.
  split; [|split].
  - unfold serve. destruct (run_chains (chains list_route) (VStr <$> raw)) as [errors q].
    intros H. pose proof (validateRequest_success _ _ H) as V. rewrite V in H |- *. clear V.
    simpl handler in *. unfold list_handler in *.
    destruct (both pool _ _) as [e|[rows count]] eqn:B.
    { rewrite next_error_status in H by (eapply both_error_status; eauto). discriminate. }
    destruct (first_total count) as [e|total] eqn:T.
    { rewrite next_error_status in H by (eapply first_total_error_status; eauto).
      discriminate. }
    cbn [response body]. unfold has_envelope.
    split; [reflexivity|]. split; [eexists; reflexivity|].
    split; [eexists; reflexivity|]. eexists. split; reflexivity.
  - unfold serve. destruct (run_chains (chains range_route) (VStr <$> raw)) as [errors q].
    intros H. pose proof (validateRequest_success _ _ H) as V. rewrite V in H |- *. clear V.
    simpl handler in *. unfold range_handler in *.
    destruct (JS.lt _ _); [discriminate|].
    destruct (both pool _ _) as [e|[rows count]] eqn:B.
    { rewrite next_error_status in H by (eapply both_error_status; eauto). discriminate. }
    destruct (first_total count) as [e|total] eqn:T.
    { rewrite next_error_status in H by (eapply first_total_error_status; eauto).
      discriminate. }
    cbn [response body]. unfold has_envelope.
    split; [reflexivity|]. split; [eexists; reflexivity|].
    split; [eexists; reflexivity|]. eexists. split; reflexivity.
  - unfold serve. destruct (run_chains (chains search_route) (VStr <$> raw)) as [errors q].
    intros H. pose proof (validateRequest_success _ _ H) as V. rewrite V in H |- *. clear V.
    simpl handler in *. unfold search_handler in *.
    destruct (both pool _ _) as [e|[rows count]] eqn:B.
    { rewrite next_error_status in H by (eapply both_error_status; eauto). discriminate. }
    destruct (first_total count) as [e|total] eqn:T.
    { rewrite next_error_status in H by (eapply first_total_error_status; eauto).
      discriminate. }
    cbn [response body json]. unfold has_rows_and_count.
    split; [|reflexivity].
    split; [reflexivity|]. split; eexists; reflexivity.
Qed.

End Envelopes.

(** ** GET /api/transaction/:hash *)

Section ByHash.

Import JS Http Server.

(** C7.  GET /api/transaction/:hash, while the store answers: the body of a
    success is one transaction, which has the requested hash; when no
    transaction has that hash the answer is status 404 with an error body,
    neither a 500 nor a success without a row. *)
Theorem lookup_by_hash (pool : Db.Pool) (h : string) :
  Db.outage pool = None ->
  let out := transaction_by_hash pool h in
  issued out = [Db.mkQuery Db.SELECT_BY_HASH [VStr h]]
  /\ ((forall t, t ∈ Db.table pool -> Db.hash t <> h) ->
      status (response out) = 404 /\ body (response out) = not_found)
  /\ ((exists t, t ∈ Db.table pool /\ Db.hash t = h) ->
      exists t, status (response out) = 200
                /\ body (response out) = JRow (Db.TxRow t)
                /\ t ∈ Db.table pool /\ Db.hash t = h).
Proof.
  intros Hup out. subst out. unfold transaction_by_hash, Db.pool_query.
  rewrite Hup. unfold Db.run. cbn [Db.text Db.values Db.as_text].
  destruct (filter (fun t => String.eqb (Db.hash t) h) (Db.table pool)) as [|t rest] eqn:F.
  - split; [reflexivity|]. split; [intros _; split; reflexivity|].
    intros (t & Ht & E). exfalso.
    assert (t ∈ filter (fun t => String.eqb (Db.hash t) h) (Db.table pool)) as Hin.
    { apply list_elem_of_filter. split; [|assumption].
      apply Is_true_true, String.eqb_eq, E. }
    rewrite F in Hin. inversion Hin.
  - assert (t ∈ filter (fun t => String.eqb (Db.hash t) h) (Db.table pool)) as Hin
      by (rewrite F; left).
    apply list_elem_of_filter in Hin as [E Ht].
    apply Is_true_true, String.eqb_eq in E.
    split; [reflexivity|]. split.
    + intros H. exfalso. exact (H t Ht E).
    + intros _. exists t. repeat split; assumption.
Qed.

End ByHash.

(** ** GET /api/transactions/search *)

Section SearchEndpoint.

Import JS Http Express Server Server.Router Db.

Lemma append_nil_l s : EmptyString +:+ s = s.
Proof. reflexivity. Qed.

Lemma append_cons c a b : String c a +:+ b = String c (a +:+ b).
Proof. reflexivity. Qed.

Lemma starts_with_spec p : forall s, JS.starts_with p s = true <-> exists r, s = p +:+ r.
Proof.
  induction p as [|a p IH]; intros s; simpl.
  - split; [intros _; now exists s | reflexivity].
  - destruct s as [|b s].
    + split; [discriminate | intros [r [=]]].
    + rewrite andb_true_iff, IH, Ascii.eqb_eq. split.
      * intros [-> [r ->]]. now exists r.
      * intros [r [= -> ->]]. split; [reflexivity | now exists r].
Qed.

Lemma includes_spec t : forall s,
  JS.includes t s = true <-> exists pre post, s = pre +:+ t +:+ post.
Proof.
  induction s as [|c s IH]; simpl; rewrite orb_true_iff, starts_with_spec.
  - split.
    + intros [[r E] | [=]]. now exists EmptyString, r.
    + intros (pre & post & E). left. destruct pre; [now exists post | discriminate].
  - rewrite IH. split.
    + intros [[r E] | (pre & post & ->)].
      * now exists EmptyString, r.
      * now exists (String c pre), post.
    + intros (pre & post & E). destruct pre as [|d pre].
      * left. now exists post.
      * right. injection E as -> ->. now exists pre, post.
Qed.

Lemma like_percent_unfold p s :
  like (String "%" p) s =
  like p s || match s with
              | String _ s' => like (String "%" p) s'
              | EmptyString => false
              end.
Proof. destruct s; reflexivity. Qed.

Lemma like_percent p : forall s,
  like (String "%" p) s = true <-> exists pre post, s = pre +:+ post /\ like p post = true.
Proof.
  induction s as [|c s IH]; rewrite like_percent_unfold, orb_true_iff.
  - split.
    + intros [H | [=]]. exists EmptyString, EmptyString. split; [reflexivity | exact H].
    + intros (pre & post & E & H). left. destruct pre; [|discriminate]. rewrite append_nil_l in E. now subst.
  - rewrite IH. split.
    + intros [H | (pre & post & -> & H)].
      * exists EmptyString, (String c s). split; [reflexivity | exact H].
      * exists (String c pre), post. split; [reflexivity | exact H].
    + intros (pre & post & E & H). destruct pre as [|d pre].
      * left. rewrite append_nil_l in E. now subst.
      * right. injection E as -> ->. exists pre, post. split; [reflexivity | exact H].
Qed.

Lemma like_plain_cons c p s :
  plain c = true ->
  like (String c p) s =
  match s with
  | String d s' => Ascii.eqb c d && like p s'
  | EmptyString => false
  end.
Proof.
  unfold plain. rewrite !andb_true_iff, !negb_true_iff. intros [[H1 H2] H3].
  simpl. now rewrite H1, H2, H3.
Qed.

Lemma like_plain_prefix t p : forall s,
  all_plain t = true ->
  (like (t +:+ p) s = true <-> exists r, s = t +:+ r /\ like p r = true).
Proof.
  induction t as [|c t IH]; intros s Ht.
  - simpl. split; [intros H; now exists s | intros (r & -> & H); exact H].
  - simpl in Ht. apply andb_true_iff in Ht as [Hc Ht].
    change (String c t +:+ p) with (String c (t +:+ p)).
    rewrite like_plain_cons by assumption.
    destruct s as [|d s].
    + split; [discriminate | intros (r & [=] & _)].
    + rewrite andb_true_iff, Ascii.eqb_eq, (IH s Ht). split.
      * intros [-> (r & -> & H)]. now exists r.
      * intros (r & [= -> ->] & H). split; [reflexivity | now exists r].
Qed.

Lemma like_any s : like "%" s = true.
Proof.
  apply like_percent. exists s, EmptyString. split; [|reflexivity].
  induction s as [|c s IH]; [reflexivity | rewrite append_cons; now rewrite <- IH].
Qed.

Lemma like_infix t s :
  all_plain t = true -> like ("%" +:+ t +:+ "%") s = JS.includes t s.
Proof.
  intros Ht. apply eq_true_iff_eq.
  change ("%" +:+ t +:+ "%") with (String "%" (t +:+ "%")).
  rewrite like_percent, includes_spec. split.
  - intros (pre & post & -> & H). apply like_plain_prefix in H as (r & -> & _); [|assumption].
    now exists pre, r.
  - intros (pre & post & ->). exists pre, (t +:+ post). split; [reflexivity|].
    apply like_plain_prefix; [assumption|]. exists post. split; [reflexivity | apply like_any].
Qed.

Lemma lower_plain c : plain c = true -> plain (lower c) = true.
Proof.
  destruct c as [[] [] [] [] [] [] [] []]; vm_compute; congruence.
Qed.

Lemma all_plain_lower t : all_plain t = true -> all_plain (lower_string t) = true.
Proof.
  induction t as [|c t IH]; [reflexivity|]. simpl.
  rewrite !andb_true_iff. intros [Hc Ht]. split; [now apply lower_plain | auto].
Qed.

Lemma lower_string_append a b :
  lower_string (a +:+ b) = lower_string a +:+ lower_string b.
Proof.
  induction a as [|c a IH]; [reflexivity|].
  rewrite append_cons. simpl. now rewrite IH, append_cons.
Qed.

(** For a term without [%], [_] and backslash, the pattern the handler
    builds matches the hashes that contain the term, letter case aside. *)
Lemma ilike_infix t h :
  all_plain t = true ->
  ilike ("%" +:+ t +:+ "%") h = JS.includes (lower_string t) (lower_string h).
Proof.
  intros Ht. unfold ilike.
  rewrite !lower_string_append.
  change (lower_string "%") with "%".
  apply like_infix, all_plain_lower, Ht.
Qed.

Lemma search_fields_distinct : NoDup (field <$> search_chains).
Proof. compute_done. Qed.

Lemma term_chain_ok raw s :
  raw !! "term" = Some s -> (3 <= String.length s)%nat ->
  (run_chain term_chain (VStr <$> raw)).1 = []
  /\ get (run_chain term_chain (VStr <$> raw)).2 "term" = VStr s.
Proof.
  intros E L. unfold run_chain, skipped. simpl. rewrite get_raw, E. simpl.
  unfold standard, Validator.isLength. simpl.
  revert L. destruct (String.length s) as [|[|[|n]]]; intros L; try lia.
  split; [reflexivity | apply get_insert].
Qed.

Lemma term_chain_short raw :
  (forall s, raw !! "term" = Some s -> (String.length s < 3)%nat) ->
  (run_chain term_chain (VStr <$> raw)).1 <> [].
Proof.
  intros H. unfold run_chain, skipped. simpl. rewrite get_raw.
  destruct (raw !! "term") as [s|] eqn:E; simpl; [|discriminate].
  unfold standard, Validator.isLength. simpl.
  specialize (H s eq_refl). revert H.
  destruct (String.length s) as [|[|[|n]]]; intros H; try lia; discriminate.
Qed.

(** A search term shorter than three characters, or none, is a validation
    error and no query is issued. *)
Lemma search_short_term pool raw :
  (forall s, raw !! "term" = Some s -> (String.length s < 3)%nat) ->
  status (response (serve search_route pool raw)) = 400
  /\ issued (serve search_route pool raw) = [].
Proof.
  intros H. rewrite serve_rejects; [split; reflexivity|].
  rewrite run_chains_errors by apply search_fields_distinct.
  change (chains search_route)
    with [term_chain; toInt (isInt (Some 1) (Some 100) (optional (query "limit")))].
  cbn [flat_map]. pose proof (term_chain_short raw H) as F.
  destruct (run_chain term_chain (VStr <$> raw)).1; [congruence | discriminate].
Qed.

(** A search term of three characters or more issues the two queries with
    the pattern [%term%]. *)
Lemma search_results pool raw term limit :
  raw !! "term" = Some term -> (3 <= String.length term)%nat ->
  reads_int raw "limit" 25 limit -> 1 <= limit <= 100 ->
  Db.outage pool = None ->
  status (response (serve search_route pool raw)) = 200
  /\ rows_of (serve search_route pool raw) = search_page term limit (table pool)
  /\ issued (serve search_route pool raw) =
     [mkQuery SELECT_SEARCH [VStr ("%" +:+ term +:+ "%"); num limit];
      mkQuery COUNT_SEARCH [VStr ("%" +:+ term +:+ "%")]].
Proof.
  intros Et Lt Rl Hl Hup.
  destruct (term_chain_ok raw term Et Lt) as [E1 V1].
  destruct (int_chain_ok raw "limit" (Some 1) (Some 100) 25 limit Rl) as [E2 V2].
  { split; intros ? [= <-]; lia. }
  { left. lia. }
  pose proof (run_chains_errors search_chains (VStr <$> raw) search_fields_distinct) as E.
  pose proof (fun c => run_chains_get search_chains (VStr <$> raw) c search_fields_distinct) as G.
  unfold serve. simpl chains. simpl handler.
  destruct (run_chains search_chains (VStr <$> raw)) as [errors q] eqn:R.
  change search_chains
    with [term_chain; toInt (isInt (Some 1) (Some 100) (optional (query "limit")))] in E, G.
  cbn [flat_map] in E. rewrite E1, E2 in E. simpl in E. subst errors.
  assert (get q "term" = VStr term) as Qt.
  { rewrite <- V1. apply (G term_chain). rewrite list_elem_of_In. simpl. auto. }
  assert (JS.or (get q "limit") (num 25) = num limit) as Ql.
  { rewrite <- V2. f_equal.
    apply (G (toInt (isInt (Some 1) (Some 100) (optional (query "limit"))))).
    rewrite list_elem_of_In. simpl. auto. }
  cbn [validateRequest]. unfold search_handler. rewrite Qt, Ql.
  cbn [to_string]. unfold both, pool_query. rewrite Hup.
  unfold run. cbn [text values as_text]. unfold num. rewrite as_count_int by lia.
  rewrite first_total_of. split; [reflexivity|]. split; reflexivity.
Qed.

(** For a term without [%], [_] and backslash, the rows of a search are the
    newest [limit] of the transactions whose hash contains the term, letter
    case aside. *)
Lemma search_page_plain term limit l :
  all_plain term = true ->
  search_page term limit l =
  TxRow <$> take (Z.to_nat limit)
    (order_by_time_desc
       (filter (fun t => JS.includes (lower_string term) (lower_string (hash t))) l)).
Proof.
  intros Ht. unfold search_page. do 3 f_equal.
  apply list_filter_iff. intros t. now rewrite ilike_infix.
Qed.

(** C6 at the term [a_c].  The search answers with the transaction of hash
    [0badcafe], which does not contain [a_c]: the underscore of the term
    reaches the pattern as a wildcard. *)
Theorem search_term_underscore :
  let out := serve search_route Sample.store (Sample.request [("term", "a_c")]) in
  status (response out) = 200
  /\ issued out =
     [mkQuery SELECT_SEARCH [VStr "%a_c%"; num 25]; mkQuery COUNT_SEARCH [VStr "%a_c%"]]
  /\ TxRow Sample.t5 ∈ rows_of out
  /\ hash Sample.t5 = "0badcafe"
  /\ JS.includes (lower_string "a_c") (lower_string (hash Sample.t5)) = false.
Proof.
  cbv zeta.
  split; [vm_compute; reflexivity|]. split; [vm_compute; reflexivity|].
  split; [|split; vm_compute; reflexivity].
  replace (rows_of (serve search_route Sample.store (Sample.request [("term", "a_c")])))
    with [TxRow Sample.t5; TxRow Sample.t3; TxRow Sample.t2; TxRow Sample.t1]
    by (vm_compute; reflexivity).
  left.
Qed.

End SearchEndpoint.

(** ** The client *)

Section ClientErrors.

Import JS Http Client.

Lemma fetched_request net helper url : fetched (request net helper url) = [url].
Proof.
  unfold request. destruct (net url) as [e|r]; [reflexivity|].
  destruct (negb (ok r)).
  - destruct (this_call helper r); reflexivity.
  - destruct (payload r); reflexivity.
Qed.

(** What [handleErrorResponse] returns for a JSON error body: its [message]
    when that is truthy, else its [error] when that is truthy, else the
    generic message. *)
Lemma handleErrorResponse_json r contentType errorData :
  content_type r = Some contentType ->
  JS.includes "application/json" contentType = true ->
  payload r = Some errorData ->
  handleErrorResponse r =
  if truthy (prop "message" errorData) then prop "message" errorData
  else if truthy (prop "error" errorData) then prop "error" errorData
  else api_error r.
Proof.
  intros C I P. unfold handleErrorResponse. rewrite C, I, P.
  destruct contentType; [discriminate|]. reflexivity.
Qed.

(** Without a JSON content type, or without a JSON body, it returns the
    generic message. *)
Lemma handleErrorResponse_other r :
  (forall contentType, content_type r = Some contentType ->
     JS.includes "application/json" contentType = false) \/ payload r = None ->
  handleErrorResponse r = api_error r.
Proof.
  intros H. unfold handleErrorResponse.
  destruct (content_type r) as [c|]; [|reflexivity].
  destruct (negb (String.eqb c EmptyString) && JS.includes "application/json" c) eqn:E;
    [|reflexivity].
  apply andb_true_iff in E as [_ E].
  destruct H as [H | ->]; [|reflexivity].
  rewrite (H c eq_refl) in E. discriminate.
Qed.

(** The generic message holds the status code. *)
Lemma api_error_names_status r :
  JS.includes (pretty (code r)) (text_of (api_error r)) = true.
Proof.
  unfold api_error, text_of, JString, to_string.
  generalize (pretty (code r)). intros s.
  change ("API error: " +:+ s) with
    (String "A" (String "P" (String "I" (String " " (String "e" (String "r" (String "r"
      (String "o" (String "r" (String ":" (String " " s))))))))))).
  assert (forall t, starts_with t t = true) as R.
  { induction t as [|c t IH]; [reflexivity|]. simpl. now rewrite Ascii.eqb_refl. }
  assert (includes s s = true) as I.
  { destruct s; simpl; [reflexivity|]. now rewrite Ascii.eqb_refl, R. }
  cbn [includes]. rewrite I. now rewrite !orb_true_r.
Qed.

(** The two methods that name [handleErrorResponse] reject a response that
    is not a success with the message that helper extracts. *)
Lemma search_error_message net term limit offset r :
  net ("/api/transactions/search?term=" +:+ encodeURIComponent (to_string term)
       +:+ "&limit=" +:+ to_string (arg limit 25)) = inr r ->
  ok r = false ->
  settled (searchTransactions net term limit offset) = inl (Error (handleErrorResponse r)).
Proof.
  intros N K. unfold searchTransactions, request. rewrite N, K. reflexivity.
Qed.

(** The two methods that name [handleResponseError], which the class does
    not define, reject every response that is not a success with the same
    type error, whatever its body. *)
Lemma getTransactions_any_error net limit offset r :
  net ("/api/transactions?limit=" +:+ to_string (arg limit 25)
       +:+ "&offset=" +:+ to_string (arg offset 0)) = inr r ->
  ok r = false ->
  settled (getTransactions net limit offset) =
  inl (TypeError "this.handleResponseError is not a function").
Proof.
  intros N K. unfold getTransactions, request. rewrite N, K. reflexivity.
Qed.

(** C8 at a response of status 500 with the JSON body [{ message: "boom" }].
    [searchTransactions] and [getTransactionsByTime] reject with the message
    [boom]; [getTransactions] and [getTransactionsByDateRange] reject with a
    type error, because they call [handleResponseError], a method the class
    does not have. *)
Theorem getTransactions_error_message :
  settled (searchTransactions Sample.failing_net (VStr "abc") (Server.num 25) (Server.num 0))
  = inl (JS.mkError "boom" None None)
  /\ settled (getTransactionsByTime Sample.failing_net (VStr "1 day") (Server.num 50))
     = inl (JS.mkError "boom" None None)
  /\ settled (getTransactions Sample.failing_net (Server.num 25) (Server.num 0))
     = inl (JS.mkError "this.handleResponseError is not a function" None None)
  /\ settled (getTransactionsByDateRange Sample.failing_net
                (VStr "2024-01-01") (VStr "2024-01-31") (Server.num 25) (Server.num 0))
     = inl (JS.mkError "this.handleResponseError is not a function" None None).
Proof.
  repeat split; vm_compute; reflexivity.
Qed.

(** C10.  [searchTransactions] takes an offset and leaves it out of the URL
    it fetches: the URL is made of the term and the limit, and two calls that
    differ in the offset only fetch the same URL and settle the same way. *)
Theorem searchTransactions_ignores_offset
    (net : Net) (term limit offset offset' : JS.value) :
  fetched (searchTransactions net term limit offset) =
    ["/api/transactions/search?term=" +:+ encodeURIComponent (to_string term)
     +:+ "&limit=" +:+ to_string (arg limit 25)]
  /\ fetched (searchTransactions net term limit offset)
     = fetched (searchTransactions net term limit offset')
  /\ searchTransactions net term limit offset = searchTransactions net term limit offset'.
Proof.
  unfold searchTransactions. rewrite !fetched_request.
  split; [reflexivity|]. split; reflexivity.
Qed.

End ClientErrors.

(** ** Scenarios on the sample table *)

Section Scenarios.

Import JS Http Express Server Server.Router.




(** GET /api/transactions/by-time?interval=2 days *)
Lemma by_time_interval_rejected_witness :
  status (response (serve by_time_route Sample.store
                      (Sample.request [("interval", "2 days")]))) = 400
  /\ issued (serve by_time_route Sample.store (Sample.request [("interval", "2 days")])) = [].
Proof.
  destruct (by_time_interval_rejected Sample.store (Sample.request [("interval", "2 days")]))
    as (_ & S & I & _).
  - intros v H. vm_compute in H. injection H as <-. compute_done.
  - split; assumption.
Defined.

(** One request that is valid on the three list routes. *)
Lemma success_bodies_witness :
  let raw := Sample.request [("start", "1970-01-01"); ("end", "1970-01-02");
                             ("term", "abc"); ("limit", "2")] in
  has_envelope (body (response (serve list_route Sample.store raw)))
  /\ has_envelope (body (response (serve range_route Sample.store raw)))
  /\ has_rows_and_count (body (response (serve search_route Sample.store raw))).
Proof.
  intros raw.
  destruct (success_bodies Sample.store raw) as (L & R & S).
  split; [apply L; vm_compute; reflexivity|].
  split; [apply R; vm_compute; reflexivity|].
  apply S. vm_compute. reflexivity.
Defined.

(** C3 as stated, at the search for [abc]: the success body has no
    pagination block. *)
Lemma search_body_without_pagination :
  let out := serve search_route Sample.store (Sample.request [("term", "abc")]) in
  status (response out) = 200
  /\ keys (body (response out)) = ["rows"; "totalCount"]
  /\ Http.field "pagination" (body (response out)) = None
  /\ ~ has_envelope (body (response out)).
Proof.
  cbv zeta.
  split; [vm_compute; reflexivity|].
  split; [vm_compute; reflexivity|].
  split; [vm_compute; reflexivity|].
  intros (K & _). vm_compute in K. discriminate.
Qed.

(** A hash no transaction has, and a hash one transaction has. *)
Lemma lookup_by_hash_witness :
  status (response (transaction_by_hash Sample.store "cafebabe")) = 404
  /\ body (response (transaction_by_hash Sample.store "cafebabe")) = not_found
  /\ exists t, body (response (transaction_by_hash Sample.store "deadbeef"))
               = JRow (Db.TxRow t).
Proof.
  destruct (lookup_by_hash Sample.store "cafebabe" eq_refl) as (_ & Missing & _).
  destruct (lookup_by_hash Sample.store "deadbeef" eq_refl) as (_ & _ & Found).
  destruct Missing as [S B].
  { intros t Ht. unfold Sample.store, Sample.table in Ht. simpl in Ht.
    repeat (apply elem_of_cons in Ht as [-> | Ht]; [vm_compute; discriminate|]).
    inversion Ht. }
  destruct Found as (t & _ & B' & _).
  { exists Sample.t4. split; [|reflexivity].
    unfold Sample.store, Sample.table. simpl. set_solver. }
  split; [assumption|]. split; [assumption|]. now exists t.
Defined.

(** GET /api/transactions?limit=0&offset=-1: both parameters fail and both
    are reported. *)
Lemma validation_batch_witness :
  let raw := Sample.request [("limit", "0"); ("offset", "-1")] in
  issued (serve list_route Sample.store raw) = []
  /\ status (response (serve list_route Sample.store raw)) = 400
  /\ exists details,
       body (response (serve list_route Sample.store raw)) = validation_failed details
       /\ (exists e, e ∈ details /\ path e = "limit")
       /\ (exists e, e ∈ details /\ path e = "offset").
Proof.
  intros raw.
  assert (fails (toInt (isInt (Some 1) (Some 100) (optional (query "limit")))) raw) as Fl
    by (vm_compute; discriminate).
  assert (fails (toInt (isInt (Some 0) None (optional (query "offset")))) raw) as Fo
    by (vm_compute; discriminate).
  destruct (validation_batch list_route Sample.store raw) as (I & S & details & B & All).
  - unfold validated_routes. left.
  - eexists. split; [|exact Fl]. simpl. left.
  - split; [assumption|]. split; [assumption|].
    exists details. split; [assumption|]. split.
    + apply (All _ ltac:(simpl; left) Fl).
    + apply (All _ ltac:(simpl; right; left) Fo).
Defined.

End Scenarios.

(** * Further properties of the code *)

(** ** Paging through GET /api/transactions *)

Section ListPaging.

Import JS Http Express Server Server.Router.

Lemma rows_of_list pool raw limit offset :
  Db.outage pool = None ->
  reads_int raw "limit" 25 limit -> 1 <= limit <= 100 ->
  reads_int raw "offset" 0 offset -> 0 <= offset ->
  status (response (serve list_route pool raw)) = 200
  /\ rows_of (serve list_route pool raw) = page limit offset (Db.table pool)
  /\ Http.field "totalCount" (body (response (serve list_route pool raw)))
     = Some (JNumber (int (Z.of_nat (length (Db.table pool))))).
Proof.
  intros Hup Rl Hl Ro Ho.
  destruct (serve_list_ok pool raw limit offset Hup Rl Hl Ro Ho)
    as (q & _ & _ & -> & Ql & Qo).
  rewrite (list_handler_ok pool q limit offset Hup Ql Qo) by lia.
  repeat split.
Qed.

Lemma order_by_time_desc_length l : length (Db.order_by_time_desc l) = length l.
Proof. apply Permutation_length, order_by_time_desc_perm. Qed.

(** X1.  A valid request to the list route whose offset, a safe integer,
    is at or beyond the number of transactions is no error: the answer has
    status 200, no rows, and the true total. *)
Theorem list_offset_beyond_end (pool : Db.Pool) (raw : gmap string string)
    (limit offset : Z) :
  Db.outage pool = None ->
  reads_int raw "limit" 25 limit -> 1 <= limit <= 100 ->
  reads_int raw "offset" 0 offset ->
  Z.of_nat (length (Db.table pool)) <= offset <= MAX_SAFE_INTEGER ->
  status (response (serve list_route pool raw)) = 200
  /\ rows_of (serve list_route pool raw) = []
  /\ Http.field "totalCount" (body (response (serve list_route pool raw)))
     = Some (JNumber (int (Z.of_nat (length (Db.table pool))))).
Proof.
  intros Hup Rl Hl Ro [Ho Hsafe].
  destruct (rows_of_list pool raw limit offset Hup Rl Hl Ro ltac:(lia)) as (S & R & T).
  split; [assumption|]. split; [|assumption].
  rewrite R. unfold page. rewrite drop_ge; [now rewrite take_nil|].
  rewrite order_by_time_desc_length. lia.
Qed.

Lemma list_request_limit limit offset dflt :
  0 <= limit -> reads_int (list_request limit offset) "limit" dflt limit.
Proof.
  intros H. apply reads_int_pretty; [assumption|].
  unfold list_request. now rewrite lookup_insert_eq.
Qed.

Lemma list_request_offset limit offset dflt :
  0 <= offset -> reads_int (list_request limit offset) "offset" dflt offset.
Proof.
  intros H. apply reads_int_pretty; [assumption|].
  unfold list_request. rewrite lookup_insert_ne by discriminate.
  now rewrite lookup_insert_eq.
Qed.

Lemma pages_concat {A} (l : nat) (L : list A) n :
  flat_map (fun k => take l (drop (k * l) L)) (seq 0 n) = take (n * l) L.
Proof.
  induction n as [|n IH]; [reflexivity|].
  rewrite seq_S, flat_map_app, IH. simpl. rewrite app_nil_r.
  rewrite take_take_drop. f_equal. lia.
Qed.

Lemma sorted_distinct_times l :
  StronglySorted newest_first l -> NoDup (Db.time <$> l) -> StronglySorted newer_first l.
Proof.
  induction 1 as [|t l S IH F]; intros N; [constructor|].
  rewrite fmap_cons in N. apply NoDup_cons in N as [Nt N].
  constructor; [now apply IH|].
  rewrite Forall_forall in F |- *. intros u Hu.
  specialize (F u Hu). unfold newest_first in F. unfold newer_first.
  destruct (Z.eq_dec (Db.time u) (Db.time t)) as [E|]; [|lia].
  exfalso. apply Nt. rewrite <- E. now apply list_elem_of_fmap_2.
Qed.

(** X2.  On a table of at most [MAX_SAFE_INTEGER] transactions with
    pairwise different times, a client that asks the list route for the
    pages 0, 1, ... with a fixed limit, as many pages as the body's
    totalPages says, receives every transaction of the table exactly once,
    each one before all the older ones. *)
Theorem list_pages_cover_table (pool : Db.Pool) (limit : Z) :
  Db.outage pool = None -> 1 <= limit <= 100 ->
  Z.of_nat (length (Db.table pool)) <= MAX_SAFE_INTEGER ->
  NoDup (Db.time <$> Db.table pool) ->
  let total := Z.of_nat (length (Db.table pool)) in
  let totalPages := - ((- total) / limit) in
  Math_ceil (div (int total) (int limit)) = int totalPages
  /\ exists received,
       walk pool limit (Z.to_nat totalPages) = Db.TxRow <$> received
       /\ received ≡ₚ Db.table pool
       /\ StronglySorted newer_first received.
Proof.
  intros Hup Hl Hsafe Hnd total totalPages.
  split; [apply ceil_div_int; lia|].
  exists (Db.order_by_time_desc (Db.table pool)).
  split; [|split].
  2: apply order_by_time_desc_perm.
  2: { apply sorted_distinct_times; [apply order_by_time_desc_sorted|].
       now rewrite (order_by_time_desc_perm (Db.table pool)). }
  unfold walk.
  rewrite (flat_map_agree _
             (fun k => Db.TxRow <$> take (Z.to_nat limit)
                         (drop (k * Z.to_nat limit) (Db.order_by_time_desc (Db.table pool))))).
  - assert (forall n, flat_map (fun k => Db.TxRow <$> take (Z.to_nat limit)
                         (drop (k * Z.to_nat limit) (Db.order_by_time_desc (Db.table pool))))
                        (seq 0 n)
                      = Db.TxRow <$> take (n * Z.to_nat limit)
                          (Db.order_by_time_desc (Db.table pool))) as E.
    { intros n. rewrite <- pages_concat.
      induction (seq 0 n) as [|k ks IH]; [reflexivity|].
      simpl. now rewrite fmap_app, IH. }
    rewrite E, take_ge; [reflexivity|].
    rewrite order_by_time_desc_length.
    pose proof (ceiling_pages total limit ltac:(lia)) as C. cbv zeta in C.
    fold totalPages in C. subst total. nia.
  - intros k _.
    destruct (rows_of_list pool (list_request limit (Z.of_nat k * limit)) limit
                (Z.of_nat k * limit) Hup) as (_ & R & _).
    + apply list_request_limit. lia.
    + assumption.
    + apply list_request_offset. nia.
    + nia.
    + rewrite R. unfold page. do 3 f_equal. nia.
Qed.

End ListPaging.

(** ** Headers and bodies *)

Section HeadersAndBodies.

Import JS Http Express Server Server.Router.

(** X3.  GET /api/transactions with a limit in range and an offset up to
    2^45: the headers X-Total-Count, X-Total-Pages and X-Per-Page carry the
    body's totalCount, pagination.totalPages and pagination.limit; the
    header X-Current-Page carries the body's pagination.currentPage exactly
    when limit divides offset.  (Up to 2^45 the quotient that the engine
    rounds stays apart from the whole numbers, see [header_rounded]; nearer
    to 2^53 a quotient with a fraction can round to the body's page.) *)
Theorem list_headers_mirror (pool : Db.Pool) (raw : gmap string string)
    (limit offset : Z) :
  Db.outage pool = None ->
  reads_int raw "limit" 25 limit -> 1 <= limit <= 100 ->
  reads_int raw "offset" 0 offset -> 0 <= offset <= 2 ^ 45 ->
  let r := response (serve list_route pool raw) in
  exists totalCount totalPages perPage headerPage bodyPage,
    headers r !! "X-Total-Count" = Some totalCount
    /\ Http.field "totalCount" (body r) = Some (JNumber totalCount)
    /\ headers r !! "X-Total-Pages" = Some totalPages
    /\ headers r !! "X-Per-Page" = Some perPage
    /\ headers r !! "X-Current-Page" = Some headerPage
    /\ Http.field "pagination" (body r) =
       Some (JObj [("limit", JNumber perPage); ("offset", JNumber (int offset));
                   ("currentPage", JNumber bodyPage); ("totalPages", JNumber totalPages)])
    /\ (strict_eq headerPage bodyPage = true <-> offset mod limit = 0).
Proof.
  intros Hup Rl Hl Ro [Ho Hsmall] r. subst r.
  destruct (list_headers pool raw limit offset Hup Rl Hl Ro Ho) as (H1 & H2 & H3 & H4).
  destruct (serve_list_ok pool raw limit offset Hup Rl Hl Ro Ho)
    as (q & _ & _ & E & Ql & Qo).
  rewrite E in *.
  rewrite (list_handler_ok pool q limit offset Hup Ql Qo) in * by lia.
  do 5 eexists.
  split; [exact H1|]. split; [reflexivity|]. split; [exact H2|].
  split; [exact H4|]. split; [exact H3|]. split; [reflexivity|].
  apply quotient_is_page. lia.
Qed.

(** X4.  GET /api/transactions/range with both dates written YYYY-MM-DD,
    a limit in range and an offset that is a safe integer, when the store
    answers: the headers X-Total-Count, X-Total-Pages and X-Current-Page
    carry the body's totalCount, pagination.totalPages and
    pagination.currentPage, whether or not limit divides offset. *)
Theorem range_headers_mirror (pool : Db.Pool) (raw : gmap string string)
    (ds de : Calendar.Date) (limit offset : Z) :
  reads_date raw "start" ds -> reads_date raw "end" de ->
  reads_int raw "limit" 25 limit -> 1 <= limit <= 100 ->
  reads_int raw "offset" 0 offset -> 0 <= offset <= MAX_SAFE_INTEGER ->
  ~ Calendar.before de ds -> 1 <= Calendar.year ds -> Db.outage pool = None ->
  let r := response (serve range_route pool raw) in
  exists totalCount totalPages currentPage,
    status r = 200
    /\ headers r !! "X-Total-Count" = Some totalCount
    /\ Http.field "totalCount" (body r) = Some (JNumber totalCount)
    /\ headers r !! "X-Total-Pages" = Some totalPages
    /\ headers r !! "X-Current-Page" = Some currentPage
    /\ Http.field "pagination" (body r) =
       Some (JObj [("limit", JNumber (int limit)); ("offset", JNumber (int offset));
                   ("currentPage", JNumber currentPage); ("totalPages", JNumber totalPages)])
    /\ currentPage = int (offset / limit + 1).
Proof.
  intros Rs Re Rl Hl Ro [Ho Hsafe] B Y Hup r. subst r.
  destruct (serve_range_ok pool raw ds de limit offset Rs Re Rl Hl Ro Ho)
    as (q & ss & se & Eq & Gs & Rss & Ge & Rse & Ql & Qo).
  assert (Calendar.valid ds = true /\ Calendar.valid de = true) as [Vs Ve].
  { unfold reads_date in Rs, Re.
    destruct (raw !! "start"), (raw !! "end"); tauto. }
  rewrite Eq.
  rewrite (range_handler_ok pool q ss se ds de limit offset
             Gs Rss Vs Ge Rse Ve Ql Qo) by (assumption || lia).
  cbn [response headers body status].
  do 3 eexists.
  split; [reflexivity|].
  split; [simplify_map_eq; reflexivity|]. split; [reflexivity|].
  split; [simplify_map_eq; reflexivity|].
  split; [simplify_map_eq; reflexivity|].
  split; reflexivity.
Qed.

End HeadersAndBodies.

(** ** What validation lets through *)

Section ValidationExact.

Import JS Http Express Server Server.Router.

Lemma int_chain_passes_iff raw name min max :
  (run_chain (toInt (isInt min max (optional (query name)))) (VStr <$> raw)).1 = []
  <-> accepts_int raw name min max.
Proof.
  unfold run_chain, skipped, accepts_int, within. simpl. rewrite get_raw.
  destruct (raw !! name) as [s|] eqn:E; simpl; [|tauto].
  unfold standard. simpl.
  destruct (Validator.isInt min max s) eqn:Hi; simpl.
  - apply isInt_spec in Hi. tauto.
  - split; [discriminate|]. intros H. apply isInt_spec in H. congruence.
Qed.

Lemma handler_issues_two pool q :
  length (issued (list_handler pool q)) = 2%nat
  /\ (status (response (list_handler pool q)) = 200
      \/ status (response (list_handler pool q)) = 500).
Proof.
  unfold list_handler.
  destruct (both pool _ _) as [e|[rows count]] eqn:B.
  { split; [reflexivity|]. right. apply next_error_status.
    eapply both_error_status; eauto. }
  destruct (first_total count) as [e|total] eqn:T.
  { split; [reflexivity|]. right. apply next_error_status.
    eapply first_total_error_status; eauto. }
  split; [reflexivity | left; reflexivity].
Qed.

(** X5.  GET /api/transactions runs its handler exactly on the requests
    whose limit is absent or an integer from 1 to 100 and whose offset is
    absent or an integer from 0 on (a sign and leading zeros are admitted,
    an empty value or a fraction is not): those get both queries issued and
    status 200 or 500; every other request gets status 400 and no query. *)
Theorem list_validation_exact (pool : Db.Pool) (raw : gmap string string) :
  (accepts_int raw "limit" (Some 1) (Some 100) /\ accepts_int raw "offset" (Some 0) None ->
   length (issued (serve list_route pool raw)) = 2%nat
   /\ (status (response (serve list_route pool raw)) = 200
       \/ status (response (serve list_route pool raw)) = 500))
  /\ (~ (accepts_int raw "limit" (Some 1) (Some 100)
         /\ accepts_int raw "offset" (Some 0) None) ->
      issued (serve list_route pool raw) = []
      /\ status (response (serve list_route pool raw)) = 400).
Proof.
  pose proof (run_chains_errors list_chains (VStr <$> raw) list_fields_distinct) as E.
  change list_chains with
    [toInt (isInt (Some 1) (Some 100) (optional (query "limit")));
     toInt (isInt (Some 0) None (optional (query "offset")))] in E at 2.
  cbn [flat_map] in E. rewrite app_nil_r in E.
  split.
  - intros [Al Ao].
    apply int_chain_passes_iff in Al, Ao. rewrite Al, Ao in E.
    unfold serve. simpl chains. simpl handler.
    destruct (run_chains list_chains (VStr <$> raw)) as [errors q].
    simpl in E. subst errors. apply handler_issues_two.
  - intros N. rewrite serve_rejects; [split; reflexivity|].
    simpl chains. rewrite E. intros Z. apply app_eq_nil in Z as [Zl Zo].
    apply N. split; apply int_chain_passes_iff; assumption.
Qed.

Lemma date_chain_fails raw name m :
  not_a_day raw name ->
  (run_chain (withMessage m (isDate (query name))) (VStr <$> raw)).1
  = [mkValidationError "query" name m (get (VStr <$> raw) name)].
Proof.
  intros N. unfold run_chain, skipped. simpl. rewrite get_raw.
  unfold standard, Validator.isDate.
  destruct N as [-> | (s & d & -> & R & V)]; simpl; [reflexivity|].
  now rewrite R, V.
Qed.

(** X6.  GET /api/transactions/range without a start date, or with one of
    the form YYYY-MM-DD that names no day of the calendar, is answered with
    status 400 and an error for [start] that says a valid start date is
    required; no query is issued.  The same holds for the end date. *)
Theorem range_dates_required (pool : Db.Pool) (raw : gmap string string) :
  (not_a_day raw "start" ->
   status (response (serve range_route pool raw)) = 400
   /\ issued (serve range_route pool raw) = []
   /\ exists details e,
        body (response (serve range_route pool raw)) = validation_failed details
        /\ e ∈ details /\ path e = "start" /\ msg e = "Valid start date is required")
  /\ (not_a_day raw "end" ->
      status (response (serve range_route pool raw)) = 400
      /\ issued (serve range_route pool raw) = []
      /\ exists details e,
           body (response (serve range_route pool raw)) = validation_failed details
           /\ e ∈ details /\ path e = "end" /\ msg e = "Valid end date is required").
Proof.
  pose proof (run_chains_errors range_chains (VStr <$> raw) range_fields_distinct) as E.
  change range_chains with
    [withMessage "Valid start date is required" (isDate (query "start"));
     withMessage "Valid end date is required" (isDate (query "end"));
     toInt (isInt (Some 1) (Some 100) (optional (query "limit")));
     toInt (isInt (Some 0) None (optional (query "offset")))] in E at 2.
  cbn [flat_map] in E.
  split; intros N.
  - rewrite (date_chain_fails raw "start" _ N) in E.
    rewrite serve_rejects by (simpl chains; rewrite E; discriminate).
    split; [reflexivity|]. split; [reflexivity|].
    eexists. eexists. split; [reflexivity|].
    simpl chains. rewrite E. split; [left|]. split; reflexivity.
  - rewrite (date_chain_fails raw "end" _ N) in E.
    rewrite serve_rejects
      by (simpl chains; rewrite E; intros Z; apply app_eq_nil in Z as [_ Z]; discriminate).
    split; [reflexivity|]. split; [reflexivity|].
    eexists.
    exists (mkValidationError "query" "end" "Valid end date is required"
              (get (VStr <$> raw) "end")).
    split; [reflexivity|].
    simpl chains. rewrite E. split; [|split; reflexivity].
    apply elem_of_app. right. left.
Qed.

End ValidationExact.

(** ** When the store fails *)

Section StoreFailure.

Import JS Http Express Server Server.Router.

Lemma both_outage pool a b e :
  Db.outage pool = Some e -> both pool a b = inl (Db.thrown e).
Proof. intros H. unfold both, Db.pool_query. now rewrite H. Qed.

Lemma error_handler_thrown e :
  error_handler (Db.thrown e) = json 500 (store_error_body e).
Proof. reflexivity. Qed.

(** X7.  While the store is unreachable, each of the four validated routes
    answers either 400 without a query (validation, or a range whose end is
    before its start) or 500 with the message and the code of the store's
    error (a default for either when it is empty); it never answers 200 and
    never sends rows. *)
Theorem store_failure (r : Route) (pool : Db.Pool) (raw : gmap string string)
    (e : Db.DatabaseError) :
  r ∈ validated_routes ->
  Db.outage pool = Some e ->
  (status (response (serve r pool raw)) = 400 /\ issued (serve r pool raw) = [])
  \/ (response (serve r pool raw) = json 500 (store_error_body e)
      /\ issued (serve r pool raw) <> []).
Proof.
  intros Hr Hout. unfold validated_routes in Hr.
  rewrite !elem_of_cons, elem_of_nil in Hr.
  unfold serve.
  destruct (run_chains (chains r) (VStr <$> raw)) as [errors q].
  destruct errors as [|err errors]; [|left; split; reflexivity].
  cbn [validateRequest].
  destruct Hr as [-> | [-> | [-> | [-> | []]]]]; simpl handler.
  - right. unfold list_handler. rewrite (both_outage _ _ _ e Hout).
    split; [reflexivity | discriminate].
  - unfold range_handler. destruct (JS.lt _ _); [left; split; reflexivity|].
    right. rewrite (both_outage _ _ _ e Hout). split; [reflexivity | discriminate].
  - right. unfold by_time_handler, Db.pool_query. rewrite Hout.
    split; [reflexivity | discriminate].
  - right. unfold search_handler. rewrite (both_outage _ _ _ e Hout).
    split; [reflexivity | discriminate].
Qed.

End StoreFailure.

(** ** GET /api/transactions/by-time and /search when they succeed *)

Section Successes.

Import JS Http Express Server Server.Router.

Lemma by_time_fields_distinct : NoDup (field <$> by_time_chains).
Proof. compute_done. Qed.

Lemma interval_chain_ok raw interval :
  raw !! "interval" = Some interval -> interval ∈ VALID_TIME_INTERVALS ->
  (run_chain interval_chain (VStr <$> raw)).1 = []
  /\ get (run_chain interval_chain (VStr <$> raw)).2 "interval" = VStr interval.
Proof.
  intros E V. unfold run_chain, skipped. simpl. rewrite get_raw, E. simpl.
  unfold standard, Validator.isIn. simpl.
  rewrite bool_decide_eq_true_2 by exact V. simpl.
  split; [reflexivity | apply get_insert].
Qed.

(** A by-time request with an interval of the enumeration and a limit in
    range passes validation and is answered from one query. *)
Lemma serve_by_time_ok pool raw interval limit :
  raw !! "interval" = Some interval -> interval ∈ VALID_TIME_INTERVALS ->
  reads_int raw "limit" 30 limit -> 1 <= limit <= 100 ->
  Db.outage pool = None ->
  serve by_time_route pool raw =
  mkOutcome
    (json 200 (JRows (Db.BucketRow <$> take (Z.to_nat limit) (Db.time_bucket pool interval))))
    [Db.mkQuery Db.SELECT_BUCKETS [VStr interval; num limit]].
Proof.
  intros Ei Vi Rl Hl Hup.
  destruct (interval_chain_ok raw interval Ei Vi) as [E1 V1].
  destruct (int_chain_ok raw "limit" (Some 1) (Some 100) 30 limit Rl) as [E2 V2].
  { split; intros ? [= <-]; lia. }
  { left. lia. }
  pose proof (run_chains_errors by_time_chains (VStr <$> raw) by_time_fields_distinct) as E.
  pose proof (fun c => run_chains_get by_time_chains (VStr <$> raw) c by_time_fields_distinct)
    as G.
  unfold serve. simpl chains. simpl handler.
  destruct (run_chains by_time_chains (VStr <$> raw)) as [errors q] eqn:R.
  change by_time_chains
    with [interval_chain; toInt (isInt (Some 1) (Some 100) (optional (query "limit")))]
    in E, G.
  cbn [flat_map] in E. rewrite E1, E2 in E. simpl in E. subst errors.
  assert (get q "interval" = VStr interval) as Qi.
  { rewrite <- V1. apply (G interval_chain). rewrite list_elem_of_In. simpl. auto. }
  assert (JS.or (get q "limit") (num 30) = num limit) as Ql.
  { rewrite <- V2. f_equal.
    apply (G (toInt (isInt (Some 1) (Some 100) (optional (query "limit"))))).
    rewrite list_elem_of_In. simpl. auto. }
  cbn [validateRequest]. unfold by_time_handler. rewrite Qi, Ql.
  unfold Db.pool_query. rewrite Hup.
  unfold Db.run. cbn [Db.text Db.values Db.as_text]. unfold num.
  rewrite as_count_int by lia.
  reflexivity.
Qed.

(** X8.  GET /api/transactions/by-time with an interval of the enumeration
    and a limit from 1 to 100 (30 when absent), while the store answers:
    one query is issued, with the interval and the limit, and the body is
    the first [limit] buckets the store computes, so at most [limit]. *)
Theorem by_time_results (pool : Db.Pool) (raw : gmap string string)
    (interval : string) (limit : Z) :
  raw !! "interval" = Some interval -> interval ∈ VALID_TIME_INTERVALS ->
  reads_int raw "limit" 30 limit -> 1 <= limit <= 100 ->
  Db.outage pool = None ->
  exists buckets,
    serve by_time_route pool raw =
    mkOutcome (json 200 (JRows (Db.BucketRow <$> buckets)))
      [Db.mkQuery Db.SELECT_BUCKETS [VStr interval; num limit]]
    /\ buckets = take (Z.to_nat limit) (Db.time_bucket pool interval)
    /\ Z.of_nat (length buckets) <= limit.
Proof.
  intros Ei Vi Rl Hl Hup.
  eexists. split; [exact (serve_by_time_ok pool raw interval limit Ei Vi Rl Hl Hup)|].
  split; [reflexivity|]. rewrite length_take. lia.
Qed.

Lemma containing_spec term l t :
  t ∈ containing term l <->
  t ∈ l /\ exists pre post,
             Db.lower_string (Db.hash t) = pre +:+ Db.lower_string term +:+ post.
Proof.
  unfold containing. rewrite list_elem_of_filter, Is_true_true, includes_spec. tauto.
Qed.

(** X9.  GET /api/transactions/search with a term of three characters or
    more that holds no [%], [_] or backslash, and a limit from 1 to 100,
    while the store answers: the rows are the first [limit] of a listing, in
    descending order of time, of the transactions whose hash contains the
    term, letter case aside, and totalCount is the number of all such
    transactions. *)
Theorem search_plain_term (pool : Db.Pool) (raw : gmap string string)
    (term : string) (limit : Z) :
  raw !! "term" = Some term -> (3 <= String.length term)%nat ->
  all_plain term = true ->
  reads_int raw "limit" 25 limit -> 1 <= limit <= 100 ->
  Db.outage pool = None ->
  let matches := containing term (Db.table pool) in
  exists rows,
    serve search_route pool raw =
    mkOutcome
      (json 200
         (JObj [("rows", JRows rows);
                ("totalCount", JNumber (int (Z.of_nat (length matches))))]))
      [Db.mkQuery Db.SELECT_SEARCH [VStr ("%" +:+ term +:+ "%"); num limit];
       Db.mkQuery Db.COUNT_SEARCH [VStr ("%" +:+ term +:+ "%")]]
    /\ page_of limit 0 matches rows
    /\ Z.of_nat (length rows) <= limit
    /\ (forall t, t ∈ matches <->
          t ∈ Db.table pool
          /\ exists pre post,
               Db.lower_string (Db.hash t) = pre +:+ Db.lower_string term +:+ post).
Proof.
  intros Et Lt Pt Rl Hl Hup matches.
  exists (page limit 0 matches).
  split; [|split; [apply page_page_of|split; [|intros t; apply containing_spec]]].
  2: { unfold page. rewrite length_fmap, length_take. lia. }
  destruct (term_chain_ok raw term Et Lt) as [E1 V1].
  destruct (int_chain_ok raw "limit" (Some 1) (Some 100) 25 limit Rl) as [E2 V2].
  { split; intros ? [= <-]; lia. }
  { left. lia. }
  pose proof (run_chains_errors search_chains (VStr <$> raw) search_fields_distinct) as E.
  pose proof (fun c => run_chains_get search_chains (VStr <$> raw) c search_fields_distinct)
    as G.
  unfold serve. simpl chains. simpl handler.
  destruct (run_chains search_chains (VStr <$> raw)) as [errors q] eqn:R.
  change search_chains
    with [term_chain; toInt (isInt (Some 1) (Some 100) (optional (query "limit")))] in E, G.
  cbn [flat_map] in E. rewrite E1, E2 in E. simpl in E. subst errors.
  assert (get q "term" = VStr term) as Qt.
  { rewrite <- V1. apply (G term_chain). rewrite list_elem_of_In. simpl. auto. }
  assert (JS.or (get q "limit") (num 25) = num limit) as Ql.
  { rewrite <- V2. f_equal.
    apply (G (toInt (isInt (Some 1) (Some 100) (optional (query "limit"))))).
    rewrite list_elem_of_In. simpl. auto. }
  cbn [validateRequest]. unfold search_handler. rewrite Qt, Ql.
  cbn [to_string]. unfold both, Db.pool_query. rewrite Hup.
  unfold Db.run. cbn [Db.text Db.values Db.as_text]. unfold num.
  rewrite as_count_int by lia.
  rewrite first_total_of, parseInt_pretty by lia.
  assert (filter (fun t => Db.ilike ("%" +:+ term +:+ "%") (Db.hash t)) (Db.table pool)
          = matches) as F.
  { apply list_filter_iff. intros t. now rewrite ilike_infix. }
  rewrite F. reflexivity.
Qed.

End Successes.

(** ** The client's calls *)

Section ClientCalls.

Import JS Http Client.

Lemma request_error net url r :
  net url = inr r -> ok r = false ->
  settled (request net "handleErrorResponse" url) = inl (Error (handleErrorResponse r)).
Proof. intros N K. unfold request. now rewrite N, K. Qed.

(** X10.  [searchTransactions] and [getTransactionsByTime], on a response
    that is not a success and has a JSON content type and body, reject with
    an error whose message is the body's [message] if that is truthy, else
    its [error] if that is truthy, else the generic message. *)
Theorem client_error_precedence (net : Net) (r : FetchResponse)
    (contentType : string) (errorData : Json) :
  ok r = false ->
  content_type r = Some contentType ->
  JS.includes "application/json" contentType = true ->
  payload r = Some errorData ->
  (forall term limit offset,
      net (search_url term limit) = inr r ->
      settled (searchTransactions net term limit offset)
      = inl (JS.mkError (text_of (preferred_message r errorData)) None None))
  /\ (forall interval limit,
        net (by_time_url interval limit) = inr r ->
        settled (getTransactionsByTime net interval limit)
        = inl (JS.mkError (text_of (preferred_message r errorData)) None None)).
Proof.
  intros K C I P.
  pose proof (handleErrorResponse_json r contentType errorData C I P) as H.
  fold (preferred_message r errorData) in H.
  split.
  - intros term limit offset N. unfold searchTransactions.
    fold (search_url term limit). rewrite (request_error _ _ _ N K), H. reflexivity.
  - intros interval limit N. unfold getTransactionsByTime.
    fold (by_time_url interval limit). rewrite (request_error _ _ _ N K), H. reflexivity.
Qed.

(** X11.  The same two methods, on a response that is not a success and
    has no JSON content type, or a body that is not JSON, reject with the
    message [API error: ] followed by the decimal digits of the status. *)
Theorem client_generic_error (net : Net) (r : FetchResponse) :
  ok r = false ->
  (forall contentType, content_type r = Some contentType ->
     JS.includes "application/json" contentType = false) \/ payload r = None ->
  (forall term limit offset,
      net (search_url term limit) = inr r ->
      settled (searchTransactions net term limit offset)
      = inl (JS.mkError ("API error: " +:+ pretty (code r)) None None))
  /\ (forall interval limit,
        net (by_time_url interval limit) = inr r ->
        settled (getTransactionsByTime net interval limit)
        = inl (JS.mkError ("API error: " +:+ pretty (code r)) None None)).
Proof.
  intros K H.
  pose proof (handleErrorResponse_other r H) as E.
  split.
  - intros term limit offset N. unfold searchTransactions.
    fold (search_url term limit). rewrite (request_error _ _ _ N K), E. reflexivity.
  - intros interval limit N. unfold getTransactionsByTime.
    fold (by_time_url interval limit). rewrite (request_error _ _ _ N K), E. reflexivity.
Qed.

Lemma request_once net helper url :
  fetched (request net helper url) = [url]
  /\ (forall e, net url = inl e -> settled (request net helper url) = inl e)
  /\ (forall r data, net url = inr r -> ok r = true -> payload r = Some data ->
        settled (request net helper url) = inr data).
Proof.
  split; [apply fetched_request|]. unfold request. split.
  - intros e ->. reflexivity.
  - intros r data -> K ->. rewrite K. reflexivity.
Qed.

(** X12.  Each of the four methods fetches one URL and no more, whatever
    the outcome.  When the fetch itself fails the method rejects with that
    very error; when the response is a success with a JSON body the method
    resolves with that body. *)
Theorem client_single_attempt (net : Net) (a b c d : JS.value) (call : Call) :
  call ∈ [getTransactions net a b; getTransactionsByDateRange net a b c d;
          searchTransactions net a b c; getTransactionsByTime net a b] ->
  exists url,
    fetched call = [url]
    /\ (forall e, net url = inl e -> settled call = inl e)
    /\ (forall r data, net url = inr r -> ok r = true -> payload r = Some data ->
          settled call = inr data).
Proof.
  rewrite !elem_of_cons, elem_of_nil.
  intros [-> | [-> | [-> | [-> | []]]]]; eexists; apply request_once.
Qed.

End ClientCalls.

(** ** encodeURIComponent *)

Section Encoding.

Import Client.

Lemma hex_digit_code n :
  (n < 16)%N ->
  N_of_ascii (hex_digit n) = (if (n <? 10)%N then 48 + n else 55 + n)%N.
Proof.
  intros H. unfold hex_digit.
  destruct (n <? 10)%N eqn:E; apply N_ascii_embedding; [apply N.ltb_lt in E|]; lia.
Qed.

Lemma hex_digit_inj a b :
  (a < 16)%N -> (b < 16)%N -> hex_digit a = hex_digit b -> a = b.
Proof.
  intros Ha Hb E. apply (f_equal N_of_ascii) in E.
  rewrite !hex_digit_code in E by assumption.
  destruct (N.ltb_spec a 10), (N.ltb_spec b 10); lia.
Qed.

Lemma hex_digit_unreserved n : (n < 16)%N -> unreserved (hex_digit n) = true.
Proof.
  intros H. destruct n as [|p]; [reflexivity|].
  do 4 (destruct p as [p|p|]; try reflexivity; try lia).
Qed.

Lemma ascii_code_bound c : (N_of_ascii c < 256)%N.
Proof. apply N_ascii_bounded. Qed.

Lemma percent_reserved : unreserved "%" = false.
Proof. reflexivity. Qed.

Lemma encodeURIComponent_chars s :
  all_chars (fun c => unreserved c || Ascii.eqb c "%") (encodeURIComponent s) = true.
Proof.
  induction s as [|c r IH]; [reflexivity|]. simpl.
  destruct (unreserved c) eqn:U; simpl.
  - now rewrite U, IH.
  - pose proof (ascii_code_bound c) as B.
    rewrite !hex_digit_unreserved, IH; [reflexivity| |].
    + apply N.mod_lt. lia.
    + apply N.Div0.div_lt_upper_bound. lia.
Qed.

Lemma encodeURIComponent_inj s t : encodeURIComponent s = encodeURIComponent t -> s = t.
Proof.
  revert t. induction s as [|c r IH]; intros [|d t] E; simpl in E.
  - reflexivity.
  - destruct (unreserved d); discriminate.
  - destruct (unreserved c); discriminate.
  - destruct (unreserved c) eqn:Uc, (unreserved d) eqn:Ud.
    + injection E as -> E. f_equal. now apply IH.
    + injection E as -> _. rewrite percent_reserved in Uc. discriminate.
    + injection E as <- _. rewrite percent_reserved in Ud. discriminate.
    + injection E as Eh El E.
      pose proof (ascii_code_bound c) as Bc. pose proof (ascii_code_bound d) as Bd.
      apply hex_digit_inj in Eh;
        [|apply N.Div0.div_lt_upper_bound; lia|apply N.Div0.div_lt_upper_bound; lia].
      apply hex_digit_inj in El; [|apply N.mod_lt; lia|apply N.mod_lt; lia].
      assert (N_of_ascii c = N_of_ascii d) as Ecd.
      { rewrite (N.div_mod (N_of_ascii c) 16), (N.div_mod (N_of_ascii d) 16) by lia.
        now rewrite Eh, El. }
      f_equal; [|now apply IH].
      rewrite <- (ascii_N_embedding c), <- (ascii_N_embedding d). now rewrite Ecd.
Qed.

Lemma append_cancel_l p a b : p +:+ a = p +:+ b -> a = b.
Proof.
  induction p as [|c p IH]; [now rewrite !append_nil_l|].
  rewrite !append_cons. intros [= E]. now apply IH.
Qed.

Lemma append_length a b : String.length (a +:+ b) = (String.length a + String.length b)%nat.
Proof.
  induction a as [|c a IH]; [now rewrite append_nil_l|].
  rewrite append_cons. simpl. now rewrite IH.
Qed.

Lemma append_cancel_r a b c : a +:+ c = b +:+ c -> a = b.
Proof.
  revert b. induction a as [|x a IH]; intros [|y b] E.
  - reflexivity.
  - apply (f_equal String.length) in E. rewrite !append_length in E. simpl in E. lia.
  - apply (f_equal String.length) in E. rewrite !append_length in E. simpl in E. lia.
  - rewrite !append_cons in E. injection E as -> E. f_equal. now apply IH.
Qed.

(** X13.  In the URL [searchTransactions] fetches, the term is written with
    nothing but letters, digits, the nine marks [- _ . ! ~ * ' ( )] and the
    percent sign, so a term cannot add a parameter of its own; and calls
    with different terms and the same limit fetch different URLs. *)
Theorem searchTransactions_term_encoded (net : Net) (limit : JS.value) :
  (forall term offset,
     exists written,
       fetched (searchTransactions net (JS.VStr term) limit offset)
       = ["/api/transactions/search?term=" +:+ written
          +:+ "&limit=" +:+ JS.to_string (arg limit 25)]
       /\ all_chars (fun c => unreserved c || Ascii.eqb c "%") written = true)
  /\ (forall s t offset offset',
        fetched (searchTransactions net (JS.VStr s) limit offset)
        = fetched (searchTransactions net (JS.VStr t) limit offset') ->
        s = t).
Proof.
  split.
  - intros term offset. exists (encodeURIComponent term). split.
    + unfold searchTransactions. now rewrite fetched_request.
    + apply encodeURIComponent_chars.
  - intros s t offset offset' E. unfold searchTransactions in E.
    rewrite !fetched_request in E. injection E as E.
    cbn [JS.to_string] in E.
    apply append_cancel_l, append_cancel_r in E.
    now apply encodeURIComponent_inj.
Qed.

End Encoding.

(** ** The flat routes *)

Section LegacyRoutes.

Import JS Http Server.

Lemma digit_not_x c d :
  digit_of c = Some d -> Ascii.eqb c "x" || Ascii.eqb c "X" = false.
Proof.
  destruct c as [[] [] [] [] [] [] [] []]; vm_compute; congruence.
Qed.

Lemma strip_hex_digits s v :
  Calendar.digits_value 0 s = Some v -> Legacy.strip_hex s = None.
Proof.
  destruct s as [|z [|x r]]; try reflexivity. simpl.
  destruct (digit_of z) as [dz|]; [|discriminate].
  destruct (digit_of x) as [dx|] eqn:Ex; [|discriminate].
  intros _. rewrite (digit_not_x x dx Ex). now rewrite andb_false_r.
Qed.

(** On a string the integer pattern admits, [parseInt] without a radix reads
    the integer the string denotes: such a string has no [0x]. *)
Lemma legacy_parseInt_int_regex s :
  Validator.int_regex s = true ->
  Legacy.parseInt_string s = int (Validator.int_value s).
Proof.
  intros H. destruct (int_regex_value s H) as (v & Hv & Hne & Hval).
  rewrite Hval. unfold Legacy.parseInt_string.
  destruct (split_sign_cases s) as [(r & -> & Hs) | [(r & -> & Hs) | (Hs & _)]].
  - rewrite Hs in *. simpl in Hv, Hne.
    change (skip_white (String "-" r)) with (String "-" r). rewrite Hs.
    now rewrite (strip_hex_digits r v Hv), (digits_value_prefix_none r v Hne Hv).
  - rewrite Hs in *. simpl in Hv, Hne.
    change (skip_white (String "+" r)) with (String "+" r). rewrite Hs.
    now rewrite (strip_hex_digits r v Hv), (digits_value_prefix_none r v Hne Hv).
  - rewrite Hs in *. simpl in Hv, Hne.
    rewrite (skip_white_digits s v Hne Hv), Hs.
    now rewrite (strip_hex_digits s v Hv), (digits_value_prefix_none s v Hne Hv).
Qed.

Lemma legacy_parseInt_pretty n : 0 <= n -> Legacy.parseInt (VStr (pretty n)) = int n.
Proof.
  intros Hn. destruct (digits_pretty n Hn) as [Hne Hd].
  unfold Legacy.parseInt, Legacy.parseInt_string.
  rewrite (skip_white_digits _ _ Hne Hd).
  destruct (split_sign_cases (pretty n)) as [(r & E & _) | [(r & E & _) | (Hs & _)]].
  - rewrite E in Hd. discriminate.
  - rewrite E in Hd. discriminate.
  - rewrite Hs. now rewrite (strip_hex_digits _ _ Hd), (digits_value_prefix_none _ _ Hne Hd).
Qed.

(** An integer parameter as the flat routes read it. *)
Lemma legacy_param raw name d n :
  reads_int raw name d n ->
  Legacy.parseInt (JS.or (Express.get (Legacy.query_of raw) name) (num d)) = int n.
Proof.
  unfold reads_int, Legacy.query_of. rewrite get_raw.
  destruct (raw !! name) as [s|].
  - intros [Hr Hv]. unfold JS.or. cbn [truthy].
    destruct s as [|c r]; [discriminate|]. cbn [String.eqb negb].
    cbn [Legacy.parseInt]. rewrite <- Hv. now apply legacy_parseInt_int_regex.
  - intros ->. unfold JS.or. cbn [truthy Legacy.parseInt]. apply parseInt_num.
Qed.

Lemma legacy_transactions_ok pool raw limit offset :
  Db.outage pool = None ->
  reads_int raw "limit" 25 limit -> 0 <= limit ->
  reads_int raw "offset" 0 offset -> 0 <= offset ->
  Legacy.transactions pool raw =
  mkOutcome
    (json 200 (JObj [("rows", JRows (page limit offset (Db.table pool)));
                     ("totalCount", JNumber (int (Z.of_nat (length (Db.table pool)))))]))
    [Db.mkQuery Db.SELECT_PAGE [num limit; num offset]; Db.mkQuery Db.COUNT_ALL []].
Proof.
  intros Hup Rl Hl Ro Ho. unfold Legacy.transactions.
  rewrite (legacy_param raw "limit" 25 limit Rl), (legacy_param raw "offset" 0 offset Ro).
  unfold both, Db.pool_query. rewrite Hup.
  unfold Db.run. cbn [Db.text Db.values].
  rewrite !as_count_int by lia.
  rewrite first_total_of, legacy_parseInt_pretty by lia.
  reflexivity.
Qed.

(** X14.  The flat GET /api/transactions honours every limit and offset
    that is a safe integer, from 0 on, without the upper bound of 100 of the
    validated route: it answers 200 with a page of [limit] rows from row
    [offset] of a listing of the table in descending order of time, and the
    total, in a body of [rows] and [totalCount] alone and without
    pagination headers; a limit of 0 gives no rows. *)
Theorem legacy_list_unbounded (pool : Db.Pool) (raw : gmap string string)
    (limit offset : Z) :
  Db.outage pool = None ->
  reads_int raw "limit" 25 limit -> 0 <= limit <= MAX_SAFE_INTEGER ->
  reads_int raw "offset" 0 offset -> 0 <= offset <= MAX_SAFE_INTEGER ->
  let out := Legacy.transactions pool raw in
  status (response out) = 200
  /\ headers (response out) = ∅
  /\ keys (body (response out)) = ["rows"; "totalCount"]
  /\ page_of limit offset (Db.table pool) (rows_of out)
  /\ Z.of_nat (length (rows_of out)) <= limit
  /\ Http.field "totalCount" (body (response out))
     = Some (JNumber (int (Z.of_nat (length (Db.table pool)))))
  /\ (limit = 0 -> rows_of out = []).
Proof.
  intros Hup Rl [Hl Hlsafe] Ro [Ho Hosafe] out. subst out.
  rewrite (legacy_transactions_ok pool raw limit offset Hup Rl Hl Ro Ho).
  do 3 (split; [reflexivity|]).
  split; [apply page_page_of|].
  split.
  { change (Z.of_nat (length (page limit offset (Db.table pool))) <= limit).
    unfold page. rewrite length_fmap, length_take. lia. }
  split; [reflexivity|]. intros ->. reflexivity.
Qed.

(** X15.  On every request the validated list route accepts and whose
    offset is a safe integer, the flat GET /api/transactions issues the same
    two queries and sends the same totalCount as the validated route, and,
    on a table of pairwise different times, where the order of the rows is
    not the store's choice, the same rows. *)
Theorem legacy_list_agrees (pool : Db.Pool) (raw : gmap string string)
    (limit offset : Z) :
  Db.outage pool = None ->
  reads_int raw "limit" 25 limit -> 1 <= limit <= 100 ->
  reads_int raw "offset" 0 offset -> 0 <= offset <= MAX_SAFE_INTEGER ->
  issued (Legacy.transactions pool raw) = issued (Router.serve Router.list_route pool raw)
  /\ (NoDup (Db.time <$> Db.table pool) ->
      rows_of (Legacy.transactions pool raw)
      = rows_of (Router.serve Router.list_route pool raw))
  /\ Http.field "totalCount" (body (response (Legacy.transactions pool raw)))
     = Http.field "totalCount" (body (response (Router.serve Router.list_route pool raw))).
Proof.
  intros Hup Rl Hl Ro [Ho Hsafe].
  rewrite (legacy_transactions_ok pool raw limit offset Hup Rl ltac:(lia) Ro Ho).
  destruct (serve_list_ok pool raw limit offset Hup Rl Hl Ro Ho)
    as (q & _ & _ & -> & Ql & Qo).
  rewrite (list_handler_ok pool q limit offset Hup Ql Qo) by lia.
  split; [reflexivity|]. split; reflexivity.
Qed.

(** X16.  The flat GET /api/transactions validates nothing: a limit that
    [parseInt] cannot read, or reads as a negative number, reaches the store
    in the query, and the answer is status 500 with the error
    [Error fetching from the database], not 400. *)
Theorem legacy_list_bad_limit (pool : Db.Pool) (raw : gmap string string) (s : string) :
  raw !! "limit" = Some s -> s <> EmptyString ->
  Legacy.parseInt_string s = NaN \/ (exists n, n < 0 /\ Legacy.parseInt_string s = int n) ->
  let out := Legacy.transactions pool raw in
  status (response out) = 500
  /\ Http.field "error" (body (response out))
     = Some (JString "Error fetching from the database")
  /\ length (issued out) = 2%nat
  /\ rows_of out = [].
Proof.
  intros E Hne Hbad out. subst out. unfold Legacy.transactions, Legacy.query_of.
  rewrite !get_raw, E.
  assert (JS.or (VStr s) (num 25) = VStr s) as O.
  { unfold JS.or. cbn [truthy]. destruct s; [congruence | reflexivity]. }
  rewrite O. cbn [Legacy.parseInt].
  assert (forall q, Db.pool_query pool
            (Db.mkQuery Db.SELECT_PAGE [VNum (Legacy.parseInt_string s); q])
          = Db.Failed (default Db.bad_parameter (Db.outage pool))) as F.
  { intros q. unfold Db.pool_query. destruct (Db.outage pool); [reflexivity|].
    unfold Db.run. cbn [Db.text Db.values default].
    destruct Hbad as [-> | (n & Hn & ->)]; [reflexivity|].
    assert (Db.as_count (VNum (int n)) = None) as C.
    { unfold Db.as_count, int. rewrite Qred_int. simpl.
      destruct (Z.leb_spec 0 n); [lia | reflexivity]. }
    now rewrite C. }
  unfold both. rewrite F. repeat split.
Qed.

Lemma truthy_nonempty s : s <> EmptyString -> truthy (VStr s) = true.
Proof. intros H. cbn [truthy]. destruct s; [congruence | reflexivity]. Qed.

Lemma legacy_search_ok pool raw term limit :
  raw !! "term" = Some term -> term <> EmptyString ->
  reads_int raw "limit" 25 limit -> 0 <= limit ->
  Db.outage pool = None ->
  Legacy.search_transactions pool raw =
  mkOutcome
    (json 200
       (JObj [("rows", JRows (search_page term limit (Db.table pool)));
              ("totalCount",
               JNumber (int (Z.of_nat (length
                  (filter (fun t => Db.ilike ("%" +:+ term +:+ "%") (Db.hash t))
                     (Db.table pool))))))]))
    [Db.mkQuery Db.SELECT_SEARCH [VStr ("%" +:+ term +:+ "%"); num limit];
     Db.mkQuery Db.COUNT_SEARCH [VStr ("%" +:+ term +:+ "%")]].
Proof.
  intros Et Hne Rl Hl Hup. unfold Legacy.search_transactions.
  rewrite (legacy_param raw "limit" 25 limit Rl).
  unfold Legacy.query_of. rewrite get_raw, Et, (truthy_nonempty term Hne).
  cbn [negb to_string]. unfold both, Db.pool_query. rewrite Hup.
  unfold Db.run. cbn [Db.text Db.values Db.as_text].
  rewrite as_count_int by lia.
  rewrite first_total_of, legacy_parseInt_pretty by lia.
  reflexivity.
Qed.

Lemma router_search_ok pool raw term limit :
  raw !! "term" = Some term -> (3 <= String.length term)%nat ->
  reads_int raw "limit" 25 limit -> 1 <= limit <= 100 ->
  Db.outage pool = None ->
  Router.serve Router.search_route pool raw =
  mkOutcome
    (json 200
       (JObj [("rows", JRows (search_page term limit (Db.table pool)));
              ("totalCount",
               JNumber (int (Z.of_nat (length
                  (filter (fun t => Db.ilike ("%" +:+ term +:+ "%") (Db.hash t))
                     (Db.table pool))))))]))
    [Db.mkQuery Db.SELECT_SEARCH [VStr ("%" +:+ term +:+ "%"); num limit];
     Db.mkQuery Db.COUNT_SEARCH [VStr ("%" +:+ term +:+ "%")]].
Proof.
  intros Et Lt Rl Hl Hup.
  destruct (term_chain_ok raw term Et Lt) as [E1 V1].
  destruct (int_chain_ok raw "limit" (Some 1) (Some 100) 25 limit Rl) as [E2 V2].
  { split; intros ? [= <-]; lia. }
  { left. lia. }
  pose proof (run_chains_errors Router.search_chains (VStr <$> raw) search_fields_distinct)
    as E.
  pose proof (fun c => run_chains_get Router.search_chains (VStr <$> raw) c
                         search_fields_distinct) as G.
  unfold Router.serve. simpl chains. simpl handler.
  destruct (Express.run_chains Router.search_chains (VStr <$> raw)) as [errors q] eqn:R.
  change Router.search_chains
    with [term_chain;
          Express.toInt (Express.isInt (Some 1) (Some 100)
                           (Express.optional (Express.query "limit")))] in E, G.
  cbn [flat_map] in E. rewrite E1, E2 in E. simpl in E. subst errors.
  assert (Express.get q "term" = VStr term) as Qt.
  { rewrite <- V1. apply (G term_chain). rewrite list_elem_of_In. simpl. auto. }
  assert (JS.or (Express.get q "limit") (num 25) = num limit) as Ql.
  { rewrite <- V2. f_equal.
    apply (G (Express.toInt (Express.isInt (Some 1) (Some 100)
                               (Express.optional (Express.query "limit"))))).
    rewrite list_elem_of_In. simpl. auto. }
  cbn [Router.validateRequest]. unfold Router.search_handler. rewrite Qt, Ql.
  cbn [to_string]. unfold both, Db.pool_query. rewrite Hup.
  unfold Db.run. cbn [Db.text Db.values Db.as_text]. unfold num.
  rewrite as_count_int by lia.
  rewrite first_total_of, parseInt_pretty by lia.
  reflexivity.
Qed.

(** X17.  On every request the validated search route accepts, the flat
    GET /api/search-transactions issues the same queries and sends the same
    response, while the store answers. *)
Theorem legacy_search_agrees (pool : Db.Pool) (raw : gmap string string)
    (term : string) (limit : Z) :
  raw !! "term" = Some term -> (3 <= String.length term)%nat ->
  reads_int raw "limit" 25 limit -> 1 <= limit <= 100 ->
  Db.outage pool = None ->
  Legacy.search_transactions pool raw = Router.serve Router.search_route pool raw.
Proof.
  intros Et Lt Rl Hl Hup.
  rewrite (router_search_ok pool raw term limit Et Lt Rl Hl Hup).
  apply legacy_search_ok; try assumption; [|lia].
  intros ->. simpl in Lt. lia.
Qed.

(** X18.  The flat GET /api/search-transactions asks for a term and nothing
    more: without a term, or with an empty one, it answers 400 without a
    query; with any other term, be it one character long, it runs the
    search, which the validated route refuses below three characters. *)
Theorem legacy_search_term (pool : Db.Pool) (raw : gmap string string) :
  ((raw !! "term" = None \/ raw !! "term" = Some EmptyString) ->
   status (response (Legacy.search_transactions pool raw)) = 400
   /\ issued (Legacy.search_transactions pool raw) = [])
  /\ (forall term limit,
        raw !! "term" = Some term -> term <> EmptyString ->
        (String.length term < 3)%nat ->
        reads_int raw "limit" 25 limit -> 1 <= limit <= 100 ->
        Db.outage pool = None ->
        status (response (Legacy.search_transactions pool raw)) = 200
        /\ rows_of (Legacy.search_transactions pool raw)
           = search_page term limit (Db.table pool)
        /\ status (response (Router.serve Router.search_route pool raw)) = 400).
Proof.
  split.
  - intros H. unfold Legacy.search_transactions, Legacy.query_of. rewrite get_raw.
    destruct H as [-> | ->]; split; reflexivity.
  - intros term limit Et Hne Lt Rl Hl Hup.
    rewrite (legacy_search_ok pool raw term limit Et Hne Rl ltac:(lia) Hup).
    split; [reflexivity|]. split; [reflexivity|].
    apply search_short_term. intros s Es. rewrite Et in Es. now injection Es as <-.
Qed.

Lemma legacy_both_ok pool ss se ds de limit offset :
  Calendar.read ss = Some ds -> Calendar.valid ds = true -> 1 <= Calendar.year ds ->
  Calendar.read se = Some de -> Calendar.valid de = true -> 1 <= Calendar.year de ->
  0 <= limit -> 0 <= offset -> Db.outage pool = None ->
  Legacy.both pool
    (Legacy.mkQuery Legacy.SELECT_BETWEEN
       [VStr ss; VStr se; VNum (int limit); VNum (int offset)])
    (Legacy.mkQuery Legacy.COUNT_BETWEEN [VStr ss; VStr se])
  = inr (page limit offset (in_days ds de (Db.table pool)),
         Db.total_of (length (in_days ds de (Db.table pool)))).
Proof.
  intros Rs Vs Ys Re Ve Ye Hl Ho Hup.
  unfold Legacy.both, Legacy.pool_query. rewrite Hup.
  unfold Legacy.run. cbn [Legacy.text Legacy.values].
  rewrite (as_date_read ss ds Rs Vs Ys), (as_date_read se de Re Ve Ye).
  rewrite !as_count_int by lia. reflexivity.
Qed.

Lemma in_days_backwards ds de l :
  Calendar.valid ds = true -> Calendar.valid de = true -> Calendar.before de ds ->
  in_days ds de l = [].
Proof.
  intros Vs Ve B. pose proof (MakeDay_before de ds Ve Vs B) as M.
  unfold in_days. induction l as [|t l IH]; [reflexivity|].
  rewrite filter_cons, IH.
  destruct (decide (Is_true (Db.in_range (Calendar.MakeDay ds) (Calendar.MakeDay de) t)))
    as [I|_]; [|reflexivity].
  apply Is_true_true in I. unfold Db.in_range, Db.microseconds_per_day in I.
  apply andb_true_iff in I as [I1 I2]. lia.
Qed.

(** X19.  The flat GET /api/transactions-range answers 400 without a query
    when the start or the end date is missing or empty.  It does not compare
    the two dates: for dates written YYYY-MM-DD with the end before the
    start, a limit from 1 to 100 and an offset that is a safe integer, it
    issues its queries and answers 200 with no rows and a totalCount of 0,
    where the validated route answers 400. *)
Theorem legacy_range_dates (pool : Db.Pool) (raw : gmap string string) :
  ((raw !! "start" = None \/ raw !! "start" = Some EmptyString
    \/ raw !! "end" = None \/ raw !! "end" = Some EmptyString) ->
   status (Legacy.answer (Legacy.transactions_range pool raw)) = 400
   /\ Legacy.sent (Legacy.transactions_range pool raw) = [])
  /\ (forall ds de limit offset,
        reads_date raw "start" ds -> reads_date raw "end" de ->
        reads_int raw "limit" 25 limit -> 1 <= limit <= 100 ->
        reads_int raw "offset" 0 offset -> 0 <= offset <= MAX_SAFE_INTEGER ->
        Calendar.before de ds -> 1 <= Calendar.year de -> Db.outage pool = None ->
        Legacy.answer (Legacy.transactions_range pool raw)
        = json 200 (JObj [("rows", JRows []); ("totalCount", JNumber (int 0))])
        /\ length (Legacy.sent (Legacy.transactions_range pool raw)) = 2%nat
        /\ status (response (Router.serve Router.range_route pool raw)) = 400).
Proof.
  split.
  - intros H. unfold Legacy.transactions_range, Legacy.query_of. rewrite !get_raw.
    destruct H as [-> | [-> | [-> | ->]]]; cbn [truthy String.eqb negb orb];
      rewrite ?orb_true_r; split; reflexivity.
  - intros ds de limit offset Rs Re Rl Hl Ro [Ho Hsafe] B Y Hup.
    split; [|split].
    3: { destruct (serve_range_ok pool raw ds de limit offset Rs Re Rl Hl Ro Ho)
           as (q & ss & se & Eq & Gs & Rss & Ge & Rse & _).
         unfold reads_date in Rs, Re.
         destruct (raw !! "start"), (raw !! "end"); try tauto.
         destruct Rs as [_ Vs], Re as [_ Ve].
         rewrite Eq, (range_handler_rejects pool q ss se ds de Gs Rss Vs Ge Rse Ve B).
         reflexivity. }
    all: unfold reads_date in Rs, Re;
      destruct (raw !! "start") as [ss|] eqn:Es; [|contradiction];
      destruct (raw !! "end") as [se|] eqn:Ee; [|contradiction];
      destruct Rs as [Rs Vs], Re as [Re Ve];
      assert (1 <= Calendar.year ds) as Ys
        by (destruct B as [B | [B _]]; lia);
      assert (ss <> EmptyString) as Ns by (intros ->; discriminate);
      assert (se <> EmptyString) as Ne by (intros ->; discriminate);
      unfold Legacy.transactions_range;
      rewrite (legacy_param raw "limit" 25 limit Rl),
        (legacy_param raw "offset" 0 offset Ro);
      unfold Legacy.query_of; rewrite !get_raw, Es, Ee;
      rewrite (truthy_nonempty ss Ns), (truthy_nonempty se Ne);
      cbn [negb orb];
      rewrite (legacy_both_ok pool ss se ds de limit offset Rs Vs Ys Re Ve Y)
        by (assumption || lia);
      rewrite (in_days_backwards ds de _ Vs Ve B);
      rewrite first_total_of, legacy_parseInt_pretty by lia;
      unfold page; change (Db.order_by_time_desc []) with (@nil Db.Transaction);
      rewrite drop_nil, take_nil; reflexivity.
Qed.

(** X20.  On every request with dates written YYYY-MM-DD that the validated
    range route accepts, whose end date is not before its start date and
    whose offset is a safe integer, the flat GET /api/transactions-range
    sends the same totalCount as the validated route and, on a table of
    pairwise different times, where the order of the rows is not the
    store's choice, the same rows, while the store answers. *)
Theorem legacy_range_agrees (pool : Db.Pool) (raw : gmap string string)
    (ds de : Calendar.Date) (limit offset : Z) :
  reads_date raw "start" ds -> reads_date raw "end" de ->
  reads_int raw "limit" 25 limit -> 1 <= limit <= 100 ->
  reads_int raw "offset" 0 offset -> 0 <= offset <= MAX_SAFE_INTEGER ->
  ~ Calendar.before de ds -> 1 <= Calendar.year ds -> Db.outage pool = None ->
  status (Legacy.answer (Legacy.transactions_range pool raw)) = 200
  /\ (NoDup (Db.time <$> Db.table pool) ->
      Http.field "rows" (body (Legacy.answer (Legacy.transactions_range pool raw)))
      = Http.field "rows" (body (response (Router.serve Router.range_route pool raw))))
  /\ Http.field "totalCount" (body (Legacy.answer (Legacy.transactions_range pool raw)))
     = Http.field "totalCount"
         (body (response (Router.serve Router.range_route pool raw))).
Proof.
  intros Rs Re Rl Hl Ro [Ho Hsafe] B Ys Hup.
  destruct (serve_range_ok pool raw ds de limit offset Rs Re Rl Hl Ro Ho)
    as (q & ss' & se' & Eq & Gs & Rss & Ge & Rse & Ql & Qo).
  unfold reads_date in Rs, Re.
  destruct (raw !! "start") as [ss|] eqn:Es; [|contradiction].
  destruct (raw !! "end") as [se|] eqn:Ee; [|contradiction].
  destruct Rs as [Rs Vs], Re as [Re Ve].
  rewrite Eq.
  rewrite (range_handler_ok pool q ss' se' ds de limit offset
             Gs Rss Vs Ge Rse Ve Ql Qo) by (assumption || lia).
  assert (1 <= Calendar.year de) as Ye.
  { destruct (Z.lt_ge_cases (Calendar.year de) (Calendar.year ds)); [|lia].
    exfalso. apply B. now left. }
  assert (ss <> EmptyString) as Ns by (intros ->; discriminate).
  assert (se <> EmptyString) as Ne by (intros ->; discriminate).
  unfold Legacy.transactions_range.
  rewrite (legacy_param raw "limit" 25 limit Rl), (legacy_param raw "offset" 0 offset Ro).
  unfold Legacy.query_of. rewrite !get_raw, Es, Ee.
  rewrite (truthy_nonempty ss Ns), (truthy_nonempty se Ne).
  cbn [negb orb].
  rewrite (legacy_both_ok pool ss se ds de limit offset Rs Vs Ys Re Ve Ye)
    by (assumption || lia).
  rewrite first_total_of, legacy_parseInt_pretty by lia.
  split; [reflexivity|]. split; reflexivity.
Qed.

End LegacyRoutes.

(** ** The page *)

Section PageComponent.

Import JS Http Client Page Server Server.Router.

Lemma fetchTransactions_keeps net st :
  let st' := (fetchTransactions net st).1 in
  currentPage st' = currentPage st /\ pageSize st' = pageSize st
  /\ searchTerm st' = searchTerm st /\ startTime st' = startTime st
  /\ endTime st' = endTime st /\ viewMode st' = viewMode st.
Proof.
  unfold fetchTransactions.
  destruct (settled (list_call net st)) as [e|[[]| | | |]]; repeat split.
Qed.

Lemma fetchTimeSeriesData_page net clock st :
  currentPage (fetchTimeSeriesData net clock st).1 = currentPage st.
Proof.
  unfold fetchTimeSeriesData. destruct (clock _) as [a b].
  destruct (settled _); reflexivity.
Qed.

Lemma step_page net clock ev st :
  0 <= currentPage st -> 0 <= currentPage (step net clock ev st).1.
Proof.
  intros H.
  destruct ev as [| | | | |v|r|m|t|d|d]; cbn [step fst]; try exact H.
  - destruct (fetchTransactions_keeps net st) as [-> _]. exact H.
  - unfold goToPreviousPage. destruct (0 <? currentPage st) eqn:E; [|exact H].
    destruct (fetchTransactions_keeps net
                (set_paging st (currentPage st - 1) (pageSize st))) as [-> _].
    cbn [set_paging currentPage]. lia.
  - unfold goToNextPage.
    destruct (fetchTransactions_keeps net
                (set_paging st (currentPage st + 1) (pageSize st))) as [-> _].
    cbn [set_paging currentPage]. lia.
  - unfold handleSearch.
    destruct (fetchTransactions_keeps net (set_paging st 0 (pageSize st))) as [-> _].
    cbn [set_paging currentPage]. lia.
  - unfold handleTimeRangeSubmit.
    destruct (fetchTransactions_keeps net (set_paging st 0 (pageSize st))) as [-> _].
    cbn [set_paging currentPage]. lia.
  - unfold handlePageSizeChange.
    destruct (fetchTransactions_keeps net
                (set_paging st 0 (Legacy.parseInt_string v))) as [-> _].
    cbn [set_paging currentPage]. lia.
  - unfold handleTimeRangeChange.
    match goal with |- context [fetchTimeSeriesData net clock ?s] =>
      pose proof (fetchTimeSeriesData_page net clock s) as P;
      destruct (fetchTimeSeriesData net clock s) as [st1 urls1] end.
    cbn [fst set_filters currentPage] in P.
    destruct (_ && _).
    + destruct (fetchTransactions_keeps net (set_paging st1 0 (pageSize st1))) as [Q _].
      destruct (fetchTransactions net _) as [st2 urls2].
      cbn [fst set_paging currentPage] in *. lia.
    + cbn [fst]. lia.
  - unfold setViewMode. destruct (_ && _); [|exact H].
    rewrite fetchTimeSeriesData_page. exact H.
Qed.

(** X21.  Whatever the user does, in whatever order, and whatever the
    network answers, the page number of the component never goes below 0. *)
Theorem page_never_negative (net : Net) (clock : Clock) (events : list Event) :
  0 <= currentPage (run net clock events initial).1.
Proof.
  assert (forall st, 0 <= currentPage st -> 0 <= currentPage (run net clock events st).1) as G.
  { induction events as [|ev rest IH]; intros st H; [exact H|].
    simpl. pose proof (step_page net clock ev st H) as S.
    destruct (step net clock ev st) as [st1 urls1].
    specialize (IH st1 S). destruct (run net clock rest st1) as [st2 urls2]. exact IH. }
  apply G. simpl. lia.
Qed.


Lemma list_call_search net st :
  searchTerm st <> EmptyString ->
  list_call net st = searchTransactions net (VStr (searchTerm st)) (VNum (pageSize st))
                       (VNum (times (currentPage st) (pageSize st))).
Proof.
  intros H. unfold list_call, nonempty.
  destruct (String.eqb_spec (searchTerm st) EmptyString) as [E|_]; [contradiction|].
  reflexivity.
Qed.

Lemma list_call_plain net st :
  searchTerm st = EmptyString -> startTime st = EmptyString \/ endTime st = EmptyString ->
  list_call net st = getTransactions net (VNum (pageSize st))
                       (VNum (times (currentPage st) (pageSize st))).
Proof.
  intros H D. unfold list_call, nonempty. rewrite H.
  destruct D as [-> | ->]; cbn [String.eqb negb andb]; rewrite ?andb_false_r; reflexivity.
Qed.

Lemma list_call_same_search net st st' :
  searchTerm st <> EmptyString ->
  searchTerm st' = searchTerm st -> pageSize st' = pageSize st ->
  list_call net st' = list_call net st.
Proof.
  intros H T P. rewrite !list_call_search by congruence. now rewrite T, P.
Qed.

(** X22.  While a search term is set, what [fetchTransactions] fetches and
    shows does not depend on the page number: after a search, Next fetches
    the same URL again and leaves the same rows, count and error, while the
    page number becomes 1. *)
Theorem page_search_next_repeats (net : Net) (st : State) :
  searchTerm st <> EmptyString ->
  (forall p,
     fetchTransactions net (set_paging st p (pageSize st))
     = (set_paging (fetchTransactions net st).1 p (pageSize st),
        (fetchTransactions net st).2))
  /\ goToNextPage net (handleSearch net st).1
     = (set_paging (handleSearch net st).1 1 (pageSize st), (handleSearch net st).2).
Proof.
  intros H. split.
  - intros p. unfold fetchTransactions.
    rewrite (list_call_same_search net st (set_paging st p (pageSize st)) H)
      by reflexivity.
    destruct (settled (list_call net st)) as [e|[[]| | | |]]; reflexivity.
  - unfold goToNextPage, handleSearch.
    set (s0 := set_paging st 0 (pageSize st)).
    destruct (fetchTransactions_keeps net s0) as (_ & Ks & Kt & _).
    unfold fetchTransactions at 1.
    rewrite (list_call_same_search net s0);
      [|exact H|cbn [set_paging searchTerm]; exact Kt|cbn [set_paging pageSize]; exact Ks].
    unfold fetchTransactions.
    destruct (settled (list_call net s0)) as [e|[[]| | | |]]; reflexivity.
Qed.

(** X23.  [fetchTransactions] fetches one URL and ends with [isLoading]
    false.  If it ends with an error the rows are emptied and the count is
    kept; if it ends without one, the rows and the count are those of the
    body the call resolved with, [[]] and 0 standing in for falsy ones. *)
Theorem page_fetch_settles (net : Net) (st : State) :
  let st' := (fetchTransactions net st).1 in
  isLoading st' = false
  /\ (exists url, (fetchTransactions net st).2 = [url])
  /\ (forall m, error st' = Some m ->
        transactions st' = JRows [] /\ totalCount st' = totalCount st)
  /\ (error st' = None ->
        exists data, settled (list_call net st) = inr data
          /\ transactions st' = Client.or (prop "rows" data) (JRows [])
          /\ totalCount st' = Client.or (prop "totalCount" data) (JNumber (int 0))).
Proof.
  assert (exists url, fetched (list_call net st) = [url]) as [url U].
  { unfold list_call. destruct (nonempty (searchTerm st)); [|destruct (_ && _)];
      eexists; apply fetched_request. }
  unfold fetchTransactions.
  destruct (settled (list_call net st)) as [e|data] eqn:S.
  - cbn. split; [reflexivity|]. split; [eauto|]. split; [auto|discriminate].
  - destruct data as [[]| | | |]; cbn [fst snd set_list isLoading error transactions totalCount];
      (split; [reflexivity|]); (split; [eauto|]);
      (split; [first [discriminate | auto] | first [discriminate | eauto]]).
Qed.

Lemma request_failure net helper url r :
  net url = inr r -> ok r = false ->
  settled (request net helper url)
  = match this_call helper r with
    | inl e => inl e
    | inr m => inl (Client.Error m)
    end.
Proof. intros N K. unfold request. rewrite N, K. now destruct (this_call helper r). Qed.

(** X24.  When the server answers the URL of [fetchTransactions] with a
    response that is not a success, the error the page shows is, while a
    search term is set, the message [handleErrorResponse] draws from the
    response; without a search term it is always
    [this.handleResponseError is not a function], whatever the response
    says. *)
Theorem page_failure_message (net : Net) (st : State) (url : string) (r : FetchResponse) :
  (fetchTransactions net st).2 = [url] -> net url = inr r -> ok r = false ->
  error (fetchTransactions net st).1
  = Some (if nonempty (searchTerm st) then text_of (handleErrorResponse r)
          else "this.handleResponseError is not a function").
Proof.
  intros U N K.
  unfold fetchTransactions in *. 
  assert (fetched (list_call net st) = [url]) as F.
  { destruct (settled (list_call net st)) as [e|[[]| | | |]]; exact U. }
  clear U. unfold list_call in *.
  destruct (nonempty (searchTerm st)); [|destruct (_ && _)].
  all: unfold searchTransactions, getTransactionsByDateRange, getTransactions in *.
  all: rewrite fetched_request in F; injection F as F; subst url.
  all: erewrite request_failure; [reflexivity|exact N|exact K].
Qed.


Lemma times_int k l : times k (int l) = int (k * l).
Proof. reflexivity. Qed.

Lemma number_to_string_int n : number_to_string (int n) = pretty n.
Proof. unfold number_to_string, int. rewrite Qred_int. reflexivity. Qed.

Lemma serve_list_request pool limit offset :
  Db.outage pool = None -> 1 <= limit <= 100 -> 0 <= offset ->
  let total := Z.of_nat (length (Db.table pool)) in
  response (serve list_route pool (list_request limit offset)) =
  mkResponse 200
    (<["X-Total-Count" := int total]>
     (<["X-Total-Pages" := int (- ((- total) / limit))]>
      (<["X-Current-Page" := Fin (inject_Z offset / inject_Z limit + inject_Z 1)]>
       (<["X-Per-Page" := int limit]> ∅))))
    (JObj [("rows", JRows (page limit offset (Db.table pool)));
           ("totalCount", JNumber (int total));
           ("pagination",
            JObj [("limit", JNumber (int limit));
                  ("offset", JNumber (int offset));
                  ("currentPage", JNumber (int (offset / limit + 1)));
                  ("totalPages", JNumber (int (- ((- total) / limit))))])]).
Proof.
  intros Hup Hl Ho total.
  destruct (serve_list_ok pool (list_request limit offset) limit offset Hup
              (list_request_limit limit offset 25 ltac:(lia)) Hl
              (list_request_offset limit offset 0 Ho) Ho)
    as (q & _ & _ & E & Ql & Qo).
  rewrite E, (list_handler_ok pool q limit offset Hup Ql Qo) by lia. reflexivity.
Qed.

(** X25.  Without search term and dates, and with a page size from 1 to
    100, the component asks GET /api/transactions for an offset that is a
    multiple of the limit; on such a request the header X-Current-Page and
    the body's pagination.currentPage both are the component's page number
    plus one. *)
Theorem page_asks_whole_pages (net : Net) (pool : Db.Pool) (st : State) (limit : Z) :
  searchTerm st = EmptyString ->
  startTime st = EmptyString \/ endTime st = EmptyString ->
  pageSize st = int limit -> 1 <= limit <= 100 -> 0 <= currentPage st ->
  Db.outage pool = None ->
  let offset := currentPage st * limit in
  let served := response (serve list_route pool (list_request limit offset)) in
  (fetchTransactions net st).2 = [list_url limit offset]
  /\ exists headerPage,
       headers served !! "X-Current-Page" = Some headerPage
       /\ strict_eq headerPage (int (currentPage st + 1)) = true
       /\ Http.field "currentPage" (prop "pagination" (body served))
          = Some (JNumber (int (currentPage st + 1))).
Proof.
  intros T D P Hl Hk Hup offset served. split.
  - unfold fetchTransactions.
    assert (fetched (list_call net st) = [list_url limit offset]) as F.
    { rewrite (list_call_plain net st T D), P, times_int.
      unfold getTransactions. rewrite fetched_request.
      cbn [arg to_string]. rewrite !number_to_string_int. reflexivity. }
    destruct (settled (list_call net st)) as [e|[[]| | | |]]; exact F.
  - subst served. rewrite (serve_list_request pool limit offset Hup Hl) by (subst offset; lia).
    eexists. split; [reflexivity|].
    assert (offset / limit = currentPage st) as Q by (subst offset; apply Z.div_mul; lia).
    split.
    + rewrite <- Q. apply quotient_is_page; [lia|]. subst offset. apply Z.mod_mul. lia.
    + rewrite Q. reflexivity.
Qed.

Lemma page_nonempty limit offset l :
  1 <= limit -> 0 <= offset ->
  page limit offset l <> [] <-> offset < Z.of_nat (length l).
Proof.
  intros Hl Ho. unfold page.
  pose proof (order_by_time_desc_length l) as L.
  set (s := Db.order_by_time_desc l) in *.
  rewrite <- L. clearbody s. clear L.
  split.
  - intros H. destruct (Z.lt_ge_cases offset (Z.of_nat (length s))) as [|G]; [assumption|].
    exfalso. apply H. rewrite drop_ge by lia. now rewrite take_nil.
  - intros H E. apply (f_equal length) in E.
    rewrite length_fmap, length_take, length_drop in E. simpl in E. lia.
Qed.

(** X26.  When the network hands the component the answer of
    GET /api/transactions to the request it wrote, the component shows the
    rows of that page and the size of the table, and its Next button is
    enabled exactly when the next page of the table has a row. *)
Theorem page_next_button (net : Net) (pool : Db.Pool) (st : State) (limit : Z) :
  searchTerm st = EmptyString ->
  startTime st = EmptyString \/ endTime st = EmptyString ->
  pageSize st = int limit -> 1 <= limit <= 100 -> 0 <= currentPage st ->
  Db.outage pool = None ->
  let offset := currentPage st * limit in
  net (list_url limit offset)
  = inr (relayed (response (serve list_route pool (list_request limit offset)))) ->
  let st' := (fetchTransactions net st).1 in
  error st' = None
  /\ transactions st' = JRows (page limit offset (Db.table pool))
  /\ totalCount st' = JNumber (int (Z.of_nat (length (Db.table pool))))
  /\ (next_disabled st' = Some false
      <-> page limit (offset + limit) (Db.table pool) <> []).
Proof.
  intros T D P Hl Hk Hup offset N st'.
  assert (0 <= offset) as Ho by (subst offset; lia).
  rewrite (serve_list_request pool limit offset Hup Hl Ho) in N.
  assert (settled (list_call net st)
          = inr (JObj [("rows", JRows (page limit offset (Db.table pool)));
                       ("totalCount", JNumber (int (Z.of_nat (length (Db.table pool)))));
                       ("pagination",
                        JObj [("limit", JNumber (int limit));
                              ("offset", JNumber (int offset));
                              ("currentPage", JNumber (int (offset / limit + 1)));
                              ("totalPages",
                               JNumber (int (- ((- Z.of_nat (length (Db.table pool)))
                                                / limit))))])])) as S.
  { rewrite (list_call_plain net st T D), P, times_int.
    unfold getTransactions. cbn [arg to_string]. rewrite !number_to_string_int.
    fold (list_url limit (currentPage st * limit)). fold offset.
    unfold request. rewrite N. reflexivity. }
  subst st'. unfold fetchTransactions. rewrite S.
  cbn [fst set_list error transactions totalCount].
  split; [reflexivity|]. split; [reflexivity|].
  assert (Client.or (prop "totalCount"
            (JObj [("rows", JRows (page limit offset (Db.table pool)));
                   ("totalCount", JNumber (int (Z.of_nat (length (Db.table pool)))));
                   ("pagination",
                    JObj [("limit", JNumber (int limit));
                          ("offset", JNumber (int offset));
                          ("currentPage", JNumber (int (offset / limit + 1)));
                          ("totalPages",
                           JNumber (int (- ((- Z.of_nat (length (Db.table pool)))
                                            / limit))))])]))
            (JNumber (int 0))
          = JNumber (int (Z.of_nat (length (Db.table pool))))) as C.
  { unfold Client.or, prop. cbn.
    destruct (Qeq_bool _ 0) eqn:Z0; [|reflexivity].
    apply Qeq_bool_iff in Z0. unfold Qeq in Z0. simpl in Z0.
    unfold JNumber, int. do 4 f_equal. lia. }
  rewrite C. split; [reflexivity|].
  rewrite page_nonempty by lia.
  unfold next_disabled. cbn [totalCount set_list currentPage pageSize].
  rewrite P, times_int. unfold ge, int, JS.lt. cbn [negb].
  unfold JNumber. cbn iota. rewrite negb_involutive.
  split.
  - intros [= E]. apply not_true_iff_false in E.
    rewrite Qle_bool_iff, <- Zle_Qle in E. subst offset. lia.
  - intros H. f_equal. apply not_true_iff_false.
    rewrite Qle_bool_iff, <- Zle_Qle. subst offset. lia.
Qed.


Lemma interval_for_valid range : interval_for range ∈ VALID_TIME_INTERVALS.
Proof.
  unfold interval_for.
  repeat match goal with |- context [String.eqb ?a ?b] => destruct (String.eqb a b) end;
    apply list_elem_of_In; simpl; tauto.
Qed.

Lemma by_time_request_limit interval limit dflt :
  0 <= limit -> reads_int (by_time_request interval limit) "limit" dflt limit.
Proof.
  intros H. apply reads_int_pretty; [exact H|]. reflexivity.
Qed.

(** X27.  [fetchTimeSeriesData] fetches one URL, for the interval its
    switch chooses and a limit of 50, and ends with [timeSeriesLoading]
    false and, after an error, no data.  Every interval the switch can
    choose is in VALID_TIME_INTERVALS, so the by-time route accepts the
    request and, while the store answers, sends at most 50 buckets from one
    query. *)
Theorem page_time_series_request (net : Net) (clock : Clock) (pool : Db.Pool) (st : State) :
  Db.outage pool = None ->
  let interval := interval_for (selectedTimeRange st) in
  let st' := (fetchTimeSeriesData net clock st).1 in
  (fetchTimeSeriesData net clock st).2 = [by_time_url (VStr interval) (num 50)]
  /\ timeInterval st' = interval
  /\ timeSeriesLoading st' = false
  /\ (forall m, timeSeriesError st' = Some m -> timeSeriesData st' = JRows [])
  /\ interval ∈ VALID_TIME_INTERVALS
  /\ exists buckets,
       serve by_time_route pool (by_time_request interval 50) =
       mkOutcome (json 200 (JRows (Db.BucketRow <$> buckets)))
         [Db.mkQuery Db.SELECT_BUCKETS [VStr interval; num 50]]
       /\ Z.of_nat (length buckets) <= 50.
Proof.
  intros Hup interval st'. subst st'.
  unfold fetchTimeSeriesData. destruct (clock (selectedTimeRange st)) as [start end_].
  fold interval.
  assert (fetched (getTransactionsByTime net (VStr interval) (num 50))
          = [by_time_url (VStr interval) (num 50)]) as F by apply fetched_request.
  split; [destruct (settled _); exact F|].
  split; [destruct (settled _); reflexivity|].
  split; [destruct (settled _); reflexivity|].
  split; [destruct (settled _); [reflexivity | discriminate]|].
  split; [apply interval_for_valid|].
  eexists. split.
  - apply (serve_by_time_ok pool (by_time_request interval 50) interval 50);
      [reflexivity | apply interval_for_valid | apply by_time_request_limit; lia
      | lia | exact Hup].
  - rewrite length_take. lia.
Qed.

End PageComponent.

(** ** Scenarios of the further properties *)

Section FurtherScenarios.

Import JS Http Express Server Server.Router.

(** GET /api/transactions?limit=2&offset=7 on five transactions. *)
Lemma list_offset_beyond_end_witness :
  let raw := Sample.request [("limit", "2"); ("offset", "7")] in
  status (response (serve list_route Sample.store raw)) = 200
  /\ rows_of (serve list_route Sample.store raw) = []
  /\ Http.field "totalCount" (body (response (serve list_route Sample.store raw)))
     = Some (JNumber (int 5)).
Proof.
  intros raw.
  apply (list_offset_beyond_end Sample.store raw 2 7).
  - reflexivity.
  - vm_compute. split; reflexivity.
  - lia.
  - vm_compute. split; reflexivity.
  - unfold MAX_SAFE_INTEGER. simpl. lia.
Defined.

(** The three pages of two rows of the sample table. *)
Lemma list_pages_cover_table_witness :
  exists received,
    walk Sample.store 2 3 = Db.TxRow <$> received
    /\ received ≡ₚ Sample.table
    /\ StronglySorted newer_first received.
Proof.
  destruct (list_pages_cover_table Sample.store 2) as [_ W].
  - reflexivity.
  - lia.
  - unfold MAX_SAFE_INTEGER. simpl. lia.
  - compute_done.
  - exact W.
Defined.

(** GET /api/transactions?limit=2&offset=4: the third page. *)
Lemma list_headers_mirror_witness :
  let r := response (serve list_route Sample.store
                       (Sample.request [("limit", "2"); ("offset", "4")])) in
  exists headerPage bodyPage,
    headers r !! "X-Current-Page" = Some headerPage
    /\ Http.field "currentPage" (Client.prop "pagination" (body r)) = Some (JNumber bodyPage)
    /\ strict_eq headerPage bodyPage = true.
Proof.
  intros r.
  destruct (list_headers_mirror Sample.store
              (Sample.request [("limit", "2"); ("offset", "4")]) 2 4)
    as (tc & tp & pp & hp & bp & _ & _ & _ & _ & H & B & I).
  - reflexivity.
  - vm_compute. split; reflexivity.
  - lia.
  - vm_compute. split; reflexivity.
  - lia.
  - exists hp, bp. split; [exact H|]. split.
    + unfold Client.prop. subst r. rewrite B. reflexivity.
    + apply I. reflexivity.
Defined.

(** GET /api/transactions/range?start=1970-01-01&end=1970-01-02&limit=2&offset=1 *)
Lemma range_headers_mirror_witness :
  let r := response (serve range_route Sample.store
                       (Sample.request [("start", "1970-01-01"); ("end", "1970-01-02");
                                        ("limit", "2"); ("offset", "1")])) in
  status r = 200 /\ headers r !! "X-Current-Page" = Some (int 1).
Proof.
  intros r.
  destruct (range_headers_mirror Sample.store
              (Sample.request [("start", "1970-01-01"); ("end", "1970-01-02");
                               ("limit", "2"); ("offset", "1")])
              (Calendar.mkDate 1970 1 1) (Calendar.mkDate 1970 1 2) 2 1)
    as (tc & tp & cp & S & _ & _ & _ & H & _ & E).
  - vm_compute. split; reflexivity.
  - vm_compute. split; reflexivity.
  - vm_compute. split; reflexivity.
  - lia.
  - vm_compute. split; reflexivity.
  - unfold MAX_SAFE_INTEGER. lia.
  - unfold Calendar.before. simpl. lia.
  - simpl. lia.
  - reflexivity.
  - split; [exact S|]. subst r. rewrite H, E. reflexivity.
Defined.

(** GET /api/transactions?limit=0 and GET /api/transactions?limit=100. *)
Lemma list_validation_exact_witness :
  status (response (serve list_route Sample.store (Sample.request [("limit", "0")]))) = 400
  /\ length (issued (serve list_route Sample.store (Sample.request [("limit", "100")])))
     = 2%nat.
Proof.
  split.
  - destruct (list_validation_exact Sample.store (Sample.request [("limit", "0")]))
      as [_ R].
    apply R. intros [[_ [L _]] _]. specialize (L 1 eq_refl). vm_compute in L. now apply L.
  - destruct (list_validation_exact Sample.store (Sample.request [("limit", "100")]))
      as [A _].
    apply A. split.
    + split; [reflexivity|]. split; intros ? [= <-]; vm_compute; discriminate.
    + exact I.
Defined.

(** GET /api/transactions/range?start=2024-02-30&end=2024-03-01 *)
Lemma range_dates_required_witness :
  status (response (serve range_route Sample.store
                      (Sample.request [("start", "2024-02-30"); ("end", "2024-03-01")])))
  = 400.
Proof.
  destruct (range_dates_required Sample.store
              (Sample.request [("start", "2024-02-30"); ("end", "2024-03-01")]))
    as [S _].
  apply S. right. exists "2024-02-30", (Calendar.mkDate 2024 2 30).
  split; [reflexivity|]. split; reflexivity.
Defined.

(** GET /api/transactions while the store is out of reach. *)
Lemma store_failure_witness :
  status (response (serve list_route Cases.down ∅)) = 500
  /\ Http.field "code" (body (response (serve list_route Cases.down ∅)))
     = Some (JString "ECONNREFUSED").
Proof.
  destruct (store_failure list_route Cases.down ∅
              (Db.mkDatabaseError "connect ECONNREFUSED 127.0.0.1:5432" "ECONNREFUSED"))
    as [[S _] | [R _]].
  - unfold validated_routes. apply list_elem_of_here.
  - reflexivity.
  - vm_compute in S. discriminate.
  - rewrite R. split; reflexivity.
Defined.

(** GET /api/transactions/by-time?interval=1 day&limit=1 *)
Lemma by_time_results_witness :
  exists buckets,
    body (response (serve by_time_route Cases.bucketed
                      (Sample.request [("interval", "1 day"); ("limit", "1")])))
    = JRows (Db.BucketRow <$> buckets)
    /\ Z.of_nat (length buckets) <= 1.
Proof.
  destruct (by_time_results Cases.bucketed
              (Sample.request [("interval", "1 day"); ("limit", "1")]) "1 day" 1)
    as (buckets & E & _ & L).
  - reflexivity.
  - compute_done.
  - vm_compute. split; reflexivity.
  - lia.
  - reflexivity.
  - exists buckets. rewrite E. split; [reflexivity | exact L].
Defined.

(** GET /api/transactions/search?term=abc *)
Lemma search_plain_term_witness :
  exists rows,
    rows_of (serve search_route Sample.store (Sample.request [("term", "abc")])) = rows
    /\ page_of 25 0 (containing "abc" Sample.table) rows.
Proof.
  destruct (search_plain_term Sample.store (Sample.request [("term", "abc")]) "abc" 25)
    as (rows & E & P & _).
  - reflexivity.
  - simpl. lia.
  - reflexivity.
  - reflexivity.
  - lia.
  - reflexivity.
  - exists rows. rewrite E. split; [reflexivity | exact P].
Defined.


(** [searchTransactions('abc')] against a server that answers 500 with the
    JSON body [{ message: 'boom', code: 'unknown error' }]. *)
Lemma client_error_precedence_witness :
  Client.settled (Client.searchTransactions Sample.failing_net (VStr "abc") VUndefined VUndefined)
  = inl (JS.mkError "boom" None None).
Proof.
  destruct (client_error_precedence Sample.failing_net
              (Client.mkFetchResponse 500 (Some "application/json; charset=utf-8")
                 (Some (JObj [("message", JString "boom");
                              ("code", JString "unknown error")])))
              "application/json; charset=utf-8"
              (JObj [("message", JString "boom"); ("code", JString "unknown error")]))
    as [S _].
  - reflexivity.
  - reflexivity.
  - reflexivity.
  - reflexivity.
  - apply (S (VStr "abc") VUndefined VUndefined). reflexivity.
Defined.

(** [getTransactionsByTime('1 hour', 10)] behind a gateway that answers 502
    with an HTML page. *)
Lemma client_generic_error_witness :
  Client.settled (Client.getTransactionsByTime Cases.gateway_net (VStr "1 hour") (num 10))
  = inl (JS.mkError "API error: 502" None None).
Proof.
  destruct (client_generic_error Cases.gateway_net
              (Client.mkFetchResponse 502 (Some "text/html") None)) as [_ T].
  - reflexivity.
  - right. reflexivity.
  - apply (T (VStr "1 hour") (num 10)). reflexivity.
Defined.

(** [getTransactions()] fetches one URL. *)
Lemma client_single_attempt_witness :
  exists url,
    Client.fetched (Client.getTransactions Cases.gateway_net VUndefined VUndefined) = [url].
Proof.
  destruct (client_single_attempt Cases.gateway_net VUndefined VUndefined VUndefined VUndefined
              (Client.getTransactions Cases.gateway_net VUndefined VUndefined))
    as (url & F & _).
  - apply list_elem_of_here.
  - exists url. exact F.
Defined.

(** GET /api/transactions?limit=1000 on the flat route: all five rows. *)
Lemma legacy_list_unbounded_witness :
  page_of 1000 0 Sample.table
    (rows_of (Legacy.transactions Sample.store (Sample.request [("limit", "1000")])))
  /\ length (rows_of (Legacy.transactions Sample.store
                        (Sample.request [("limit", "1000")]))) = 5%nat.
Proof.
  destruct (legacy_list_unbounded Sample.store (Sample.request [("limit", "1000")]) 1000 0)
    as (_ & _ & _ & R & _).
  - reflexivity.
  - vm_compute. split; reflexivity.
  - unfold MAX_SAFE_INTEGER. lia.
  - reflexivity.
  - unfold MAX_SAFE_INTEGER. lia.
  - split; [exact R | vm_compute; reflexivity].
Defined.

(** GET /api/transactions?limit=2&offset=1 on both routes. *)
Lemma legacy_list_agrees_witness :
  let raw := Sample.request [("limit", "2"); ("offset", "1")] in
  rows_of (Legacy.transactions Sample.store raw)
  = rows_of (Router.serve Router.list_route Sample.store raw).
Proof.
  intros raw.
  destruct (legacy_list_agrees Sample.store raw 2 1) as (_ & R & _).
  - reflexivity.
  - vm_compute. split; reflexivity.
  - lia.
  - vm_compute. split; reflexivity.
  - unfold MAX_SAFE_INTEGER. lia.
  - apply R. compute_done.
Defined.

(** GET /api/transactions?limit=abc on the flat route. *)
Lemma legacy_list_bad_limit_witness :
  status (response (Legacy.transactions Sample.store (Sample.request [("limit", "abc")])))
  = 500.
Proof.
  destruct (legacy_list_bad_limit Sample.store (Sample.request [("limit", "abc")]) "abc")
    as (S & _).
  - reflexivity.
  - discriminate.
  - left. reflexivity.
  - exact S.
Defined.

(** GET /api/search-transactions?term=abc and the validated search. *)
Lemma legacy_search_agrees_witness :
  Legacy.search_transactions Sample.store (Sample.request [("term", "abc")])
  = Router.serve Router.search_route Sample.store (Sample.request [("term", "abc")]).
Proof.
  apply (legacy_search_agrees Sample.store (Sample.request [("term", "abc")]) "abc" 25).
  - reflexivity.
  - simpl. lia.
  - reflexivity.
  - lia.
  - reflexivity.
Defined.

(** GET /api/search-transactions without a term, and with the term ab. *)
Lemma legacy_search_term_witness :
  status (response (Legacy.search_transactions Sample.store ∅)) = 400
  /\ status (response (Legacy.search_transactions Sample.store
                         (Sample.request [("term", "ab")]))) = 200
  /\ status (response (Router.serve Router.search_route Sample.store
                         (Sample.request [("term", "ab")]))) = 400.
Proof.
  split.
  - destruct (legacy_search_term Sample.store ∅) as [A _].
    apply A. left. reflexivity.
  - destruct (legacy_search_term Sample.store (Sample.request [("term", "ab")])) as [_ B].
    destruct (B "ab" 25) as (S & _ & R).
    + reflexivity.
    + discriminate.
    + simpl. lia.
    + reflexivity.
    + lia.
    + reflexivity.
    + split; assumption.
Defined.

(** GET /api/transactions-range?start=1970-01-02&end=1970-01-01 *)
Lemma legacy_range_dates_witness :
  let raw := Sample.request [("start", "1970-01-02"); ("end", "1970-01-01")] in
  status (Legacy.answer (Legacy.transactions_range Sample.store raw)) = 200
  /\ status (response (Router.serve Router.range_route Sample.store raw)) = 400.
Proof.
  intros raw.
  destruct (legacy_range_dates Sample.store raw) as [_ B].
  destruct (B (Calendar.mkDate 1970 1 2) (Calendar.mkDate 1970 1 1) 25 0) as (A & _ & R).
  - vm_compute. split; reflexivity.
  - vm_compute. split; reflexivity.
  - reflexivity.
  - lia.
  - reflexivity.
  - unfold MAX_SAFE_INTEGER. lia.
  - right. simpl. split; [reflexivity|]. right. split; [reflexivity | lia].
  - simpl. lia.
  - reflexivity.
  - rewrite A. split; [reflexivity | exact R].
Defined.

(** GET /api/transactions-range?start=1970-01-01&end=1970-01-02 on both
    routes. *)
Lemma legacy_range_agrees_witness :
  let raw := Sample.request [("start", "1970-01-01"); ("end", "1970-01-02")] in
  Http.field "rows" (body (Legacy.answer (Legacy.transactions_range Sample.store raw)))
  = Http.field "rows" (body (response (Router.serve Router.range_route Sample.store raw))).
Proof.
  intros raw.
  destruct (legacy_range_agrees Sample.store raw
              (Calendar.mkDate 1970 1 1) (Calendar.mkDate 1970 1 2) 25 0) as (_ & R & _).
  - vm_compute. split; reflexivity.
  - vm_compute. split; reflexivity.
  - reflexivity.
  - lia.
  - reflexivity.
  - unfold MAX_SAFE_INTEGER. lia.
  - unfold Calendar.before. simpl. lia.
  - simpl. lia.
  - reflexivity.
  - apply R. compute_done.
Defined.

(** A search for abc, then Next. *)
Lemma page_search_next_repeats_witness :
  (Page.goToNextPage Sample.failing_net (Page.handleSearch Sample.failing_net Cases.searching).1).2
  = (Page.handleSearch Sample.failing_net Cases.searching).2.
Proof.
  destruct (page_search_next_repeats Sample.failing_net Cases.searching) as [_ N].
  - discriminate.
  - rewrite N. reflexivity.
Defined.

(** The component is mounted while the server answers 500 with the message
    boom. *)
Lemma page_failure_message_witness :
  Page.error (Page.fetchTransactions Sample.failing_net Page.initial).1
  = Some "this.handleResponseError is not a function".
Proof.
  apply (page_failure_message Sample.failing_net Page.initial
           "/api/transactions?limit=25&offset=0"
           (Client.mkFetchResponse 500 (Some "application/json; charset=utf-8")
              (Some (JObj [("message", JString "boom");
                           ("code", JString "unknown error")])))).
  - vm_compute. reflexivity.
  - reflexivity.
  - reflexivity.
Defined.

(** The third page of 25 rows. *)
Lemma page_asks_whole_pages_witness :
  (Page.fetchTransactions Cases.gateway_net (Page.set_paging Page.initial 2 (int 25))).2
  = ["/api/transactions?limit=25&offset=50"].
Proof.
  destruct (page_asks_whole_pages Cases.gateway_net Sample.store
              (Page.set_paging Page.initial 2 (int 25)) 25) as [U _].
  - reflexivity.
  - left. reflexivity.
  - reflexivity.
  - lia.
  - simpl. lia.
  - reflexivity.
  - rewrite U. vm_compute. reflexivity.
Defined.

(** The first page of two rows of the sample table: Next is enabled. *)
Lemma page_next_button_witness :
  Page.next_disabled (Page.fetchTransactions Cases.list_net Cases.two_rows).1 = Some false.
Proof.
  destruct (page_next_button Cases.list_net Sample.store Cases.two_rows 2)
    as (_ & _ & _ & N).
  - reflexivity.
  - left. reflexivity.
  - reflexivity.
  - lia.
  - simpl. lia.
  - reflexivity.
  - reflexivity.
  - apply N. vm_compute. discriminate.
Defined.

(** The time series of the last seven days. *)
Lemma page_time_series_request_witness :
  (Page.fetchTimeSeriesData Cases.gateway_net (fun _ => ("1970-01-01", "1970-01-08"))
     Page.initial).2
  = ["/api/transactions/by-time?interval=1%20day&limit=50"].
Proof.
  destruct (page_time_series_request Cases.gateway_net
              (fun _ => ("1970-01-01", "1970-01-08")) Cases.bucketed Page.initial) as [U _].
  - reflexivity.
  - rewrite U. vm_compute. reflexivity.
Defined.

End FurtherScenarios.
